(** * renutil: the instance registry and the install/uninstall lifecycle

    A shallow embedding of [renutil/renutil.py].  Python values are kept
    as the source has them: [str] as [string], lists as [list], integers
    as [Z] or [N], objects as records.  Code that touches the cache
    directory, the terminal or the network is written in a state and
    error monad over an explicit model of what lives under [CACHE]. *)

From Stdlib Require Import List String Ascii ZArith NArith Lia Bool Arith.
From Stdlib Require Import DecimalString DecimalN Permutation.
Import ListNotations.

Local Open Scope string_scope.
Local Open Scope list_scope.

(** ** Python [str] helpers *)

Module Str.

(** [sep.join(parts)] *)
Fixpoint join (sep : string) (parts : list string) : string :=
  match parts with
  | [] => ""
  | [p] => p
  | p :: rest => p ++ sep ++ join sep rest
  end.

(** [s.split(c)] for a one-character separator: never the empty list. *)
Fixpoint split (c : ascii) (s : string) : list string :=
  match s with
  | EmptyString => [""]
  | String a s' =>
      if Ascii.eqb a c then "" :: split c s'
      else match split c s' with
           | [] => [String a ""]
           | w :: ws => String a w :: ws
           end
  end.

(** [s[n:]] for [0 <= n] *)
Fixpoint drop (n : nat) (s : string) : string :=
  match n, s with
  | O, _ => s
  | S n', EmptyString => EmptyString
  | S n', String _ s' => drop n' s'
  end.

(** [s.endswith(suf)], through the reversed character lists *)
Definition endswith (s suf : string) : bool :=
  prefix (string_of_list_ascii (rev (list_ascii_of_string suf)))
         (string_of_list_ascii (rev (list_ascii_of_string s))).

(** [s[:-len(suf)]] when [s] ends with [suf] *)
Definition chop (suf s : string) : option string :=
  if endswith s suf
  then Some (substring 0 (String.length s - String.length suf) s)
  else None.

(** [a.split(c, 1)]: the text before the first [c], and the text after
    it when there is one. *)
Fixpoint partition (c : ascii) (s : string) : string * option string :=
  match s with
  | EmptyString => ("", None)
  | String a s' =>
      if Ascii.eqb a c then ("", Some s')
      else let (l, r) := partition c s' in (String a l, r)
  end.

Fixpoint forallb (p : ascii -> bool) (s : string) : bool :=
  match s with
  | EmptyString => true
  | String a s' => p a && forallb p s'
  end.

End Str.

(** ** Regular expressions, as far as the [semver] pattern uses them

    [re.match] is modelled by language membership through derivatives.
    Characters are the code points below 256, where the decimal digits
    [\d] are exactly ['0'..'9'].  The pattern is compiled without
    [re.ASCII], so on a Python [str] its [\d] also matches the decimal
    digits of other scripts; strings that hold such characters are
    outside this model, and the statements that depend on [\d] are made
    for ASCII strings ([ascii_only]). *)

Module Re.

Inductive regex : Type :=
| Void
| Eps
| Class (p : ascii -> bool)
| Seq (r s : regex)
| Alt (r s : regex)
| Star (r : regex).

Definition Chr (c : ascii) : regex := Class (Ascii.eqb c).
Definition Opt (r : regex) : regex := Alt r Eps.
Definition Plus (r : regex) : regex := Seq r (Star r).

Fixpoint nullable (r : regex) : bool :=
  match r with
  | Void => false
  | Eps => true
  | Class _ => false
  | Seq r s => nullable r && nullable s
  | Alt r s => nullable r || nullable s
  | Star _ => true
  end.

Fixpoint deriv (c : ascii) (r : regex) : regex :=
  match r with
  | Void => Void
  | Eps => Void
  | Class p => if p c then Eps else Void
  | Seq r s =>
      if nullable r then Alt (Seq (deriv c r) s) (deriv c s)
      else Seq (deriv c r) s
  | Alt r s => Alt (deriv c r) (deriv c s)
  | Star r => Seq (deriv c r) (Star r)
  end.

(** the whole of [s] is in the language of [r] *)
Fixpoint fullmatch (r : regex) (s : string) : bool :=
  match s with
  | EmptyString => nullable r
  | String c s' => fullmatch (deriv c r) s'
  end.

Definition between (lo hi : ascii) (c : ascii) : bool :=
  (nat_of_ascii lo <=? nat_of_ascii c)%nat && (nat_of_ascii c <=? nat_of_ascii hi)%nat.

Definition is_digit : ascii -> bool := between "0" "9".
Definition is_nonzero_digit : ascii -> bool := between "1" "9".
(** the class [a-zA-Z-] *)
Definition is_alpha_hyphen (c : ascii) : bool :=
  between "a" "z" c || between "A" "Z" c || Ascii.eqb c "-".
(** the class [0-9a-zA-Z-] *)
Definition is_alnum_hyphen (c : ascii) : bool :=
  is_digit c || is_alpha_hyphen c.

End Re.

(** ** The module-level [semver] pattern

    The pattern is written here with a blank between a star and the
    closing parenthesis after it, and cut in three where the source has
    one line:

      ^((0|[1-9]\d* )\.(0|[1-9]\d* )\.(0|[1-9]\d* )
        (-(0|[1-9]\d*|\d*[a-zA-Z-][0-9a-zA-Z-]* )(\.(0|[1-9]\d*|\d*[a-zA-Z-][0-9a-zA-Z-]* ))* )?
        (\+[0-9a-zA-Z-]+(\.[0-9a-zA-Z-]+)* )?)/?$                                          *)

Module Semver.
Import Re.

(** one numeric field: zero, or digits that do not start with zero *)
Definition numeric : regex :=
  Alt (Chr "0") (Seq (Class is_nonzero_digit) (Star (Class is_digit))).

(** one prerelease identifier: a numeric field, or digits, then a
    letter or hyphen, then letters, digits and hyphens *)
Definition pre_ident : regex :=
  Alt numeric
      (Seq (Star (Class is_digit))
           (Seq (Class is_alpha_hyphen) (Star (Class is_alnum_hyphen)))).

(** a hyphen and dot-separated prerelease identifiers *)
Definition pre : regex :=
  Seq (Chr "-") (Seq pre_ident (Star (Seq (Chr ".") pre_ident))).

(** a plus and dot-separated non-empty words of [0-9a-zA-Z-] *)
Definition build_meta : regex :=
  Seq (Chr "+")
      (Seq (Plus (Class is_alnum_hyphen))
           (Star (Seq (Chr ".") (Plus (Class is_alnum_hyphen))))).

(** group 1 *)
Definition core : regex :=
  Seq numeric (Seq (Chr ".") (Seq numeric (Seq (Chr ".") (Seq numeric
    (Seq (Opt pre) (Opt build_meta)))))).

Definition newline : string := String (ascii_of_nat 10) "".

(** [semver.match(s)], returning [m.group(1)].  After group 1 the
    pattern allows one optional slash, and [$] matches at the end of
    the string or just before a newline that ends it; group 1 itself
    holds neither character, so at most one of the four ways to cut
    the tail applies. *)
Definition semver_match (s : string) : option string :=
  let tails := ["" ; "/" ; newline ; String.append "/" newline] in
  let cut tail :=
    match Str.chop tail s with
    | Some g => if fullmatch core g then Some g else None
    | None => None
    end in
  List.fold_right (fun tail acc =>
                     match cut tail with Some g => Some g | None => acc end)
                  None tails.

End Semver.

(** ** [semantic_version.Version]

    The library is not part of the repository; its value type is
    modelled by the five fields it parses, with the equality and the
    precedence order the library defines on them. *)

Record Version : Type := mkVersion {
  major : N;
  minor : N;
  patch : N;
  prerelease : list string;
  build : list string
}.

Module SemanticVersion.

Definition all_digits (s : string) : bool :=
  negb (String.eqb s "") && Str.forallb Re.is_digit s.

Definition has_leading_zero (s : string) : bool :=
  match s with
  | String "0" (String _ _) => all_digits s
  | _ => false
  end.

(** [int(s)] on a string of decimal digits *)
Definition int_of_digits (s : string) : option N :=
  if all_digits s
  then option_map N.of_uint (NilEmpty.uint_of_string s)
  else None.

(** ['%d' % n] *)
Definition digits_of_int (n : N) : string :=
  NilEmpty.string_of_uint (N.to_uint n).

(** [_validate_identifiers] *)
Definition valid_identifiers (allow_leading_zeroes : bool) (ids : list string) : bool :=
  List.forallb (fun item =>
             negb (String.eqb item "")
             && Str.forallb (fun c => Re.is_alnum_hyphen c) item
             && (allow_leading_zeroes || negb (has_leading_zero item)))
          ids.

(** [Version(version_string)]; [None] stands for [ValueError].  The
    library's own pattern is
    ^(\d+)\.(\d+)\.(\d+)(?:-([0-9a-zA-Z.-]+))?(?:\+([0-9a-zA-Z.-]+))?$
    whose final [$] also matches before a newline that ends the
    string; the fields are then checked for leading zeros and for
    empty identifiers. *)
Definition parse (version_string : string) : option Version :=
  let s := match Str.chop Semver.newline version_string with
           | Some t => t
           | None => version_string
           end in
  let (front, build_part) := Str.partition "+" s in
  let (nums, pre_part) := Str.partition "-" front in
  match Str.split "." nums with
  | [a; b; c] =>
      if has_leading_zero a || has_leading_zero b || has_leading_zero c
      then None
      else
        match int_of_digits a, int_of_digits b, int_of_digits c with
        | Some ma, Some mi, Some pa =>
            let pre := match pre_part with
                       | None => Some []
                       | Some p =>
                           let ids := Str.split "." p in
                           if valid_identifiers false ids then Some ids else None
                       end in
            let bld := match build_part with
                       | None => Some []
                       | Some p =>
                           let ids := Str.split "." p in
                           if valid_identifiers true ids then Some ids else None
                       end in
            match pre, bld with
            | Some pre, Some bld => Some (mkVersion ma mi pa pre bld)
            | _, _ => None
            end
        | _, _, _ => None
        end
  | _ => None
  end.

(** [str(version)] *)
Definition to_string (v : Version) : string :=
  digits_of_int (major v) ++ "." ++ digits_of_int (minor v) ++ "."
    ++ digits_of_int (patch v)
    ++ (match prerelease v with [] => "" | p => "-" ++ Str.join "." p end)
    ++ (match build v with [] => "" | b => "+" ++ Str.join "." b end).

(** [v == w]: all five fields *)
Definition eqb (v w : Version) : bool :=
  N.eqb (major v) (major w) && N.eqb (minor v) (minor w)
  && N.eqb (patch v) (patch w)
  && (if list_eq_dec string_dec (prerelease v) (prerelease w) then true else false)
  && (if list_eq_dec string_dec (build v) (build w) then true else false).

(** one prerelease identifier against another: numeric ones compare as
    numbers and sort before the others, which compare as text *)
Definition ident_compare (a b : string) : comparison :=
  match int_of_digits a, int_of_digits b with
  | Some x, Some y => N.compare x y
  | Some _, None => Lt
  | None, Some _ => Gt
  | None, None => String.compare a b
  end.

Fixpoint idents_compare (p q : list string) : comparison :=
  match p, q with
  | [], [] => Eq
  | [], _ :: _ => Lt
  | _ :: _, [] => Gt
  | a :: p', b :: q' =>
      match ident_compare a b with
      | Eq => idents_compare p' q'
      | c => c
      end
  end.

(** the order of [precedence_key]: the build is left out, and a
    version without prerelease sorts after every prerelease of it *)
Definition compare (v w : Version) : comparison :=
  match N.compare (major v) (major w) with
  | Eq =>
      match N.compare (minor v) (minor w) with
      | Eq =>
          match N.compare (patch v) (patch w) with
          | Eq =>
              match prerelease v, prerelease w with
              | [], [] => Eq
              | [], _ :: _ => Gt
              | _ :: _, [] => Lt
              | p, q => idents_compare p q
              end
          | c => c
          end
      | c => c
      end
  | c => c
  end.

(** [v < w] *)
Definition ltb (v w : Version) : bool :=
  match compare v w with Lt => true | _ => false end.

End SemanticVersion.

(** ** Instances and the registry *)

(** [os.path.join(a, b)] on POSIX *)
Definition path_join (a b : string) : string :=
  if prefix "/" b then b
  else if String.eqb a "" || Str.endswith a "/" then a ++ b
  else a ++ "/" ++ b.

Record RenpyInstance : Type := mkInstance {
  version : Version;
  path : string;
  launcher_path : string
}.

(** [RenpyInstance(version, path)] with [version] already a [Version] *)
Definition RenpyInstance_init (v : Version) (p : string) : RenpyInstance :=
  mkInstance v p (path_join p "launcher").

Definition Registry : Type := list RenpyInstance.

(** The uniqueness invariant of the data model: no two instances of the
    registry have equal versions. *)
Definition unique_versions (r : Registry) : Prop := NoDup (map version r).

(** ** What lives under [CACHE] *)

Definition bytes : Type := list Byte.byte.

(** An entry of the cache root other than [index.json]: a plain file, or
    a folder given by the files below it (relative path and content). *)
Inductive Entry : Type :=
| Blob (data : bytes)
| Folder (files : list (string * bytes)).

Definition Entries : Type := list (string * Entry).

Fixpoint lookup {A : Type} (name : string) (l : list (string * A)) : option A :=
  match l with
  | [] => None
  | (n, e) :: rest => if String.eqb n name then Some e else lookup name rest
  end.

Fixpoint delete {A : Type} (name : string) (l : list (string * A)) : list (string * A) :=
  match l with
  | [] => []
  | (n, e) :: rest =>
      if String.eqb n name then delete name rest else (n, e) :: delete name rest
  end.

(** replace the entry in place, or add it at the end *)
Fixpoint put {A : Type} (name : string) (e : A) (l : list (string * A)) : list (string * A) :=
  match l with
  | [] => [(name, e)]
  | (n, e') :: rest =>
      if String.eqb n name then (n, e) :: rest else (n, e') :: put name e rest
  end.

(** One member of an archive: [ZipInfo.filename] and the stored data. *)
Record ZipInfo : Type := mkZipInfo {
  filename : string;
  payload : bytes
}.

Inductive Request : Type :=
| UrlOpen (url : string)
| RangeGet (url : string) (first_byte last_byte : Z).

Inductive Exn : Type :=
| TypeError | AttributeError | ValueError | IndexError
| FileNotFoundError | FileExistsError | IsADirectoryError | NotADirectoryError
| JSONDecodeError | BadZipFile | URLError | ConnectionError.

(** How a call ends: it returns, it calls [exit(code)], or an exception
    leaves it. *)
Inductive Outcome (A : Type) : Type :=
| Ret (a : A)
| Exit (code : Z)
| Raise (e : Exn).
Arguments Ret {A} a.
Arguments Exit {A} code.
Arguments Raise {A} e.

(** [l[:n]] *)
Definition slice_to {A : Type} (n : Z) (l : list A) : list A :=
  if (0 <=? n)%Z then firstn (Z.to_nat n) l
  else firstn (List.length l - Z.to_nat (- n)) l.

(** ** [get_members]: the archive's common folder prefix *)

(** [a < b] on lists of strings: the first place where they differ
    decides, and a proper prefix is smaller. *)
Fixpoint list_ltb (a b : list string) : bool :=
  match a, b with
  | [], [] => false
  | [], _ :: _ => true
  | _ :: _, [] => false
  | x :: a', y :: b' => if String.eqb x y then list_ltb a' b' else String.ltb x y
  end.

(** [min(m)] and [max(m)] for a non-empty [m = first :: rest] *)
Definition py_min (first : list string) (rest : list (list string)) : list string :=
  fold_left (fun cur x => if list_ltb x cur then x else cur) rest first.

Definition py_max (first : list string) (rest : list (list string)) : list string :=
  fold_left (fun cur x => if list_ltb cur x then x else cur) rest first.

(** the loop of [commonprefix]: [s1[:i]] at the first [i] with
    [s1[i] != s2[i]], else [s1]; [None] is the [IndexError] of [s2[i]] *)
Fixpoint common_loop (s1 s2 : list string) : option (list string) :=
  match s1 with
  | [] => Some []
  | c :: s1' =>
      match s2 with
      | [] => None
      | d :: s2' =>
          if String.eqb c d then option_map (cons c) (common_loop s1' s2')
          else Some []
      end
  end.

(** [os.path.commonprefix(m)] on a list of component lists.  On the
    empty list the library returns [''], which [get_members] only tests
    for truth and measures: the empty component list stands for it. *)
Definition commonprefix (m : list (list string)) : option (list string) :=
  match m with
  | [] => Some []
  | first :: rest => common_loop (py_min first rest) (py_max first rest)
  end.

(** [name.split('/')[:-1]] *)
Definition dir_parts (name : string) : list string :=
  removelast (Str.split "/" name).

(** the [parts] of [get_members] *)
Definition member_parts (names : list string) : list (list string) :=
  map dir_parts (filter (fun name => negb (Str.endswith name "/")) names).

(** [len(prefix)] after the [if prefix:] of [get_members] *)
Definition prefix_offset (pfx : list string) : nat :=
  match pfx with
  | [] => 0
  | _ => String.length (Str.join "/" pfx ++ "/")
  end.

(** [get_members(zip)], as the list of what the generator yields: each
    [ZipInfo] with its [filename] rewritten. *)
Definition get_members (infolist : list ZipInfo) : Outcome (list ZipInfo) :=
  match commonprefix (member_parts (map filename infolist)) with
  | None => Raise IndexError
  | Some pfx =>
      let offset := prefix_offset pfx in
      Ret (map (fun z => mkZipInfo (Str.drop offset (filename z)) (payload z))
               (filter (fun z => (offset <? String.length (filename z))%nat) infolist))
  end.

Definition member_names (o : Outcome (list ZipInfo)) : option (list string) :=
  match o with
  | Ret l => Some (map filename l)
  | _ => None
  end.

Definition zip_of_names (names : list string) : list ZipInfo :=
  map (fun n => mkZipInfo n []) names.

(** ** The program *)

Definition nl : string := Semver.newline.

Section Renutil.

(** [expanduser("~")] *)
Variable home : string.

(** [jsonpickle]: the text of [index.json], [jsonpickle.encode] on a
    list of instances, and [jsonpickle.decode], where [None] is the
    [JSONDecodeError]. *)
Variable Text : Type.
Variable encode : Registry -> Text.
Variable decode : Text -> option Registry.

(** The network.  [content_length url] is
    [urlopen(url).headers.get("Content-Length")] as a number, [None]
    when [urlopen] raises; [get_range url a b] is the body that
    [requests.get] streams for the header [Range: bytes=a-b], [None]
    when the request raises. *)
Variable content_length : string -> option (option Z).
Variable get_range : string -> Z -> Z -> option bytes.

(** [zipfile]: the members of an archive file, [None] for [BadZipFile]. *)
Variable read_zip : bytes -> option (list ZipInfo).

Definition CACHE : string := path_join home ".renutil".
Definition INSTANCE_REGISTRY : string := path_join CACHE "index.json".

(** What is at the path [CACHE]: nothing, something that is no
    directory, or a directory with its permission bits for this
    process, the text of [index.json] when that file exists, and the
    other entries in [listdir] order.  The file [index.json] is the
    field and no entry: a state in which an entry has that name (a
    directory called [index.json], say) is not a file system the calls
    below describe, and the statements that the guard always returns
    assume that no entry has it.  The
    permission bits are what [access] reads; the other calls are
    described for a directory on which both are set, which is where
    the program makes them. *)
Inductive CacheRoot : Type :=
| Missing
| NotADir (readable writable : bool)
| Dir (readable writable : bool) (index_json : option Text) (entries : Entries).

Record State : Type := mkState {
  cache : CacheRoot;
  stdout : list string;
  requests : list Request
}.

Definition M (A : Type) : Type := State -> Outcome A * State.

Definition ret {A : Type} (a : A) : M A := fun s => (Ret a, s).

Definition bind {A B : Type} (m : M A) (k : A -> M B) : M B :=
  fun s =>
    match m s with
    | (Ret a, s') => k a s'
    | (Exit code, s') => (Exit code, s')
    | (Raise e, s') => (Raise e, s')
    end.

Notation "x <- m ;; k" := (bind m (fun x => k))
  (at level 61, m at next level, right associativity).
Notation "m ;; k" := (bind m (fun _ => k))
  (at level 61, right associativity).

Definition exit {A : Type} (code : Z) : M A := fun s => (Exit code, s).
Definition raise {A : Type} (e : Exn) : M A := fun s => (Raise e, s).

Definition print (line : string) : M unit :=
  fun s => (Ret tt, mkState (cache s) (stdout s ++ [line]) (requests s)).

Definition send (r : Request) : M unit :=
  fun s => (Ret tt, mkState (cache s) (stdout s) (requests s ++ [r])).

Definition get_cache : M CacheRoot := fun s => (Ret (cache s), s).

Definition set_cache (c : CacheRoot) : M unit :=
  fun s => (Ret tt, mkState c (stdout s) (requests s)).

(** *** The file system calls the program makes *)

(** [access(CACHE, R_OK | W_OK)]: false when nothing is there *)
Definition access_rw (c : CacheRoot) : bool :=
  match c with
  | Missing => false
  | NotADir r w => r && w
  | Dir r w _ _ => r && w
  end.

(** [isdir(CACHE)] *)
Definition isdir (c : CacheRoot) : bool :=
  match c with
  | Dir _ _ _ _ => true
  | _ => false
  end.

(** [isfile(INSTANCE_REGISTRY)] *)
Definition isfile_registry (c : CacheRoot) : bool :=
  match c with
  | Dir _ _ (Some _) _ => true
  | _ => false
  end.

(** [mkdir(CACHE)] *)
Definition mkdir_cache : M unit :=
  c <- get_cache ;;
  match c with
  | Missing => set_cache (Dir true true None [])
  | _ => raise FileExistsError
  end.

(** [listdir(CACHE)] of a readable directory *)
Definition listdir_cache : M (list string) :=
  c <- get_cache ;;
  match c with
  | Missing => raise FileNotFoundError
  | NotADir _ _ => raise NotADirectoryError
  | Dir _ _ idx es =>
      ret (map fst es ++ match idx with Some _ => ["index.json"] | None => [] end)
  end.

(** [open(INSTANCE_REGISTRY, "w")] and [f.write(text)] *)
Definition write_registry (text : Text) : M unit :=
  c <- get_cache ;;
  match c with
  | Missing => raise FileNotFoundError
  | NotADir _ _ => raise NotADirectoryError
  | Dir r w _ es => set_cache (Dir r w (Some text) es)
  end.

(** [open(INSTANCE_REGISTRY, "r")] and [file.read()] *)
Definition read_registry : M Text :=
  c <- get_cache ;;
  match c with
  | Dir _ _ (Some text) _ => ret text
  | NotADir _ _ => raise NotADirectoryError
  | _ => raise FileNotFoundError
  end.

(** [remove(INSTANCE_REGISTRY)] *)
Definition remove_registry : M unit :=
  c <- get_cache ;;
  match c with
  | Dir r w (Some _) es => set_cache (Dir r w None es)
  | NotADir _ _ => raise NotADirectoryError
  | _ => raise FileNotFoundError
  end.

Definition get_entries : M Entries :=
  c <- get_cache ;;
  match c with
  | Missing => raise FileNotFoundError
  | NotADir _ _ => raise NotADirectoryError
  | Dir _ _ _ es => ret es
  end.

Definition set_entries (es : Entries) : M unit :=
  c <- get_cache ;;
  match c with
  | Missing => raise FileNotFoundError
  | NotADir _ _ => raise NotADirectoryError
  | Dir r w idx _ => set_cache (Dir r w idx es)
  end.

(** [remove(join(CACHE, name))] *)
Definition remove (name : string) : M unit :=
  es <- get_entries ;;
  match lookup name es with
  | None => raise FileNotFoundError
  | Some (Folder _) => raise IsADirectoryError
  | Some (Blob _) => set_entries (delete name es)
  end.

(** [rmtree(join(CACHE, name))] for the name of an entry of the cache
    root; a [name] that [join] and the file system resolve elsewhere
    (empty, a dot path, one with a slash) is not described. *)
Definition rmtree (name : string) : M unit :=
  es <- get_entries ;;
  match lookup name es with
  | None => raise FileNotFoundError
  | Some (Blob _) => raise NotADirectoryError
  | Some (Folder _) => set_entries (delete name es)
  end.

(** [st_size] of a directory, as [getsize] reports it *)
Definition dir_st_size : Z := 4096.

(** *** [scan_instances] *)

(** the loop of [scan_instances] over [listdir(path)]; [ValueError] is
    what [Version] raises on a string it does not accept *)
Fixpoint scan_loop (folders : list string) (instances : Registry) : Outcome Registry :=
  match folders with
  | [] => Ret instances
  | folder :: rest =>
      match Semver.semver_match folder with
      | Some group1 =>
          match SemanticVersion.parse group1 with
          | Some v => scan_loop rest (instances ++ [RenpyInstance_init v folder])
          | None => Raise ValueError
          end
      | None => scan_loop rest instances
      end
  end.

Definition scan_instances : M Registry :=
  folders <- listdir_cache ;;
  fun s => (scan_loop folders [], s).

(** *** [assure_state] *)

Definition not_writeable_message : string :=
  "Cache directory is not writeable:" ++ nl ++ CACHE ++ nl
    ++ "Please make sure this script has permission to write to this directory.".

(** the [wrapper] that [assure_state(func)] returns *)
Definition assure_state {A : Type} (func : M A) : M A :=
  c <- get_cache ;;
  if negb (access_rw c) then
    print not_writeable_message ;; exit 1
  else
    (c <- get_cache ;;
     if negb (isdir c) then
       print ("Cache directory does not exist, creating it:" ++ nl ++ CACHE) ;;
       mkdir_cache
     else ret tt) ;;
    (c <- get_cache ;;
     if negb (isfile_registry c) then
       print ("Instance registry does not exist, creating it:" ++ nl ++ INSTANCE_REGISTRY) ;;
       instances <- scan_instances ;;
       write_registry (encode instances)
     else ret tt) ;;
    func.

Definition call_assure_state : M unit := assure_state (ret tt).

(** [get_registry]; the Python [None] it returns after a
    [JSONDecodeError] is the [None] here. *)
Definition get_registry : M (option Registry) :=
  assure_state
    (text <- read_registry ;;
     match decode text with
     | None =>
         remove_registry ;;
         call_assure_state ;;
         ret None
     | Some registry => ret (Some registry)
     end).

(** *** The registry store *)

(** [del registry[i]] *)
Fixpoint del_at {A : Type} (i : nat) (l : list A) : list A :=
  match i, l with
  | _, [] => []
  | O, _ :: rest => rest
  | S i', x :: rest => x :: del_at i' rest
  end.

(** The loop of [remove_from_registry],
    [for i, inst in enumerate(registry): if ...: del registry[i]]:
    the list iterator holds the index [i] of its next element and
    stops when [i] is no index of the list as it is then.  One unit of
    [fuel] is one round of the loop. *)
Fixpoint remove_loop (fuel i : nat) (registry : Registry) (v : Version) : Registry :=
  match fuel with
  | O => registry
  | S fuel' =>
      match nth_error registry i with
      | None => registry
      | Some inst =>
          if SemanticVersion.eqb (version inst) v
          then remove_loop fuel' (S i) (del_at i registry) v
          else remove_loop fuel' (S i) registry v
      end
  end.

(** [remove_from_registry(instance)]; [instance] may be the [None]
    that [get_instance] returns, on which [instance.version] raises. *)
Definition remove_from_registry (instance : option RenpyInstance) : M unit :=
  registry <- get_registry ;;
  match registry with
  | None => raise TypeError
  | Some registry =>
      match instance, registry with
      | Some instance, _ =>
          write_registry
            (encode (remove_loop (List.length registry) 0 registry (version instance)))
      | None, [] => write_registry (encode registry)
      | None, _ :: _ => raise AttributeError
      end
  end.

(** [add_to_registry(instance)] *)
Definition add_to_registry (instance : RenpyInstance) : M unit :=
  registry <- get_registry ;;
  match registry with
  | None => raise AttributeError
  | Some registry => write_registry (encode (registry ++ [instance]))
  end.

(** [Version(version)] for a [str] *)
Definition Version_of_str {A : Type} (version : string) (k : Version -> M A) : M A :=
  match SemanticVersion.parse version with
  | None => raise ValueError
  | Some v => k v
  end.

Fixpoint get_instance_loop (registry : Registry) (v : Version) : option RenpyInstance :=
  match registry with
  | [] => None
  | instance :: rest =>
      if SemanticVersion.eqb (version instance) v then Some instance
      else get_instance_loop rest v
  end.

(** [get_instance(version)] *)
Definition get_instance (version : string) : M (option RenpyInstance) :=
  Version_of_str version (fun v =>
    registry <- get_registry ;;
    match registry with
    | None => raise TypeError
    | Some registry => ret (get_instance_loop registry v)
    end).

Fixpoint installed_loop (registry : Registry) (v : Version) : bool :=
  match registry with
  | [] => false
  | instance :: rest =>
      if SemanticVersion.eqb (version instance) v then true
      else installed_loop rest v
  end.

(** [installed(version)] *)
Definition installed (version : string) : M bool :=
  Version_of_str version (fun v =>
    registry <- get_registry ;;
    match registry with
    | None => raise TypeError
    | Some registry => ret (installed_loop registry v)
    end).

(** *** [list_versions] *)

(** [get_available_versions()], the scraper of the download page,
    by the versions of the releases it returns *)
Variable get_available_versions : M (list Version).

Fixpoint print_versions (vs : list Version) : M unit :=
  match vs with
  | [] => ret tt
  | v :: rest => print (SemanticVersion.to_string v) ;; print_versions rest
  end.

(** [list_versions(args, unkown)] with [args.installed] and [args.n] *)
Definition list_versions (args_installed : bool) (args_n : Z) : M unit :=
  assure_state
    (if args_installed then
       print "Installed versions:" ;;
       instances <- get_registry ;;
       match instances with
       | None | Some [] => print "No instances are currently installed."
       | Some instances => print_versions (map version (slice_to args_n instances))
       end
     else
       print "Available versions:" ;;
       releases <- get_available_versions ;;
       match releases with
       | [] => print "No releases are available."
       | _ => print_versions (slice_to args_n releases)
       end).

(** *** [download] *)

(** the entries that [exists] and [getsize] can see *)
Definition entries_of (c : CacheRoot) : Entries :=
  match c with
  | Dir _ _ _ es => es
  | _ => []
  end.

(** [open(dest, "ab")] and the [f.write(chunk)] of every chunk, for a
    [dest] that names an entry of a writable cache root *)
Definition append_file (dest : string) (body : bytes) : M unit :=
  es <- get_entries ;;
  match lookup dest es with
  | Some (Folder _) => raise IsADirectoryError
  | Some (Blob data) => set_entries (put dest (Blob (data ++ body)) es)
  | None => set_entries (put dest (Blob body) es)
  end.

(** [download(url, dest)] with [dest = join(CACHE, name)], by [name] *)
Definition download (url dest : string) : M unit :=
  send (UrlOpen url) ;;
  match content_length url with
  | None => raise URLError
  | Some header =>
      let file_size := match header with Some n => n | None => (-1)%Z end in
      c <- get_cache ;;
      let first_byte :=
        match lookup dest (entries_of c) with
        | Some (Blob data) => Z.of_nat (List.length data)
        | Some (Folder _) => dir_st_size
        | None => 0%Z
        end in
      if (first_byte >=? file_size)%Z then ret tt
      else
        send (RangeGet url first_byte file_size) ;;
        match get_range url first_byte file_size with
        | None => raise ConnectionError
        | Some body => append_file dest body
        end
  end.

(** *** Archives *)

(** [ZipFile(join(CACHE, name), "r")], by its [infolist()] *)
Definition ZipFile (name : string) : M (list ZipInfo) :=
  es <- get_entries ;;
  match lookup name es with
  | None => raise FileNotFoundError
  | Some (Folder _) => raise IsADirectoryError
  | Some (Blob data) =>
      match read_zip data with
      | None => raise BadZipFile
      | Some infolist => ret infolist
      end
  end.

(** the path [zipfile] writes a member to, below the target folder:
    empty components, [.] and [..] are left out *)
Definition arcname (name : string) : string :=
  Str.join "/"
    (filter (fun x => negb (String.eqb x "" || String.eqb x "." || String.eqb x ".."))
            (Str.split "/" name)).

Fixpoint extract_loop (sub : string) (members : list ZipInfo)
                      (files : list (string * bytes)) : list (string * bytes) :=
  match members with
  | [] => files
  | z :: rest =>
      if Str.endswith (filename z) "/" then extract_loop sub rest files
      else extract_loop sub rest (put (sub ++ arcname (filename z)) (payload z) files)
  end.

(** [zip.extractall(path=join(CACHE, folder, ...), members=members)];
    [sub] is the path below the folder, with its final slash, or
    empty.  The files of a folder are kept by their path below it, so
    a member below the path of a file, on which the library raises, is
    written as one more file. *)
Definition extractall (folder sub : string) (members : list ZipInfo) : M unit :=
  match members with
  | [] => ret tt
  | _ =>
      es <- get_entries ;;
      match lookup folder es with
      | Some (Blob _) => raise NotADirectoryError
      | Some (Folder files) =>
          set_entries (put folder (Folder (extract_loop sub members files)) es)
      | None =>
          set_entries (put folder (Folder (extract_loop sub members [])) es)
      end
  end.

Definition lift {A : Type} (o : Outcome A) : M A := fun s => (o, s).

(** *** [install] and [uninstall] *)

(** [install(args, unkown)] with [args.version].  The two lines that set
    and delete [environ["PGS4A_NO_TERMS"]] change nothing and are left
    out, as is the progress bar of [download]. *)
Definition install (args_version : string) : M unit :=
  assure_state
    (already <- installed args_version ;;
     if already then
       print (args_version ++ " is already installed!") ;;
       exit 1
     else
       print "Downloading necessary files..." ;;
       let sdk_filename := ("renpy-" ++ args_version ++ "-sdk.zip")%string in
       let rapt_filename := ("renpy-" ++ args_version ++ "-rapt.zip")%string in
       let folder_name := args_version in
       let SDK_URL :=
         ("https://www.renpy.org/dl/" ++ args_version ++ "/" ++ sdk_filename)%string in
       let RAPT_URL :=
         ("https://www.renpy.org/dl/" ++ args_version ++ "/" ++ rapt_filename)%string in
       download SDK_URL sdk_filename ;;
       download RAPT_URL rapt_filename ;;
       print "Extracting Ren'Py..." ;;
       sdk_zip <- ZipFile sdk_filename ;;
       rapt_zip <- ZipFile rapt_filename ;;
       sdk_members <- lift (get_members sdk_zip) ;;
       extractall folder_name "" sdk_members ;;
       rapt_members <- lift (get_members rapt_zip) ;;
       extractall folder_name "rapt/" rapt_members ;;
       text <- read_registry ;;
       match decode text with
       | None => raise JSONDecodeError
       | Some _ =>
           Version_of_str args_version (fun v =>
             add_to_registry (RenpyInstance_init v folder_name) ;;
             print "Cleaning up..." ;;
             remove sdk_filename ;;
             remove rapt_filename)
       end).

(** [uninstall(args, unkown)] with [args.version] *)
Definition uninstall (args_version : string) : M unit :=
  assure_state
    (present <- installed args_version ;;
     if negb present then
       print (args_version ++ " is not installed!") ;;
       exit 1
     else
       instance <- get_instance args_version ;;
       remove_from_registry instance ;;
       match instance with
       | None => raise AttributeError
       | Some instance => rmtree (path instance)
       end).

End Renutil.

Arguments Missing {Text}.
Arguments NotADir {Text} readable writable.
Arguments Dir {Text} readable writable index_json entries.
Arguments mkState {Text} cache stdout requests.
Arguments cache {Text} s.
Arguments stdout {Text} s.
Arguments requests {Text} s.
Arguments ret {Text A} a s.
Arguments bind {Text A B} m k s.
Arguments exit {Text A} code s.
Arguments raise {Text A} e s.
Arguments lift {Text A} o s.
Arguments print {Text} line s.
Arguments send {Text} r s.
Arguments get_cache {Text} s.
Arguments set_cache {Text} c s.
Arguments entries_of {Text} c.
Arguments access_rw {Text} c.
Arguments isdir {Text} c.
Arguments isfile_registry {Text} c.
Arguments scan_instances {Text} s.
Arguments listdir_cache {Text} s.
Arguments remove {Text} name s.
Arguments rmtree {Text} name s.
Arguments append_file {Text} dest body s.
Arguments extractall {Text} folder sub members s.
Arguments print_versions {Text} vs s.

(** ** Vocabulary of the statements *)

(** [p] is a leading part of [q] *)
Definition is_prefix {A : Type} (p q : list A) : Prop := exists r, q = p ++ r.

(** [p] is the longest list that begins every list of [m] *)
Definition longest_common_prefix (p : list string) (m : list (list string)) : Prop :=
  Forall (is_prefix p) m /\ forall p', Forall (is_prefix p') m -> is_prefix p' p.

(** the text [get_members] measures: the folders of the prefix, each
    followed by a slash *)
Definition prefix_text (pfx : list string) : string :=
  match pfx with
  | [] => ""
  | _ => Str.join "/" pfx ++ "/"
  end.

(** What [remove_loop] comes to, read off the list alone: a deleted
    instance takes the turn of the one after it. *)
Fixpoint remove_skipping (registry : Registry) (v : Version) : Registry :=
  match registry with
  | [] => []
  | inst :: rest =>
      if SemanticVersion.eqb (version inst) v
      then match rest with
           | [] => []
           | next :: rest' => next :: remove_skipping rest' v
           end
      else inst :: remove_skipping rest v
  end.

(** the instances that [uninstall] of [v] is to keep *)
Definition other_version (v : Version) (inst : RenpyInstance) : bool :=
  negb (SemanticVersion.eqb (version inst) v).

(** An entry name that ends neither in a slash (no name that [listdir]
    gives does) nor in a newline: the two characters that the pattern
    lets follow group 1. *)
Definition plain_name (name : string) : Prop :=
  Str.endswith name "/" = false /\ Str.endswith name nl = false.

(** [semver.match(name)] is not [None] *)
Definition matches_semver (name : string) : bool :=
  match Semver.semver_match name with
  | Some _ => true
  | None => false
  end.

(** The cache root is a readable and writable directory whose
    [index.json] holds [text]. *)
Definition indexed {Text : Type} (text : Text) (s : State Text) : Prop :=
  exists es, cache s = Dir true true (Some text) es.

(** the permission bits and the text of [index.json], without the other
    entries *)
Definition index_of {Text : Type} (s : State Text) : option (bool * bool * option Text) :=
  match cache s with
  | Dir r w idx _ => Some (r, w, idx)
  | _ => None
  end.

(** A call that leaves [index.json] and the permission bits alone,
    however it ends. *)
Definition keeps_index {Text A : Type} (m : M Text A) : Prop :=
  forall s o s', m s = (o, s') -> index_of s' = index_of s.

(** ** The stripping of archive members, in the words of the
    specification

    For every non-directory entry take its path components without the
    last; take their longest common prefix; when it is not empty, strip
    it, with the separator, from every entry's path, and drop the
    entries whose path is no longer than it. *)

Fixpoint common2 (a b : list string) : list string :=
  match a, b with
  | x :: a', y :: b' => if String.eqb x y then x :: common2 a' b' else []
  | _, _ => []
  end.

Definition common_all (m : list (list string)) : list string :=
  match m with
  | [] => []
  | first :: rest => fold_left common2 rest first
  end.

(** [s] without the leading [p], when it begins with [p] *)
Definition strip_prefix (p s : string) : string :=
  if prefix p s then Str.drop (String.length p) s else s.

Definition spec_members (names : list string) : list string :=
  let p := prefix_text (common_all (member_parts names)) in
  map (strip_prefix p)
      (filter (fun name => (String.length p <? String.length name)%nat) names).

(** ** A small concrete world

    A codec that keeps the registry itself as the text of [index.json],
    with [None] for a text that does not decode; a server with one
    three-byte archive behind every URL, which answers a range request
    with the bytes from its first position on; and an archive reader
    that knows this one archive. *)

Module Sample.

Definition home : string := "/home/user".
Definition Text : Type := option Registry.
Definition encode (r : Registry) : Text := Some r.
Definition decode (t : Text) : option Registry := t.

Definition archive : bytes := [Byte.x50; Byte.x4b; Byte.x03].

Definition content_length (url : string) : option (option Z) := Some (Some 3%Z).

Definition get_range (url : string) (first_byte last_byte : Z) : option bytes :=
  Some (skipn (Z.to_nat first_byte) archive).

Definition read_zip (data : bytes) : option (list ZipInfo) :=
  if list_eq_dec Byte.byte_eq_dec data archive
  then Some [mkZipInfo "renpy-sdk/" []; mkZipInfo "renpy-sdk/renpy.py" [Byte.x23];
             mkZipInfo "renpy-sdk/lib/linux-x86_64/renpy" [Byte.x7f]]
  else None.

Definition get_available_versions : M Text (list Version) := ret [].

Definition v100 : Version := mkVersion 1 0 0 [] [].
Definition v200 : Version := mkVersion 2 0 0 [] [].
Definition inst100 : RenpyInstance := RenpyInstance_init v100 "1.0.0".
Definition inst200 : RenpyInstance := RenpyInstance_init v200 "2.0.0".

Definition state_of (c : CacheRoot Text) : State Text := mkState c [] [].

(** one installed version, with its folder *)
Definition one_installed : State Text :=
  state_of (Dir true true (Some (Some [inst100])) [("1.0.0", Folder [("renpy.py", [Byte.x23])])]).

(** two installed versions, in the order of their installation *)
Definition two_installed : State Text :=
  state_of (Dir true true (Some (Some [inst100; inst200]))
                [("1.0.0", Folder []); ("2.0.0", Folder [])]).

(** a folder of an installed version, and an [index.json] that does not
    decode *)
Definition corrupt_index : State Text :=
  state_of (Dir true true (Some None) [("1.0.0", Folder []); ("lib", Folder [])]).

(** nothing at [CACHE] *)
Definition no_cache : State Text := state_of Missing.

(** no [index.json], and two folders whose names differ in a final
    newline *)
Definition newline_twin : State Text :=
  state_of (Dir true true None [("1.0.0", Folder []); (String.append "1.0.0" nl, Folder [])]).

(** a partial download of the first two bytes of the archive *)
Definition partial_download : State Text :=
  state_of (Dir true true (Some (Some [])) [("renpy-1.0.0-sdk.zip", Blob [Byte.x50; Byte.x4b])]).

(** a server that sends no [Content-Length] *)
Definition no_length (url : string) : option (option Z) := Some None.

End Sample.

(** ** The rest of the program: the list of releases and the launch *)

Record RenpyRelease : Type := mkRelease {
  release_version : Version;
  url : string
}.

(** [is_online()] *)
Definition is_online : bool := true.

(** the loop of [get_available_versions] over the texts of the links *)
Fixpoint releases_loop (links : list string) (releases : list RenpyRelease)
  : Outcome (list RenpyRelease) :=
  match links with
  | [] => Ret releases
  | link :: rest =>
      match Semver.semver_match link with
      | None => releases_loop rest releases
      | Some group1 =>
          match SemanticVersion.parse group1 with
          | None => Raise ValueError
          | Some v =>
              releases_loop rest
                (releases
                   ++ [mkRelease v ("https://www.renpy.org/dl/" ++ group1
                                      ++ "/renpy-" ++ group1 ++ "-sdk.zip")])
          end
      end
  end.

(** [a < b] on releases: [ComparableVersion.__lt__] *)
Definition release_lt (a b : RenpyRelease) : bool :=
  SemanticVersion.ltb (release_version a) (release_version b).

(** [sorted(releases, reverse=True)].  The builtin is modelled by what
    it guarantees: the stable arrangement with the highest first, in
    which a release goes before the first one that is below it, and so
    after those that are equal to it and came earlier. *)
Fixpoint insert_release (x : RenpyRelease) (l : list RenpyRelease) : list RenpyRelease :=
  match l with
  | [] => [x]
  | y :: rest => if release_lt y x then x :: y :: rest else y :: insert_release x rest
  end.

Definition sorted_reverse (releases : list RenpyRelease) : list RenpyRelease :=
  fold_left (fun sorted x => insert_release x sorted) releases [].

(** [uname()], as far as [get_libraries] reads it *)
Record Uname : Type := mkUname {
  sysname : string;
  machine : string
}.

(** [os.environ] *)
Definition Environ : Type := list (string * string).

(** [sub in s] *)
Fixpoint contains (sub s : string) : bool :=
  prefix sub s
  || match s with
     | EmptyString => false
     | String _ s' => contains sub s'
     end.

(** [join(a, *ps)] *)
Definition join_all (a : string) (ps : list string) : string :=
  fold_left path_join ps a.

(** [for c in candidates: current = c; if test(c): break], by the value
    [current] has after the loop *)
Fixpoint search (test : string -> bool) (candidates : list string) (current : string)
  : string :=
  match candidates with
  | [] => current
  | c :: rest => if test c then c else search test rest c
  end.

(** How a call of [get_libraries] or [launch] ends: as the other calls
    do, or with the [NameError] of the name [re], which the module does
    not bind (it imports [compile] from [re], not [re]). *)
Inductive Ended (A : Type) : Type :=
| Normally (o : Outcome A)
| NameError.
Arguments Normally {A} o.
Arguments NameError {A}.

(** What [launch] did when it returns: the command it passed to [run],
    and [os.environ] during the run and after it. *)
Record Launch : Type := mkLaunch {
  command : list string;
  environ_of_run : Environ;
  environ_after : Environ
}.

Section Remote.

Variable home : string.
Variable Text : Type.
Variable encode : Registry -> Text.
Variable decode : Text -> option Registry.

(** [tree.xpath("//a/text()")] on the page that
    [requests.get("https://www.renpy.org/dl/")] returns; [None] when
    the request or the parser raises. *)
Variable dl_links : option (list string).

(** [uname()] *)
Variable uname : Uname.

(** [isdir] and [isfile] on the paths that [get_libraries] builds *)
Variable isdir_path : string -> bool.
Variable isfile_path : string -> bool.

(** [run(cmd)] under an environment: [None] when it returns or is
    interrupted by [KeyboardInterrupt], [Some e] when [e] leaves it. *)
Variable run_raises : list string -> Environ -> option Exn.

Local Notation "x <- m ;; k" := (bind m (fun x => k))
  (at level 61, m at next level, right associativity).
Local Notation "m ;; k" := (bind m (fun _ => k))
  (at level 61, right associativity).

(** [get_available_versions()] *)
Definition get_available_versions : M Text (list RenpyRelease) :=
  assure_state home Text encode
    ((if negb is_online then
        print "Could not retrieve version list: No connection could be established." ;;
        exit 1
      else ret tt) ;;
     match dl_links with
     | None => raise ConnectionError
     | Some links =>
         releases <- lift (releases_loop links []) ;;
         ret (sorted_reverse releases)
     end).

(** the versions [list_versions] prints from [get_available_versions()] *)
Definition available_versions : M Text (list Version) :=
  releases <- get_available_versions ;;
  ret (map release_version releases).

(** [get_libraries(root)] under the environment [env]: the list it
    returns, the environment it leaves, and the lines it prints.  The
    third test of the platform evaluates [re.match], so neither it nor
    the fourth is ever decided, and the first value of [platform],
    made of [sysname] and [machine], is never used. *)
Definition get_libraries (root : string) (env : Environ)
  : Ended (list string * Environ * list string) :=
  let found :=
    if contains "Darwin" (sysname uname) then
      Some ("darwin-x86_64", (root ++ "/../Resources/autorun")%string,
            (root ++ "/../../..")%string)
    else if contains "x86_64" (machine uname) || contains "amd64" (machine uname) then
      Some ("linux-x86_64", root, root)
    else None in
  match found with
  | None => NameError
  | Some (platform, root1, root2) =>
      let CACHE := CACHE home in
      let lib :=
        search isdir_path
               (map (fun folder => join_all CACHE [folder; "lib"; platform])
                    [root; root1; root2]) "" in
      let lib := path_join lib "renpy" in
      let printed :=
        if String.eqb lib "" then
          [("Ren'Py platform files not found in '"
              ++ join_all root ["lib"; platform] ++ "'")%string]
        else [] in
      let env' :=
        match lookup "LD_LIBRARY_PATH" env with
        | Some old =>
            if negb (String.length old =? 0)%nat
            then put "LD_LIBRARY_PATH" (lib ++ ":" ++ old)%string env
            else env
        | None => env
        end in
      let base_file :=
        search isfile_path
               (map (fun folder => join_all CACHE [folder; "renpy.py"])
                    [root; root1; root2]) "" in
      Normally (Ret ([lib; "-EO"; base_file], env', printed))
  end.

Fixpoint print_lines (lines : list string) : M Text unit :=
  match lines with
  | [] => ret tt
  | line :: rest => print line ;; print_lines rest
  end.

(** the function that [launch] wraps; its [None] is the [NameError]
    that leaves [get_libraries], which the wrapper lets through *)
Definition launch_body (args_version : string) (args_launcher : bool)
                       (unkown : list string) (env : Environ) : M Text (option Launch) :=
  present <- installed home Text encode decode args_version ;;
  if negb present then
    print (args_version ++ " is not installed!") ;;
    exit 1
  else
    instance <- get_instance home Text encode decode args_version ;;
    let env := put "SDL_AUDIODRIVER" "dummy" env in
    match instance with
    | None => raise AttributeError
    | Some instance =>
        match get_libraries (path instance) env with
        | NameError => ret None
        | Normally (Exit code) => exit code
        | Normally (Raise e) => raise e
        | Normally (Ret (cmd, env, printed)) =>
            print_lines printed ;;
            let cmd :=
              if args_launcher
              then cmd ++ [path_join (CACHE home) (launcher_path instance)]
              else cmd in
            let cmd := cmd ++ unkown in
            match run_raises cmd env with
            | Some e => raise e
            | None => ret (Some (mkLaunch cmd env (delete "SDL_AUDIODRIVER" env)))
            end
        end
    end.

(** [launch(args, unkown)] with [args.version] and [args.launcher],
    started with the environment [env] *)
Definition launch (args_version : string) (args_launcher : bool)
                  (unkown : list string) (env : Environ)
  : State Text -> Ended Launch * State Text :=
  fun s =>
    match assure_state home Text encode
            (launch_body args_version args_launcher unkown env) s with
    | (Ret (Some l), s') => (Normally (Ret l), s')
    | (Ret None, s') => (NameError, s')
    | (Exit code, s') => (Normally (Exit code), s')
    | (Raise e, s') => (Normally (Raise e), s')
    end.

End Remote.

Arguments print_lines {Text} lines s.

(** ** More vocabulary *)

(** two instances of [v] stand next to each other in the registry *)
Fixpoint has_adjacent (v : Version) (registry : Registry) : bool :=
  match registry with
  | [] => false
  | inst :: rest =>
      match rest with
      | [] => false
      | next :: _ =>
          (SemanticVersion.eqb (version inst) v && SemanticVersion.eqb (version next) v)
          || has_adjacent v rest
      end
  end.

(** A call that changes no entry of the cache root but those of the
    given names, however it ends. *)
Definition touches {Text A : Type} (names : list string) (m : M Text A) : Prop :=
  forall s o s',
    m s = (o, s') ->
    forall other, ~ In other names ->
      lookup other (entries_of (cache s')) = lookup other (entries_of (cache s)).

(** no release of the list stands before a higher one *)
Fixpoint descending (releases : list RenpyRelease) : Prop :=
  match releases with
  | [] => True
  | a :: rest => Forall (fun b => release_lt a b = false) rest /\ descending rest
  end.

(** A three-way comparison that orders its type in layers: swapping the
    arguments swaps the answer, equal elements compare alike with every
    other, and below is transitive. *)
Definition weak_order {A : Type} (cmp : A -> A -> comparison) : Prop :=
  (forall a b, cmp b a = CompOpp (cmp a b))
  /\ (forall a b c, cmp a b = Eq -> cmp a c = cmp b c)
  /\ (forall a b c, cmp a b = Lt -> cmp b c = Lt -> cmp a c = Lt).

(** the release that [get_available_versions] makes of a link whose
    group 1 is [g] *)
Definition release_of (g : string) (r : RenpyRelease) : Prop :=
  SemanticVersion.parse g = Some (release_version r)
  /\ url r = ("https://www.renpy.org/dl/" ++ g ++ "/renpy-" ++ g ++ "-sdk.zip")%string.

(** [s] is a word of the language of [r] *)
Inductive matches : Re.regex -> string -> Prop :=
| matches_eps : matches Re.Eps ""
| matches_class (p : ascii -> bool) (c : ascii) :
    p c = true -> matches (Re.Class p) (String c "")
| matches_seq (r s : Re.regex) (a b : string) :
    matches r a -> matches s b -> matches (Re.Seq r s) (a ++ b)
| matches_alt_l (r s : Re.regex) (a : string) :
    matches r a -> matches (Re.Alt r s) a
| matches_alt_r (r s : Re.regex) (a : string) :
    matches s a -> matches (Re.Alt r s) a
| matches_star_nil (r : Re.regex) : matches (Re.Star r) ""
| matches_star_cons (r : Re.regex) (a b : string) :
    matches r a -> matches (Re.Star r) b -> matches (Re.Star r) (a ++ b).

(** a character that a word of [r] may hold *)
Fixpoint allowed (r : Re.regex) (c : ascii) : bool :=
  match r with
  | Re.Void => false
  | Re.Eps => false
  | Re.Class p => p c
  | Re.Seq r s => allowed r c || allowed s c
  | Re.Alt r s => allowed r c || allowed s c
  | Re.Star r => allowed r c
  end.

(** no character of [s] is [c] *)
Definition lacks (c : ascii) (s : string) : bool :=
  Str.forallb (fun a => negb (Ascii.eqb a c)) s.

(** a string of ASCII characters *)
Definition ascii_only (s : string) : bool :=
  Str.forallb (fun c => (nat_of_ascii c <? 128)%nat) s.

(** a name that [join(CACHE, name)] makes the path of one entry of the
    cache root other than [index.json]: not empty, no dot path, no
    slash *)
Definition entry_name (name : string) : Prop :=
  name <> "" /\ name <> "." /\ name <> ".." /\ name <> "index.json"
  /\ lacks "/" name = true.

(** one identifier that [_validate_identifiers] lets pass *)
Definition valid_identifier (allow_leading_zeroes : bool) (item : string) : bool :=
  negb (String.eqb item "")
  && Str.forallb (fun c => Re.is_alnum_hyphen c) item
  && (allow_leading_zeroes || negb (SemanticVersion.has_leading_zero item)).

(** ** More of the small concrete world *)

Module Demo.

(** the texts of the links of a download page *)
Definition links : list string := ["../"; "6.99.14.3/"; "7.3.2/"; "7.3.5/"; "7.3.5/"; "dev/"].

Definition linux : Uname := mkUname "Linux" "x86_64".
Definition raspberry : Uname := mkUname "Linux" "aarch64".
Definition mac : Uname := mkUname "Darwin" "x86_64".

(** a file system in which no path is a directory or a file *)
Definition nothing (path : string) : bool := false.

Definition run_returns (cmd : list string) (env : Environ) : option Exn := None.

Definition user_environ : Environ :=
  [("SDL_AUDIODRIVER", "pulse"); ("LD_LIBRARY_PATH", "/opt/lib")].

End Demo.

(** * Properties *)

(** ** The patterns and the version type on examples *)

Example semver_plain : Semver.semver_match "7.3.5" = Some "7.3.5".
Proof. reflexivity. Qed.

Example semver_link : Semver.semver_match "7.3.5/" = Some "7.3.5".
Proof. reflexivity. Qed.

Example semver_pre : Semver.semver_match "1.0.0-alpha.1+build.5" = Some "1.0.0-alpha.1+build.5".
Proof. vm_compute. reflexivity. Qed.

Example semver_reject : Semver.semver_match "lib" = None /\ Semver.semver_match "01.2.3" = None
  /\ Semver.semver_match "6.99.14.3" = None.
Proof. vm_compute. auto. Qed.

Example version_parse : SemanticVersion.parse "1.0.0-alpha.1+build.5"
  = Some (mkVersion 1 0 0 ["alpha"; "1"] ["build"; "5"]).
Proof. vm_compute. reflexivity. Qed.

Example version_str : SemanticVersion.to_string (mkVersion 7 3 5 ["rc"; "1"] []) = "7.3.5-rc.1".
Proof. vm_compute. reflexivity. Qed.

Example get_members_wrapper :
  member_names (get_members (zip_of_names ["SDKv1/a.txt"; "SDKv1/sub/b.txt"]))
  = Some ["a.txt"; "sub/b.txt"].
Proof. vm_compute. reflexivity. Qed.

Example get_members_flat :
  member_names (get_members (zip_of_names ["a.txt"; "b.txt"])) = Some ["a.txt"; "b.txt"].
Proof. vm_compute. reflexivity. Qed.

Example get_members_outside :
  member_names (get_members (zip_of_names ["SDKv1/a.txt"; "licenses/"]))
  = Some ["a.txt"; "es/"].
Proof. vm_compute. reflexivity. Qed.

Example semver_final_newline :
  Semver.semver_match (String.append "1.0.0" nl) = Some "1.0.0".
Proof. vm_compute. reflexivity. Qed.

(** ** Version equality *)

Lemma Version_eqb_eq (v w : Version) : SemanticVersion.eqb v w = true <-> v = w.
Proof.
  unfold SemanticVersion.eqb. destruct v as [a b c p q], w as [a' b' c' p' q']; simpl.
  split.
  - intros H.
    repeat (apply andb_prop in H; destruct H as [H ?]).
    apply N.eqb_eq in H.
    repeat match goal with
           | E : N.eqb _ _ = true |- _ => apply N.eqb_eq in E
           | E : (if ?d then true else false) = true |- _ => destruct d; [ | discriminate ]
           end.
    congruence.
  - intros H. inversion H; subst.
    rewrite !N.eqb_refl.
    destruct (list_eq_dec string_dec p' p'); [ | congruence ].
    destruct (list_eq_dec string_dec q' q'); [ | congruence ].
    reflexivity.
Qed.

Lemma Version_eqb_refl (v : Version) : SemanticVersion.eqb v v = true.
Proof. apply Version_eqb_eq. reflexivity. Qed.

Lemma installed_loop_In (r : Registry) (v : Version) :
  installed_loop r v = true <-> In v (map version r).
Proof.
  induction r as [ | i r IH]; simpl.
  - split; [ discriminate | tauto ].
  - destruct (SemanticVersion.eqb (version i) v) eqn:E.
    + apply Version_eqb_eq in E. tauto.
    + rewrite IH. split; [ tauto | ].
      intros [H | H]; [ | exact H ].
      apply Version_eqb_eq in H. congruence.
Qed.

Lemma installed_loop_not_In (r : Registry) (v : Version) :
  installed_loop r v = false <-> ~ In v (map version r).
Proof.
  rewrite <- installed_loop_In. destruct (installed_loop r v); split; congruence.
Qed.

Lemma get_instance_loop_found (r : Registry) (v : Version) :
  installed_loop r v = true ->
  exists inst, get_instance_loop r v = Some inst /\ version inst = v /\ In inst r.
Proof.
  induction r as [ | i r IH]; simpl; [ discriminate | ].
  destruct (SemanticVersion.eqb (version i) v) eqn:E.
  - intros _. exists i. apply Version_eqb_eq in E. auto.
  - intros H. destruct (IH H) as (inst & ? & ? & ?). exists inst. auto.
Qed.

(** ** The order of Python on lists of strings *)

Lemma ascii_compare_lt_trans (x y z : ascii) :
  Ascii.compare x y = Lt -> Ascii.compare y z = Lt -> Ascii.compare x z = Lt.
Proof. unfold Ascii.compare. rewrite !N.compare_lt_iff. lia. Qed.

Lemma ascii_compare_refl (x : ascii) : Ascii.compare x x = Eq.
Proof. unfold Ascii.compare. apply N.compare_refl. Qed.

Lemma string_compare_lt_trans (a b c : string) :
  String.compare a b = Lt -> String.compare b c = Lt -> String.compare a c = Lt.
Proof.
  revert b c. induction a as [ | x a IH]; intros [ | y b] [ | z c]; simpl;
    try discriminate; auto.
  destruct (Ascii.compare x y) eqn:Exy; try discriminate;
    destruct (Ascii.compare y z) eqn:Eyz; try discriminate; intros Hab Hbc.
  - apply Ascii.compare_eq_iff in Exy, Eyz. subst.
    rewrite ascii_compare_refl. eauto.
  - apply Ascii.compare_eq_iff in Exy. subst. rewrite Eyz. reflexivity.
  - apply Ascii.compare_eq_iff in Eyz. subst. rewrite Exy. reflexivity.
  - rewrite (ascii_compare_lt_trans x y z) by assumption. reflexivity.
Qed.

Lemma string_ltb_trans (a b c : string) :
  String.ltb a b = true -> String.ltb b c = true -> String.ltb a c = true.
Proof.
  unfold String.ltb.
  destruct (String.compare a b) eqn:E1; try discriminate.
  destruct (String.compare b c) eqn:E2; try discriminate.
  rewrite (string_compare_lt_trans a b c) by assumption. reflexivity.
Qed.

Lemma string_ltb_asym (a b : string) :
  String.ltb a b = true -> String.ltb b a = false.
Proof.
  unfold String.ltb. rewrite (String.compare_antisym a b).
  destruct (String.compare b a); simpl; auto; discriminate.
Qed.

Lemma string_ltb_irrefl (a : string) : String.ltb a a = false.
Proof.
  destruct (String.ltb a a) eqn:E; [ | reflexivity ].
  rewrite (string_ltb_asym a a E) in E. discriminate.
Qed.

Lemma string_ltb_connex (a b : string) :
  String.ltb a b = false -> String.ltb b a = false -> a = b.
Proof.
  unfold String.ltb. rewrite (String.compare_antisym a b).
  destruct (String.compare b a) eqn:E; simpl; try discriminate.
  intros _ _. symmetry. apply String.compare_eq_iff. exact E.
Qed.

Lemma list_ltb_irrefl (a : list string) : list_ltb a a = false.
Proof.
  induction a as [ | x a IH]; simpl; [ reflexivity | ].
  rewrite String.eqb_refl. exact IH.
Qed.

Lemma list_ltb_trans (a b c : list string) :
  list_ltb a b = true -> list_ltb b c = true -> list_ltb a c = true.
Proof.
  revert b c. induction a as [ | x a IH]; intros [ | y b] [ | z c]; simpl;
    try discriminate; auto.
  destruct (String.eqb_spec x y) as [-> | Hxy];
    destruct (String.eqb_spec y z) as [-> | Hyz]; intros Hab Hbc.
  - eauto.
  - exact Hbc.
  - destruct (String.eqb_spec x z); [ contradiction | exact Hab ].
  - destruct (String.eqb_spec x z) as [-> | Hxz].
    + rewrite (string_ltb_asym _ _ Hab) in Hbc. discriminate.
    + exact (string_ltb_trans _ _ _ Hab Hbc).
Qed.

Lemma list_ltb_connex (a b : list string) :
  list_ltb a b = false -> list_ltb b a = false -> a = b.
Proof.
  revert b. induction a as [ | x a IH]; intros [ | y b]; simpl; try discriminate; auto.
  rewrite (String.eqb_sym y x).
  destruct (String.eqb_spec x y) as [-> | Hxy]; intros Hab Hba.
  - f_equal. auto.
  - elim Hxy. apply string_ltb_connex; assumption.
Qed.

Lemma list_ltb_asym (a b : list string) :
  list_ltb a b = true -> list_ltb b a = false.
Proof.
  intros H. destruct (list_ltb b a) eqn:E; [ | reflexivity ].
  rewrite <- (list_ltb_irrefl a). symmetry. exact (list_ltb_trans _ _ _ H E).
Qed.

(** [a < b] and [not (c < b)] give [a < c] *)
Lemma list_ltb_le_trans (a b c : list string) :
  list_ltb a b = true -> list_ltb c b = false -> list_ltb a c = true.
Proof.
  intros Hab Hcb. destruct (list_ltb b c) eqn:Hbc.
  - exact (list_ltb_trans _ _ _ Hab Hbc).
  - rewrite <- (list_ltb_connex b c Hbc Hcb). exact Hab.
Qed.

(** [not (b < a)] and [b < c] give [a < c] *)
Lemma list_le_ltb_trans (a b c : list string) :
  list_ltb b a = false -> list_ltb b c = true -> list_ltb a c = true.
Proof.
  intros Hba Hbc. destruct (list_ltb a b) eqn:Hab.
  - exact (list_ltb_trans _ _ _ Hab Hbc).
  - rewrite (list_ltb_connex a b Hab Hba). exact Hbc.
Qed.

(** [min(m)] is an element of [m] that no element is below. *)
Lemma py_min_least (rest : list (list string)) :
  forall first,
    In (py_min first rest) (first :: rest)
    /\ forall x, In x (first :: rest) -> list_ltb x (py_min first rest) = false.
Proof.
  unfold py_min.
  induction rest as [ | y rest IH]; intros first; simpl.
  - split; [ auto | ]. intros x [<- | []]. apply list_ltb_irrefl.
  - destruct (IH (if list_ltb y first then y else first)) as [Hin Hleast].
    set (cur := if list_ltb y first then y else first) in *.
    assert (Hfirst : list_ltb first cur = false).
    { unfold cur. destruct (list_ltb y first) eqn:E.
      - apply list_ltb_asym. exact E.
      - apply list_ltb_irrefl. }
    assert (Hy : list_ltb y cur = false).
    { unfold cur. destruct (list_ltb y first) eqn:E.
      - apply list_ltb_irrefl.
      - exact E. }
    split.
    + destruct Hin as [Hin | Hin]; [ | auto ].
      rewrite <- Hin. unfold cur. destruct (list_ltb y first); auto.
    + set (least := fold_left _ rest cur) in *.
      assert (Hcur : list_ltb cur least = false) by (apply Hleast; left; reflexivity).
      intros x [<- | [<- | Hx]].
      * destruct (list_ltb first least) eqn:E; [ | reflexivity ].
        rewrite (list_ltb_le_trans _ _ _ E Hcur) in Hfirst. discriminate.
      * destruct (list_ltb y least) eqn:E; [ | reflexivity ].
        rewrite (list_ltb_le_trans _ _ _ E Hcur) in Hy. discriminate.
      * apply Hleast. right. exact Hx.
Qed.

(** [max(m)] is an element of [m] that is below no element. *)
Lemma py_max_greatest (rest : list (list string)) :
  forall first,
    In (py_max first rest) (first :: rest)
    /\ forall x, In x (first :: rest) -> list_ltb (py_max first rest) x = false.
Proof.
  unfold py_max.
  induction rest as [ | y rest IH]; intros first; simpl.
  - split; [ auto | ]. intros x [<- | []]. apply list_ltb_irrefl.
  - destruct (IH (if list_ltb first y then y else first)) as [Hin Hgreatest].
    set (cur := if list_ltb first y then y else first) in *.
    assert (Hfirst : list_ltb cur first = false).
    { unfold cur. destruct (list_ltb first y) eqn:E.
      - apply list_ltb_asym. exact E.
      - apply list_ltb_irrefl. }
    assert (Hy : list_ltb cur y = false).
    { unfold cur. destruct (list_ltb first y) eqn:E.
      - apply list_ltb_irrefl.
      - exact E. }
    split.
    + destruct Hin as [Hin | Hin]; [ | auto ].
      rewrite <- Hin. unfold cur. destruct (list_ltb first y); auto.
    + set (greatest := fold_left _ rest cur) in *.
      assert (Hcur : list_ltb greatest cur = false)
        by (apply Hgreatest; left; reflexivity).
      intros x [<- | [<- | Hx]].
      * destruct (list_ltb greatest first) eqn:E; [ | reflexivity ].
        rewrite (list_le_ltb_trans _ _ _ Hcur E) in Hfirst. discriminate.
      * destruct (list_ltb greatest y) eqn:E; [ | reflexivity ].
        rewrite (list_le_ltb_trans _ _ _ Hcur E) in Hy. discriminate.
      * apply Hgreatest. right. exact Hx.
Qed.

(** ** [commonprefix] computes the longest common prefix *)

Lemma is_prefix_nil (A : Type) (q : list A) : is_prefix [] q.
Proof. exists q. reflexivity. Qed.

Lemma is_prefix_cons (A : Type) (x y : A) (p q : list A) :
  is_prefix (x :: p) (y :: q) <-> x = y /\ is_prefix p q.
Proof.
  unfold is_prefix. split.
  - intros [r H]. inversion H; subst. split; [ reflexivity | exists r; reflexivity ].
  - intros [-> [r ->]]. exists r. reflexivity.
Qed.

Lemma is_prefix_of_nil (A : Type) (p : list A) : is_prefix p [] -> p = [].
Proof. intros [r H]. destruct p; [ reflexivity | discriminate ]. Qed.

Lemma is_prefix_antisym (A : Type) (p q : list A) :
  is_prefix p q -> is_prefix q p -> p = q.
Proof.
  revert q. induction p as [ | x p IH]; intros q Hpq Hqp.
  - symmetry. apply is_prefix_of_nil. exact Hqp.
  - destruct q as [ | y q]; [ apply is_prefix_of_nil in Hpq; discriminate | ].
    apply is_prefix_cons in Hpq, Hqp. destruct Hpq as [-> Hpq], Hqp as [_ Hqp].
    f_equal. auto.
Qed.

Lemma common2_prefix_l (a b : list string) : is_prefix (common2 a b) a.
Proof.
  revert b. induction a as [ | x a IH]; intros [ | y b]; simpl;
    try apply is_prefix_nil.
  destruct (String.eqb x y); [ | apply is_prefix_nil ].
  apply is_prefix_cons. auto.
Qed.

Lemma common2_prefix_r (a b : list string) : is_prefix (common2 a b) b.
Proof.
  revert b. induction a as [ | x a IH]; intros [ | y b]; simpl;
    try apply is_prefix_nil.
  destruct (String.eqb_spec x y) as [-> | ]; [ | apply is_prefix_nil ].
  apply is_prefix_cons. auto.
Qed.

Lemma common2_longest (p a b : list string) :
  is_prefix p a -> is_prefix p b -> is_prefix p (common2 a b).
Proof.
  revert a b. induction p as [ | z p IH]; intros a b Ha Hb; [ apply is_prefix_nil | ].
  destruct a as [ | x a]; [ apply is_prefix_of_nil in Ha; discriminate | ].
  destruct b as [ | y b]; [ apply is_prefix_of_nil in Hb; discriminate | ].
  apply is_prefix_cons in Ha, Hb. destruct Ha as [<- Ha], Hb as [<- Hb].
  simpl. rewrite String.eqb_refl. apply is_prefix_cons. auto.
Qed.

(** The loop of [commonprefix] does not raise when its second list is
    not below the first, and yields their common leading part. *)
Lemma common_loop_common2 (s1 s2 : list string) :
  list_ltb s2 s1 = false -> common_loop s1 s2 = Some (common2 s1 s2).
Proof.
  revert s2. induction s1 as [ | c s1 IH]; intros [ | d s2]; simpl;
    try reflexivity; try discriminate.
  rewrite (String.eqb_sym d c).
  destruct (String.eqb c d); [ | reflexivity ].
  intros H. rewrite (IH _ H). reflexivity.
Qed.

(** What begins the least and the greatest list begins every list
    between them. *)
Lemma prefix_between (p lo hi x : list string) :
  is_prefix p lo -> is_prefix p hi ->
  list_ltb x lo = false -> list_ltb hi x = false ->
  is_prefix p x.
Proof.
  revert lo hi x. induction p as [ | c p IH]; intros lo hi x Hlo Hhi Hx1 Hx2;
    [ apply is_prefix_nil | ].
  destruct lo as [ | l lo]; [ apply is_prefix_of_nil in Hlo; discriminate | ].
  destruct hi as [ | h hi]; [ apply is_prefix_of_nil in Hhi; discriminate | ].
  apply is_prefix_cons in Hlo, Hhi. destruct Hlo as [<- Hlo], Hhi as [<- Hhi].
  destruct x as [ | d x]; simpl in Hx1, Hx2; [ discriminate | ].
  rewrite (String.eqb_sym d c) in Hx1.
  destruct (String.eqb_spec c d) as [<- | Hne].
  - apply is_prefix_cons. split; [ reflexivity | ]. eauto.
  - elim Hne. apply string_ltb_connex; assumption.
Qed.

Lemma commonprefix_longest (first : list string) (rest : list (list string)) :
  exists pfx,
    commonprefix (first :: rest) = Some pfx
    /\ longest_common_prefix pfx (first :: rest).
Proof.
  destruct (py_min_least rest first) as [Hmin_in Hmin].
  destruct (py_max_greatest rest first) as [Hmax_in Hmax].
  exists (common2 (py_min first rest) (py_max first rest)).
  split; [ | split ].
  - simpl. apply common_loop_common2. apply Hmin. exact Hmax_in.
  - apply Forall_forall. intros x Hx.
    apply (prefix_between _ (py_min first rest) (py_max first rest));
      auto using common2_prefix_l, common2_prefix_r.
  - intros p' Hp'. rewrite Forall_forall in Hp'.
    apply common2_longest; auto.
Qed.

Lemma longest_common_prefix_unique (p q : list string) (m : list (list string)) :
  longest_common_prefix p m -> longest_common_prefix q m -> p = q.
Proof.
  intros [Hp Hp'] [Hq Hq']. apply is_prefix_antisym; auto.
Qed.

Lemma is_prefix_trans (A : Type) (p q r : list A) :
  is_prefix p q -> is_prefix q r -> is_prefix p r.
Proof. intros [a ->] [b ->]. exists (a ++ b). symmetry. apply app_assoc. Qed.

(** The fold of the specification's wording computes it too. *)
Lemma common_all_longest (first : list string) (rest : list (list string)) :
  longest_common_prefix (common_all (first :: rest)) (first :: rest).
Proof.
  simpl. revert first. induction rest as [ | y rest IH]; intros first; simpl.
  - split.
    + constructor; [ exists []; symmetry; apply app_nil_r | constructor ].
    + intros p' Hp'. inversion Hp'; assumption.
  - destruct (IH (common2 first y)) as [Hall Hlongest]. split.
    + inversion Hall as [ | ? ? Hc Hrest]; subst.
      constructor; [ | constructor ]; auto.
      * exact (is_prefix_trans _ _ _ _ Hc (common2_prefix_l first y)).
      * exact (is_prefix_trans _ _ _ _ Hc (common2_prefix_r first y)).
    + intros p' Hp'. inversion Hp' as [ | ? ? Hf Hp'']; subst.
      inversion Hp'' as [ | ? ? Hy Hr]; subst.
      apply Hlongest. constructor; [ | exact Hr ].
      apply common2_longest; assumption.
Qed.

Lemma commonprefix_common_all (m : list (list string)) :
  commonprefix m = Some (common_all m).
Proof.
  destruct m as [ | first rest]; [ reflexivity | ].
  destruct (commonprefix_longest first rest) as (pfx & Hc & Hl).
  rewrite Hc. f_equal.
  exact (longest_common_prefix_unique _ _ _ Hl (common_all_longest first rest)).
Qed.

(** ** Paths and their components *)

Lemma append_assoc (a b c : string) : ((a ++ b) ++ c = a ++ (b ++ c))%string.
Proof. induction a as [ | x a IH]; simpl; congruence. Qed.

Lemma drop_append (p r : string) : Str.drop (String.length p) (p ++ r) = r.
Proof. induction p as [ | x p IH]; simpl; [ destruct r; reflexivity | exact IH ]. Qed.

Lemma prefix_append (p r : string) : prefix p (p ++ r) = true.
Proof.
  induction p as [ | x p IH]; simpl; [ destruct r; reflexivity | ].
  destruct (ascii_dec x x); [ exact IH | congruence ].
Qed.

Lemma prefix_drop (p s : string) :
  prefix p s = true -> s = (p ++ Str.drop (String.length p) s)%string.
Proof.
  revert s. induction p as [ | x p IH]; intros s; simpl.
  - destruct s; reflexivity.
  - destruct s as [ | y s]; simpl; [ discriminate | ].
    destruct (ascii_dec x y) as [-> | ]; [ | discriminate ].
    intros H. f_equal. auto.
Qed.

Lemma split_not_nil (c : ascii) (s : string) : Str.split c s <> [].
Proof.
  destruct s as [ | a s]; simpl; [ discriminate | ].
  destruct (Ascii.eqb a c); [ discriminate | ].
  destruct (Str.split c s); discriminate.
Qed.

Lemma join_cons (sep p : string) (rest : list string) :
  rest <> [] -> Str.join sep (p :: rest) = (p ++ sep ++ Str.join sep rest)%string.
Proof. destruct rest; [ congruence | reflexivity ]. Qed.

(** [sep.join(s.split(sep)) == s] *)
Lemma join_split (c : ascii) (s : string) :
  Str.join (String c "") (Str.split c s) = s.
Proof.
  induction s as [ | a s IH]; [ reflexivity | ].
  cbn [Str.split].
  destruct (Ascii.eqb_spec a c) as [-> | Hne].
  - rewrite join_cons by apply split_not_nil. rewrite IH. reflexivity.
  - destruct (Str.split c s) as [ | w ws] eqn:E; [ elim (split_not_nil c s E) | ].
    destruct ws as [ | w' ws].
    + simpl in *. congruence.
    + rewrite join_cons in * by discriminate. rewrite <- IH. reflexivity.
Qed.

Lemma join_app (sep : string) (p q : list string) :
  p <> [] -> q <> [] ->
  Str.join sep (p ++ q) = (Str.join sep p ++ sep ++ Str.join sep q)%string.
Proof.
  intros Hp Hq. induction p as [ | x p IH]; [ congruence | ].
  destruct p as [ | y p].
  - simpl app. rewrite join_cons by exact Hq. reflexivity.
  - rewrite <- app_comm_cons. rewrite join_cons by discriminate.
    rewrite IH by discriminate.
    rewrite (join_cons sep x (y :: p)) by discriminate.
    rewrite !append_assoc. reflexivity.
Qed.

(** A path whose folders begin with [pfx] begins with the text of
    [pfx]. *)
Lemma prefix_text_begins (pfx : list string) (name : string) :
  is_prefix pfx (dir_parts name) ->
  name = (prefix_text pfx ++ Str.drop (String.length (prefix_text pfx)) name)%string.
Proof.
  intros [r Hr]. apply prefix_drop.
  destruct pfx as [ | x pfx]; [ destruct name; reflexivity | ].
  unfold dir_parts in Hr.
  pose proof (app_removelast_last "" (split_not_nil "/" name)) as Hsplit.
  rewrite Hr in Hsplit.
  rewrite <- (join_split "/" name). rewrite Hsplit.
  rewrite <- app_assoc.
  rewrite join_app; [ | discriminate | destruct r; discriminate ].
  unfold prefix_text. rewrite <- append_assoc. apply prefix_append.
Qed.

Lemma prefix_offset_text (pfx : list string) :
  prefix_offset pfx = String.length (prefix_text pfx).
Proof. destruct pfx; reflexivity. Qed.

(** ** [get_members] *)

Lemma member_parts_In (names : list string) (name : string) :
  In name names -> Str.endswith name "/" = false ->
  In (dir_parts name) (member_parts names).
Proof.
  intros Hin Hfile. unfold member_parts. apply in_map. apply filter_In.
  rewrite Hfile. auto.
Qed.

Lemma member_names_cut (offset : nat) (zs : list ZipInfo) :
  map filename
      (map (fun z => mkZipInfo (Str.drop offset (filename z)) (payload z))
           (filter (fun z => (offset <? String.length (filename z))%nat) zs))
  = map (Str.drop offset)
        (filter (fun name => (offset <? String.length name)%nat) (map filename zs)).
Proof.
  induction zs as [ | z zs IH]; simpl; [ reflexivity | ].
  destruct (offset <? String.length (filename z))%nat; simpl; congruence.
Qed.

Lemma cut_is_strip (p : string) (names : list string) :
  (forall name, In name names -> String.length p < String.length name ->
                prefix p name = true) ->
  map (Str.drop (String.length p))
      (filter (fun name => (String.length p <? String.length name)%nat) names)
  = map (strip_prefix p)
        (filter (fun name => (String.length p <? String.length name)%nat) names).
Proof.
  induction names as [ | name rest IH]; simpl; intros Hbegin; [ reflexivity | ].
  destruct (String.length p <? String.length name)%nat eqn:E; simpl.
  - f_equal; [ | auto ].
    unfold strip_prefix. rewrite Hbegin; [ reflexivity | left; reflexivity | ].
    apply Nat.ltb_lt. exact E.
  - auto.
Qed.

Lemma map_drop_0 (names : list string) : map (Str.drop 0) names = names.
Proof.
  induction names as [ | name rest IH]; [ reflexivity | ].
  cbn [map]. rewrite IH. reflexivity.
Qed.

(** What [get_members] does on every archive.  It never raises.  The
    prefix it measures is the longest common prefix of the folder
    components of the non-directory entries (empty when there is no
    such entry).  It yields the entries that are longer than the text
    of the prefix, each without its first characters, as many as that
    text has.  For every entry whose folders begin with the prefix, and
    so for every non-directory entry, what is cut is that text itself;
    so on an archive whose longer entries all begin with it the result
    is the one the specification words, and with an empty prefix every
    non-empty path is yielded as it is. *)
Lemma get_members_cuts_common_prefix (zs : list ZipInfo) :
  let names := map filename zs in
  let pfx := common_all (member_parts names) in
  let offset := String.length (prefix_text pfx) in
  (member_parts names <> [] -> longest_common_prefix pfx (member_parts names))
  /\ get_members zs
     = Ret (map (fun z => mkZipInfo (Str.drop offset (filename z)) (payload z))
                (filter (fun z => (offset <? String.length (filename z))%nat) zs))
  /\ (forall name,
        In name names ->
        Str.endswith name "/" = false \/ is_prefix pfx (dir_parts name) ->
        name = (prefix_text pfx ++ Str.drop offset name)%string)
  /\ ((forall name,
         In name names -> offset < String.length name ->
         prefix (prefix_text pfx) name = true) ->
      member_names (get_members zs) = Some (spec_members names))
  /\ (pfx = [] ->
      member_names (get_members zs)
      = Some (filter (fun name => (0 <? String.length name)%nat) names)).
Proof.
  intros names pfx offset.
  assert (Hlongest : member_parts names <> [] ->
                     longest_common_prefix pfx (member_parts names)).
  { unfold pfx. destruct (member_parts names) as [ | first rest]; [ congruence | ].
    intros _. apply common_all_longest. }
  assert (Hget : get_members zs
     = Ret (map (fun z => mkZipInfo (Str.drop offset (filename z)) (payload z))
                (filter (fun z => (offset <? String.length (filename z))%nat) zs))).
  { unfold get_members. fold names. rewrite commonprefix_common_all. fold pfx.
    rewrite prefix_offset_text. reflexivity. }
  assert (Hnames : member_names (get_members zs)
     = Some (map (Str.drop offset)
                 (filter (fun name => (offset <? String.length name)%nat) names))).
  { rewrite Hget. unfold member_names, names. f_equal. apply member_names_cut. }
  split; [ exact Hlongest | ]. split; [ exact Hget | ]. split; [ | split ].
  - intros name Hin Hunder. apply prefix_text_begins.
    destruct Hunder as [Hfile | Hunder]; [ | exact Hunder ].
    pose proof (member_parts_In names name Hin Hfile) as Hpart.
    assert (Hne : member_parts names <> []) by (intros E; rewrite E in Hpart; destruct Hpart).
    destruct (Hlongest Hne) as [Hall _]. rewrite Forall_forall in Hall. auto.
  - intros Hbegin. rewrite Hnames. f_equal. unfold spec_members.
    fold pfx. apply cut_is_strip. exact Hbegin.
  - intros Hnil. rewrite Hnames. unfold offset. rewrite Hnil. simpl. f_equal.
    apply map_drop_0.
Qed.

(** C8. The prefix is not stripped from every entry's path: it is
    measured on the non-directory entries only, and its length is cut
    from every entry.  In an archive with the file [SDKv1/a.txt] and
    the directory entry [licenses/] the prefix is [SDKv1/]; the
    directory entry does not begin with it and loses six characters
    all the same, where stripping the prefix would leave it as it
    is. *)
Theorem get_members_outside_the_prefix :
  let names := ["SDKv1/a.txt"; "licenses/"] in
  member_names (get_members (zip_of_names names)) = Some ["a.txt"; "es/"]
  /\ spec_members names = ["a.txt"; "licenses/"]
  /\ member_names (get_members (zip_of_names names)) <> Some (spec_members names).
Proof.
  cbv zeta.
  assert (H1 : member_names (get_members (zip_of_names ["SDKv1/a.txt"; "licenses/"]))
               = Some ["a.txt"; "es/"]) by (vm_compute; reflexivity).
  assert (H2 : spec_members ["SDKv1/a.txt"; "licenses/"] = ["a.txt"; "licenses/"])
    by (vm_compute; reflexivity).
  split; [ exact H1 | ]. split; [ exact H2 | ].
  rewrite H1, H2. intros H. inversion H.
Qed.

(** ** [Version] reads back from its text *)

Lemma partition_append (c : ascii) (s l : string) (r : option string) :
  Str.partition c s = (l, r) ->
  s = (l ++ match r with Some r' => String c r' | None => "" end)%string.
Proof.
  revert l r. induction s as [ | a s IH]; simpl; intros l r H.
  - inversion H. reflexivity.
  - destruct (Ascii.eqb_spec a c) as [-> | Hne].
    + inversion H. reflexivity.
    + destruct (Str.partition c s) as [l' r'] eqn:E. inversion H; subst.
      simpl. f_equal. apply IH. reflexivity.
Qed.

Lemma append_nil_r (s : string) : (s ++ "")%string = s.
Proof. induction s; simpl; congruence. Qed.

(** [str(int(s)) == s] for digits without a leading zero *)
Lemma digits_of_int_of_digits (s : string) (n : N) :
  SemanticVersion.int_of_digits s = Some n ->
  SemanticVersion.has_leading_zero s = false ->
  SemanticVersion.digits_of_int n = s.
Proof.
  unfold SemanticVersion.int_of_digits, SemanticVersion.digits_of_int.
  destruct (SemanticVersion.all_digits s) eqn:Hall; [ | discriminate ].
  destruct (NilEmpty.uint_of_string s) as [d | ] eqn:Hd; [ | discriminate ].
  simpl. intros H Hzero. inversion H; subst n. clear H.
  rewrite DecimalN.Unsigned.to_of.
  enough (Hnorm : Decimal.unorm d = d) by (rewrite Hnorm; apply NilEmpty.sus; exact Hd).
  destruct s as [ | c s']; [ discriminate Hall | ].
  simpl in Hd. destruct (NilEmpty.uint_of_string s') as [d' | ] eqn:Hd';
    [ | discriminate Hd ].
  apply uint_of_char_spec in Hd.
  destruct Hd as [[-> ->] | Hd].
  - destruct s' as [ | c' s''].
    + simpl in Hd'. inversion Hd'. reflexivity.
    + simpl in Hzero. rewrite Hzero in Hall. discriminate.
  - repeat (destruct Hd as [[-> ->] | Hd]; [ reflexivity | ]).
    destruct Hd as [-> ->]. reflexivity.
Qed.

Lemma join_identifiers (mark : ascii) (p : string) :
  match Str.split "." p with
  | [] => ""%string
  | id :: ids => (String mark "" ++ Str.join "." (id :: ids))%string
  end = String mark p.
Proof.
  pose proof (join_split "." p) as H.
  destruct (Str.split "." p) eqn:E; [ elim (split_not_nil _ _ E) | ].
  simpl. rewrite <- H. reflexivity.
Qed.

(** A version string that does not end in a newline is the text of the
    version it parses to: on such strings [Version] is injective. *)
Lemma parse_to_string (s : string) (v : Version) :
  Str.chop nl s = None ->
  SemanticVersion.parse s = Some v ->
  SemanticVersion.to_string v = s.
Proof.
  intros Hchop. unfold SemanticVersion.parse.
  change Semver.newline with nl. rewrite Hchop.
  destruct (Str.partition "+" s) as [front build_part] eqn:Eb.
  destruct (Str.partition "-" front) as [nums pre_part] eqn:Ep.
  apply partition_append in Eb, Ep.
  pose proof (join_split "." nums) as Hnums.
  destruct (Str.split "." nums) as [ | a [ | b [ | c [ | ? ?]]]]; try discriminate.
  destruct (SemanticVersion.has_leading_zero a) eqn:Za; [ discriminate | ].
  destruct (SemanticVersion.has_leading_zero b) eqn:Zb; [ discriminate | ].
  destruct (SemanticVersion.has_leading_zero c) eqn:Zc; [ discriminate | ].
  simpl orb. cbv iota.
  destruct (SemanticVersion.int_of_digits a) as [ma | ] eqn:Ia; [ | discriminate ].
  destruct (SemanticVersion.int_of_digits b) as [mi | ] eqn:Ib; [ | discriminate ].
  destruct (SemanticVersion.int_of_digits c) as [pa | ] eqn:Ic; [ | discriminate ].
  apply digits_of_int_of_digits in Ia, Ib, Ic; try assumption.
  destruct pre_part as [p | ]; destruct build_part as [q | ];
    repeat match goal with
           | |- context [ if ?cond then _ else _ ] => destruct cond
           end;
    try discriminate;
    intros H; inversion H; subst v; clear H;
    unfold SemanticVersion.to_string;
    cbn [major minor patch prerelease build];
    rewrite ?(join_identifiers "-"), ?(join_identifiers "+"), Ia, Ib, Ic;
    rewrite Eb, Ep, <- Hnums;
    cbn [Str.join]; rewrite ?append_assoc, ?append_nil_r; reflexivity.
Qed.

(** ** The scan of plain names keeps versions apart *)

Lemma substring_all (s : string) : substring 0 (String.length s) s = s.
Proof. induction s as [ | a s IH]; simpl; congruence. Qed.

Lemma chop_empty (s : string) : Str.chop "" s = Some s.
Proof.
  unfold Str.chop, Str.endswith. simpl.
  replace (prefix "" _) with true by (destruct (string_of_list_ascii _); reflexivity).
  rewrite Nat.sub_0_r, substring_all. reflexivity.
Qed.

Lemma chop_not_endswith (suf s : string) :
  Str.endswith s suf = false -> Str.chop suf s = None.
Proof. unfold Str.chop. intros ->. reflexivity. Qed.

Lemma prefix_first (c : ascii) (p t : string) :
  prefix (String c p) t = true -> prefix (String c "") t = true.
Proof.
  destruct t as [ | b t]; cbn [prefix]; [ discriminate | ].
  destruct (ascii_dec c b); [ | discriminate ].
  intros _. destruct t; reflexivity.
Qed.

Lemma not_endswith_slash_newline (s : string) :
  Str.endswith s nl = false -> Str.endswith s (String.append "/" nl) = false.
Proof.
  unfold Str.endswith.
  change (string_of_list_ascii (rev (list_ascii_of_string (String.append "/" nl))))
    with (String (ascii_of_nat 10) "/").
  change (string_of_list_ascii (rev (list_ascii_of_string nl)))
    with (String (ascii_of_nat 10) "").
  intros H.
  destruct (prefix (String (ascii_of_nat 10) "/") _) eqn:E; [ | reflexivity ].
  apply prefix_first in E. congruence.
Qed.

(** On a plain name group 1 is the whole name. *)
Lemma semver_match_plain (name g : string) :
  plain_name name -> Semver.semver_match name = Some g -> g = name.
Proof.
  intros [Hslash Hnl]. unfold Semver.semver_match. cbn [fold_right].
  change Semver.newline with nl.
  rewrite chop_empty, (chop_not_endswith "/") by exact Hslash.
  rewrite (chop_not_endswith nl) by exact Hnl.
  rewrite (chop_not_endswith (String.append "/" nl))
    by (apply not_endswith_slash_newline; exact Hnl).
  destruct (Re.fullmatch Semver.core name); intros H; inversion H. reflexivity.
Qed.

Lemma scan_loop_plain (names : list string) :
  (forall name, In name names -> plain_name name) ->
  forall acc instances,
    scan_loop names acc = Ret instances ->
    exists new,
      instances = acc ++ new
      /\ map SemanticVersion.to_string (map version new) = map path new
      /\ map path new = filter matches_semver names.
Proof.
  induction names as [ | folder rest IH]; intros Hplain acc instances; simpl.
  - intros H. inversion H. exists []. rewrite app_nil_r. auto.
  - unfold matches_semver at 1.
    destruct (Semver.semver_match folder) as [g | ] eqn:Hm.
    + assert (Hp : plain_name folder) by (apply Hplain; left; reflexivity).
      rewrite (semver_match_plain folder g Hp Hm) in *.
      destruct (SemanticVersion.parse folder) as [v | ] eqn:Hv; [ | discriminate ].
      intros H. destruct (IH (fun n Hn => Hplain n (or_intror Hn)) _ _ H)
        as (new & -> & Htext & Hpath).
      exists (RenpyInstance_init v folder :: new).
      rewrite <- app_assoc. simpl. split; [ reflexivity | ].
      rewrite Htext, Hpath.
      rewrite (parse_to_string folder v); auto.
      apply chop_not_endswith. apply Hp.
    + intros H. exact (IH (fun n Hn => Hplain n (or_intror Hn)) _ _ H).
Qed.

Lemma NoDup_filter_names (f : string -> bool) (names : list string) :
  NoDup names -> NoDup (filter f names).
Proof.
  induction names as [ | n rest IH]; simpl; intros H; [ constructor | ].
  inversion H as [ | ? ? Hn Hrest]; subst.
  destruct (f n); auto. constructor; auto.
  intros Hin. apply filter_In in Hin. tauto.
Qed.

Lemma NoDup_map_source (A B : Type) (f : A -> B) (l : list A) :
  NoDup (map f l) -> NoDup l.
Proof.
  induction l as [ | a l IH]; simpl; intros H; [ constructor | ].
  inversion H as [ | ? ? Ha Hl]; subst. constructor; auto.
  intros Hin. apply Ha. apply in_map. exact Hin.
Qed.

(** The scan of distinct plain names gives instances with distinct
    versions: two names that parse to one version are one name. *)
Lemma scan_loop_unique (names : list string) (instances : Registry) :
  NoDup names ->
  (forall name, In name names -> plain_name name) ->
  scan_loop names [] = Ret instances ->
  unique_versions instances.
Proof.
  intros Hnodup Hplain Hscan.
  destruct (scan_loop_plain names Hplain [] instances Hscan) as (new & -> & Htext & Hpath).
  simpl. unfold unique_versions.
  apply (NoDup_map_source _ _ SemanticVersion.to_string).
  rewrite Htext, Hpath. apply NoDup_filter_names. exact Hnodup.
Qed.

(** ** The loop of [remove_from_registry] *)

Lemma nth_error_middle (A : Type) (pre : list A) (a : A) (rest : list A) :
  nth_error (pre ++ a :: rest) (List.length pre) = Some a.
Proof. induction pre; simpl; auto. Qed.

Lemma del_at_middle (A : Type) (pre : list A) (a : A) (rest : list A) :
  del_at (List.length pre) (pre ++ a :: rest) = pre ++ rest.
Proof. induction pre; simpl; congruence. Qed.

(** With one unit of fuel for each instance after the iterator's
    position the loop runs to its end, and what it leaves is
    [remove_skipping] of those instances. *)
Lemma remove_loop_skipping (v : Version) (fuel : nat) :
  forall pre suf : Registry,
    List.length suf <= fuel ->
    remove_loop fuel (List.length pre) (pre ++ suf) v = pre ++ remove_skipping suf v.
Proof.
  induction fuel as [ | fuel IH]; intros pre suf Hlen.
  - destruct suf; simpl in *; [ reflexivity | lia ].
  - destruct suf as [ | a rest]; simpl.
    + rewrite app_nil_r.
      rewrite (proj2 (nth_error_None pre (List.length pre))) by lia. reflexivity.
    + rewrite nth_error_middle.
      destruct (SemanticVersion.eqb (version a) v).
      * rewrite del_at_middle.
        destruct rest as [ | b rest'].
        -- rewrite app_nil_r.
           destruct fuel; cbn [remove_loop]; [ reflexivity | ].
           rewrite (proj2 (nth_error_None pre (S (List.length pre)))) by lia.
           reflexivity.
        -- specialize (IH (pre ++ [b]) rest').
           rewrite <- app_assoc, length_app in IH. simpl in IH.
           rewrite Nat.add_1_r in IH. rewrite IH by (simpl in Hlen; lia).
           rewrite <- app_assoc. reflexivity.
      * specialize (IH (pre ++ [a]) rest).
        rewrite <- app_assoc, length_app in IH. simpl in IH.
        rewrite Nat.add_1_r in IH. rewrite IH by (simpl in Hlen; lia).
        rewrite <- app_assoc. reflexivity.
Qed.

Lemma remove_loop_all (registry : Registry) (v : Version) :
  remove_loop (List.length registry) 0 registry v = remove_skipping registry v.
Proof. apply (remove_loop_skipping v (List.length registry) [] registry). lia. Qed.

Lemma remove_skipping_absent (registry : Registry) (v : Version) :
  ~ In v (map version registry) -> remove_skipping registry v = registry.
Proof.
  induction registry as [ | a rest IH]; simpl; [ reflexivity | ].
  intros H. destruct (SemanticVersion.eqb (version a) v) eqn:E.
  - apply Version_eqb_eq in E. tauto.
  - rewrite IH; tauto.
Qed.

Lemma filter_other_absent (registry : Registry) (v : Version) :
  ~ In v (map version registry) -> filter (other_version v) registry = registry.
Proof.
  induction registry as [ | a rest IH]; simpl; [ reflexivity | ].
  intros H. unfold other_version at 1.
  destruct (SemanticVersion.eqb (version a) v) eqn:E; simpl.
  - apply Version_eqb_eq in E. tauto.
  - rewrite IH; tauto.
Qed.

(** On a registry with unique versions the loop removes exactly the
    instances of the version. *)
Lemma remove_skipping_unique (registry : Registry) (v : Version) :
  unique_versions registry ->
  remove_skipping registry v = filter (other_version v) registry.
Proof.
  unfold unique_versions.
  induction registry as [ | a rest IH]; simpl; [ reflexivity | ].
  intros H. inversion H as [ | ? ? Hnotin Hrest]; subst.
  unfold other_version at 1.
  destruct (SemanticVersion.eqb (version a) v) eqn:E; simpl.
  - apply Version_eqb_eq in E. subst v.
    rewrite filter_other_absent by exact Hnotin.
    destruct rest as [ | b rest']; [ reflexivity | ].
    rewrite remove_skipping_absent; [ reflexivity | ].
    simpl in Hnotin. tauto.
  - rewrite IH by exact Hrest. reflexivity.
Qed.

Lemma filter_other_gone (registry : Registry) (v : Version) :
  ~ In v (map version (filter (other_version v) registry)).
Proof.
  intros H. apply in_map_iff in H. destruct H as (i & Hv & Hi).
  apply filter_In in Hi. destruct Hi as [_ Hi].
  unfold other_version in Hi. rewrite <- Hv, Version_eqb_refl in Hi. discriminate.
Qed.

Lemma filter_unique (f : RenpyInstance -> bool) (registry : Registry) :
  unique_versions registry -> unique_versions (filter f registry).
Proof.
  unfold unique_versions.
  induction registry as [ | a rest IH]; simpl; intros H; [ exact H | ].
  inversion H as [ | ? ? Hnotin Hrest]; subst.
  destruct (f a); simpl; [ constructor | ]; auto.
  intros Hin. apply Hnotin.
  apply in_map_iff in Hin. destruct Hin as (i & Hv & Hi).
  apply filter_In in Hi. apply in_map_iff. exists i. tauto.
Qed.

(** [uninstall] keeps the uniqueness invariant of the registry. *)
Lemma remove_loop_unique (registry : Registry) (v : Version) :
  unique_versions registry ->
  unique_versions (remove_loop (List.length registry) 0 registry v).
Proof.
  intros H. rewrite remove_loop_all, remove_skipping_unique by exact H.
  apply filter_unique. exact H.
Qed.

(** [install] keeps it too: [add_to_registry] is reached only after
    [installed] has answered false. *)
Lemma append_unique (registry : Registry) (inst : RenpyInstance) :
  unique_versions registry ->
  installed_loop registry (version inst) = false ->
  unique_versions (registry ++ [inst]).
Proof.
  unfold unique_versions. intros H Hno.
  apply installed_loop_not_In in Hno.
  rewrite map_app. simpl.
  apply NoDup_app; [ exact H | repeat constructor; simpl; tauto | ].
  intros x Hx [Hy | []]. subst x. tauto.
Qed.

(** ** The guard and the registry store *)

Section Facts.

Variable home : string.
Variable Text : Type.
Variable encode : Registry -> Text.
Variable decode : Text -> option Registry.
Variable content_length : string -> option (option Z).
Variable get_range : string -> Z -> Z -> option bytes.
Variable read_zip : bytes -> option (list ZipInfo).
Variable get_available_versions : M Text (list Version).

Local Abbreviation assure_state := (assure_state home Text encode).
Local Abbreviation call_assure_state := (call_assure_state home Text encode).
Local Abbreviation get_registry := (get_registry home Text encode decode).
Local Abbreviation installed := (installed home Text encode decode).
Local Abbreviation get_instance := (get_instance home Text encode decode).
Local Abbreviation remove_from_registry := (remove_from_registry home Text encode decode).
Local Abbreviation add_to_registry := (add_to_registry home Text encode decode).
Local Abbreviation install :=
  (install home Text encode decode content_length get_range read_zip).
Local Abbreviation uninstall := (uninstall home Text encode decode).
Local Abbreviation list_versions :=
  (list_versions home Text encode decode get_available_versions).
Local Abbreviation download := (download Text content_length get_range).
Local Abbreviation ZipFile := (ZipFile Text read_zip).

Lemma assure_state_indexed (A : Type) (func : M Text A) (text : Text) (s : State Text) :
  indexed text s -> assure_state func s = func s.
Proof.
  intros [es H]. destruct s as [c out reqs]; simpl in H; subst c.
  unfold assure_state, bind, get_cache; simpl.
  destruct (func _) as [[ | | ] ?]; reflexivity.
Qed.

Lemma get_registry_indexed (text : Text) (registry : Registry) (s : State Text) :
  indexed text s -> decode text = Some registry ->
  get_registry s = (Ret (Some registry), s).
Proof.
  intros Hs Hd. unfold get_registry.
  rewrite (assure_state_indexed _ _ text) by assumption.
  destruct Hs as [es H]. destruct s as [c out reqs]; simpl in H; subst c.
  unfold bind, read_registry, get_cache; simpl. rewrite Hd. reflexivity.
Qed.

Lemma installed_indexed (text : Text) (registry : Registry) (vs : string) (v : Version)
                        (s : State Text) :
  indexed text s -> decode text = Some registry -> SemanticVersion.parse vs = Some v ->
  installed vs s = (Ret (installed_loop registry v), s).
Proof.
  intros Hs Hd Hv. unfold installed, Version_of_str. rewrite Hv.
  unfold bind. rewrite (get_registry_indexed text registry) by assumption.
  reflexivity.
Qed.

Lemma get_instance_indexed (text : Text) (registry : Registry) (vs : string) (v : Version)
                           (s : State Text) :
  indexed text s -> decode text = Some registry -> SemanticVersion.parse vs = Some v ->
  get_instance vs s = (Ret (get_instance_loop registry v), s).
Proof.
  intros Hs Hd Hv. unfold get_instance, Version_of_str. rewrite Hv.
  unfold bind. rewrite (get_registry_indexed text registry) by assumption.
  reflexivity.
Qed.

(** The guard stops with [exit(1)] when the cache root is not both
    readable and writable, and changes nothing but the terminal. *)
Lemma assure_state_no_access (A : Type) (func : M Text A) (s : State Text) :
  access_rw (cache s) = false ->
  assure_state func s
  = (Exit 1, mkState (cache s) (stdout s ++ [not_writeable_message home]) (requests s)).
Proof.
  intros H. destruct s as [c out reqs]; simpl in *.
  unfold assure_state, bind, get_cache; simpl. rewrite H. reflexivity.
Qed.

(** ** Rejections that change nothing *)

(** C1. For a version that is in the registry, [install] ends with
    [exit(1)] and leaves everything under the cache root as it was: the
    text of [index.json], every folder, every file; and it sends no
    request.  When the guard lets the call through (the cache root is
    readable and writable), the one line it prints is the
    already-installed message. *)
Theorem install_already_installed
    (s : State Text) (r w : bool) (text : Text) (es : Entries)
    (registry : Registry) (vs : string) (v : Version) :
  cache s = Dir r w (Some text) es ->
  decode text = Some registry ->
  SemanticVersion.parse vs = Some v ->
  In v (map version registry) ->
  exists s',
    install vs s = (Exit 1, s')
    /\ cache s' = cache s
    /\ requests s' = requests s
    /\ (r && w = true -> stdout s' = stdout s ++ [(vs ++ " is already installed!")%string]).
Proof.
  intros Hc Hd Hv Hin. unfold install.
  destruct (r && w) eqn:Hrw.
  - apply andb_prop in Hrw. destruct Hrw; subst r w.
    assert (Hi : indexed text s) by (exists es; exact Hc).
    rewrite (assure_state_indexed _ _ text) by exact Hi.
    unfold bind at 1.
    rewrite (installed_indexed text registry vs v) by assumption.
    apply installed_loop_In in Hin. rewrite Hin.
    eexists. split; [ reflexivity | ]. simpl. auto.
  - rewrite assure_state_no_access by (rewrite Hc; exact Hrw).
    eexists. split; [ reflexivity | ]. simpl.
    repeat split; auto. discriminate.
Qed.

(** C3. For a version that is not in the registry, [uninstall] ends
    with [exit(1)] and leaves everything under the cache root as it was:
    no folder is deleted and [index.json] is not written.  When the
    guard lets the call through, the one line it prints is the
    not-installed message. *)
Theorem uninstall_not_installed
    (s : State Text) (r w : bool) (text : Text) (es : Entries)
    (registry : Registry) (vs : string) (v : Version) :
  cache s = Dir r w (Some text) es ->
  decode text = Some registry ->
  SemanticVersion.parse vs = Some v ->
  ~ In v (map version registry) ->
  exists s',
    uninstall vs s = (Exit 1, s')
    /\ cache s' = cache s
    /\ requests s' = requests s
    /\ (r && w = true -> stdout s' = stdout s ++ [(vs ++ " is not installed!")%string]).
Proof.
  intros Hc Hd Hv Hin. unfold uninstall.
  destruct (r && w) eqn:Hrw.
  - apply andb_prop in Hrw. destruct Hrw; subst r w.
    assert (Hi : indexed text s) by (exists es; exact Hc).
    rewrite (assure_state_indexed _ _ text) by exact Hi.
    unfold bind at 1.
    rewrite (installed_indexed text registry vs v) by assumption.
    apply installed_loop_not_In in Hin. rewrite Hin.
    eexists. split; [ reflexivity | ]. simpl. auto.
  - rewrite assure_state_no_access by (rewrite Hc; exact Hrw).
    eexists. split; [ reflexivity | ]. simpl.
    repeat split; auto. discriminate.
Qed.

(** C6. With nothing at the path of the cache root, the guard does not
    create it: [access] answers false for a path that does not exist,
    so the guard prints the not-writeable message and calls [exit(1)]
    before it reaches its [mkdir]; the wrapped function is not run. *)
Theorem assure_state_missing_cache
    (A : Type) (func : M Text A) (out : list string) (reqs : list Request) :
  assure_state func (mkState Missing out reqs)
  = (Exit 1, mkState Missing (out ++ [not_writeable_message home]) reqs).
Proof. reflexivity. Qed.

(** ** Calls that leave [index.json] alone *)

Lemma bind_ret_inv (A B : Type) (m : M Text A) (k : A -> M Text B)
                   (s s' : State Text) (b : B) :
  bind m k s = (Ret b, s') ->
  exists a s1, m s = (Ret a, s1) /\ k a s1 = (Ret b, s').
Proof.
  unfold bind. destruct (m s) as [[a | code | e] s1]; intros H; try discriminate.
  exists a, s1. auto.
Qed.

Lemma indexed_index_of (text : Text) (s : State Text) :
  indexed text s <-> index_of s = Some (true, true, Some text).
Proof.
  unfold indexed, index_of. split.
  - intros [es H]. rewrite H. reflexivity.
  - destruct (cache s) as [ | | r w idx es]; try discriminate.
    intros H. inversion H; subst. exists es. reflexivity.
Qed.

Lemma keeps_indexed (A : Type) (m : M Text A) (text : Text) (s s' : State Text)
                    (o : Outcome A) :
  keeps_index m -> indexed text s -> m s = (o, s') -> indexed text s'.
Proof.
  intros Hk Hi Hm. apply indexed_index_of. rewrite (Hk _ _ _ Hm).
  apply indexed_index_of. exact Hi.
Qed.

Lemma keeps_ret (A : Type) (a : A) : keeps_index (ret (Text := Text) a).
Proof. intros s o s' H. inversion H. reflexivity. Qed.

Lemma keeps_exit (A : Type) (code : Z) : keeps_index (exit (Text := Text) (A := A) code).
Proof. intros s o s' H. inversion H. reflexivity. Qed.

Lemma keeps_raise (A : Type) (e : Exn) : keeps_index (raise (Text := Text) (A := A) e).
Proof. intros s o s' H. inversion H. reflexivity. Qed.

Lemma keeps_lift (A : Type) (o : Outcome A) : keeps_index (lift (Text := Text) o).
Proof. intros s o' s' H. inversion H. reflexivity. Qed.

Lemma keeps_print (line : string) : keeps_index (print (Text := Text) line).
Proof. intros s o s' H. inversion H. reflexivity. Qed.

Lemma keeps_send (r : Request) : keeps_index (send (Text := Text) r).
Proof. intros s o s' H. inversion H. reflexivity. Qed.

Lemma keeps_get_cache : keeps_index (get_cache (Text := Text)).
Proof. intros s o s' H. inversion H. reflexivity. Qed.

Lemma keeps_bind (A B : Type) (m : M Text A) (k : A -> M Text B) :
  keeps_index m -> (forall a, keeps_index (k a)) -> keeps_index (bind m k).
Proof.
  intros Hm Hk s o s'. unfold bind.
  destruct (m s) as [[a | code | e] s1] eqn:E; intros H.
  - rewrite (Hk a _ _ _ H). exact (Hm _ _ _ E).
  - inversion H; subst. exact (Hm _ _ _ E).
  - inversion H; subst. exact (Hm _ _ _ E).
Qed.

Create HintDb keeps.
#[local] Hint Resolve keeps_ret keeps_exit keeps_raise keeps_lift keeps_print
  keeps_send keeps_get_cache : keeps.

Ltac keeps_step :=
  match goal with
  | |- keeps_index (bind _ _) => apply keeps_bind; [ | intros ? ]
  | |- keeps_index (match ?x with _ => _ end) => destruct x
  | |- keeps_index (if ?x then _ else _) => destruct x
  | |- keeps_index _ => solve [ auto with keeps ]
  end.

Lemma keeps_get_entries : keeps_index (Text := Text) (get_entries Text).
Proof. unfold get_entries. repeat keeps_step. Qed.

Lemma keeps_set_entries (es : Entries) : keeps_index (set_entries Text es).
Proof.
  intros [c out reqs] o s' H.
  destruct c; unfold set_entries, bind, get_cache, set_cache, raise in H;
    simpl in H; inversion H; reflexivity.
Qed.

#[local] Hint Resolve keeps_get_entries keeps_set_entries : keeps.

Lemma keeps_remove (name : string) : keeps_index (remove (Text := Text) name).
Proof. unfold remove. repeat keeps_step. Qed.

Lemma keeps_rmtree (name : string) : keeps_index (rmtree (Text := Text) name).
Proof. unfold rmtree. repeat keeps_step. Qed.

Lemma keeps_append_file (dest : string) (body : bytes) :
  keeps_index (append_file (Text := Text) dest body).
Proof. unfold append_file. repeat keeps_step. Qed.

#[local] Hint Resolve keeps_remove keeps_rmtree keeps_append_file : keeps.

Lemma keeps_download (url dest : string) : keeps_index (download url dest).
Proof. unfold download. repeat keeps_step. Qed.

Lemma keeps_ZipFile (name : string) : keeps_index (ZipFile name).
Proof. unfold ZipFile. repeat keeps_step. Qed.

Lemma keeps_extractall (folder sub : string) (members : list ZipInfo) :
  keeps_index (extractall (Text := Text) folder sub members).
Proof. unfold extractall. repeat keeps_step. Qed.

#[local] Hint Resolve keeps_download keeps_ZipFile keeps_extractall : keeps.

(** ** [install], then [installed]; [uninstall], then [installed] *)

(** When a guarded call returns, the function ran in a state whose cache
    root is a readable and writable directory with an [index.json]. *)
Lemma assure_state_ret_inv (A : Type) (func : M Text A) (s s' : State Text) (a : A) :
  assure_state func s = (Ret a, s') ->
  exists text s1, indexed text s1 /\ func s1 = (Ret a, s').
Proof.
  destruct s as [c out reqs].
  unfold assure_state, bind, get_cache, scan_instances, listdir_cache, write_registry,
    mkdir_cache, set_cache, print, exit, raise, ret.
  destruct c as [ | r w | r w idx es]; cbn -[scan_loop not_writeable_message].
  - intros H; discriminate H.
  - destruct (r && w); cbn -[not_writeable_message]; intros H; discriminate H.
  - destruct r, w; cbn -[scan_loop not_writeable_message];
      try (intros H; discriminate H).
    destruct idx as [text | ]; cbn -[scan_loop].
    + destruct (func _) as [[ | | ] ?] eqn:E; intros H; inversion H; subst.
      eexists text, _. split; [ | exact E ]. exists es. reflexivity.
    + destruct (scan_loop _ _) as [instances | | ]; cbn; try (intros H; discriminate H).
      destruct (func _) as [[ | | ] ?] eqn:E; intros H; inversion H; subst.
      eexists (encode instances), _. split; [ | exact E ]. exists es. reflexivity.
Qed.

Lemma read_registry_indexed (text : Text) (s : State Text) :
  indexed text s -> read_registry Text s = (Ret text, s).
Proof.
  intros [es H]. destruct s as [c out reqs]; simpl in H; subst c. reflexivity.
Qed.

Lemma write_registry_indexed (text text' : Text) (s : State Text) :
  indexed text s ->
  exists s', write_registry Text text' s = (Ret tt, s') /\ indexed text' s'
             /\ entries_of (cache s') = entries_of (cache s).
Proof.
  intros [es H]. destruct s as [c out reqs]; simpl in H; subst c.
  eexists. split; [ reflexivity | ]. split; [ exists es | ]; reflexivity.
Qed.

(** When [installed] returns, [index.json] decoded, and the answer is
    that of the loop over the registry; nothing has changed. *)
Lemma installed_ret_inv (text : Text) (vs : string) (s s' : State Text) (b : bool) :
  indexed text s -> installed vs s = (Ret b, s') ->
  exists v registry,
    SemanticVersion.parse vs = Some v /\ decode text = Some registry
    /\ s' = s /\ b = installed_loop registry v.
Proof.
  intros Hi. unfold installed, Version_of_str.
  destruct (SemanticVersion.parse vs) as [v | ]; [ | discriminate ].
  unfold get_registry. unfold bind at 1.
  rewrite (assure_state_indexed _ _ text) by exact Hi.
  unfold bind at 1. rewrite (read_registry_indexed text) by exact Hi.
  destruct (decode text) as [registry | ].
  - intros H. inversion H; subst. exists v, registry. auto.
  - unfold bind, ret.
    destruct (remove_registry Text s) as [[ | | ] ?]; try (intros H; discriminate H).
    destruct (call_assure_state _) as [[ | | ] ?]; intros H; discriminate H.
Qed.

Lemma add_to_registry_indexed (text : Text) (registry : Registry)
                              (inst : RenpyInstance) (s : State Text) :
  indexed text s -> decode text = Some registry ->
  exists s', add_to_registry inst s = (Ret tt, s')
             /\ indexed (encode (registry ++ [inst])) s'.
Proof.
  intros Hi Hd. unfold add_to_registry, bind.
  rewrite (get_registry_indexed text registry) by assumption.
  destruct (write_registry_indexed text (encode (registry ++ [inst])) s Hi)
    as (s' & Hw & Hi' & _).
  exists s'. auto.
Qed.

(** One step of a chain of calls that all return and keep the index. *)
Ltac chain Hi H :=
  let a := fresh "a" in
  let s1 := fresh "s" in
  let Hm := fresh "Hm" in
  apply bind_ret_inv in H; destruct H as (a & s1 & Hm & H);
  apply (fun K => keeps_indexed _ _ _ _ _ _ K Hi) in Hm; [ | solve [ auto with keeps ] ];
  clear Hi; rename Hm into Hi.

(** A call of [install] that returns has found the version absent and
    has left a registry with the new instance at its end. *)
Lemma install_ret_registry (vs : string) (s s' : State Text) :
  install vs s = (Ret tt, s') ->
  exists text registry v,
    decode text = Some registry /\ SemanticVersion.parse vs = Some v
    /\ installed_loop registry v = false
    /\ indexed (encode (registry ++ [RenpyInstance_init v vs])) s'.
Proof.
  unfold install. intros H.
  apply assure_state_ret_inv in H. destruct H as (text & s1 & Hi & H).
  apply bind_ret_inv in H. destruct H as (already & s2 & Hinst & H).
  destruct (installed_ret_inv _ _ _ _ _ Hi Hinst) as (v & registry & Hv & Hd & -> & ->).
  exists text, registry, v.
  destruct (installed_loop registry v) eqn:Hloop.
  { unfold bind, print, exit in H. discriminate. }
  cbv zeta in H.
  do 10 chain Hi H.
  apply bind_ret_inv in H. destruct H as (text' & s11 & Hread & H).
  rewrite (read_registry_indexed text) in Hread by exact Hi.
  inversion Hread; subst text' s11.
  rewrite Hd in H. unfold Version_of_str in H. rewrite Hv in H.
  apply bind_ret_inv in H. destruct H as ([] & s12 & Hadd & H).
  destruct (add_to_registry_indexed text registry (RenpyInstance_init v vs) _ Hi Hd)
    as (s12' & Hadd' & Hi').
  rewrite Hadd' in Hadd. inversion Hadd; subst s12'. clear Hi. rename Hi' into Hi.
  do 2 chain Hi H.
  apply (fun K => keeps_indexed _ _ _ _ _ _ K Hi) in H; [ | auto with keeps ].
  auto.
Qed.

Lemma rmtree_outcome (name : string) (s s' : State Text) (o : Outcome unit) :
  rmtree name s = (o, s') ->
  (o = Ret tt \/ exists e, o = Raise e)
  /\ (forall files, lookup name (entries_of (cache s)) = Some (Folder files) ->
      o = Ret tt /\ entries_of (cache s') = delete name (entries_of (cache s))).
Proof.
  destruct s as [c out reqs].
  unfold rmtree, bind, get_entries, set_entries, get_cache, set_cache, raise, ret.
  destruct c as [ | r w | r w idx es]; simpl.
  - intros H; inversion H; subst. split; [ eauto | discriminate ].
  - intros H; inversion H; subst. split; [ eauto | discriminate ].
  - destruct (lookup name es) as [[data | files] | ]; simpl;
      intros H; inversion H; subst; simpl; split; eauto; try discriminate.
Qed.

(** What [uninstall] of an installed version does: the registry written
    is the one the loop leaves, whatever [rmtree] then does; and when
    the folder of the instance is there, the call returns with the
    folder deleted. *)
Lemma uninstall_registry (text : Text) (registry : Registry) (vs : string) (v : Version)
                         (s s' : State Text) (o : Outcome unit) :
  indexed text s -> decode text = Some registry ->
  SemanticVersion.parse vs = Some v -> In v (map version registry) ->
  uninstall vs s = (o, s') ->
  indexed (encode (remove_loop (List.length registry) 0 registry v)) s'
  /\ (o = Ret tt \/ exists e, o = Raise e)
  /\ exists inst,
       get_instance_loop registry v = Some inst
       /\ forall files,
            lookup (path inst) (entries_of (cache s)) = Some (Folder files) ->
            o = Ret tt
            /\ entries_of (cache s') = delete (path inst) (entries_of (cache s)).
Proof.
  intros Hi Hd Hv Hin. unfold uninstall.
  rewrite (assure_state_indexed _ _ text) by exact Hi.
  unfold bind at 1. rewrite (installed_indexed text registry vs v) by assumption.
  apply installed_loop_In in Hin. rewrite Hin. cbn [negb].
  unfold bind at 1. rewrite (get_instance_indexed text registry vs v) by assumption.
  destruct (get_instance_loop_found registry v Hin) as (inst & Hget & Hver & _).
  rewrite Hget. unfold bind at 1. unfold remove_from_registry at 1. unfold bind at 1.
  rewrite (get_registry_indexed text registry) by assumption.
  rewrite Hver.
  destruct (write_registry_indexed text
              (encode (remove_loop (List.length registry) 0 registry v)) s Hi)
    as (s1 & Hw & Hi1 & Hes).
  rewrite Hw. intros H.
  split; [ exact (keeps_indexed _ _ _ _ _ _ (keeps_rmtree _) Hi1 H) | ].
  destruct (rmtree_outcome _ _ _ _ H) as [Ho Hf].
  split; [ exact Ho | ].
  exists inst. split; [ reflexivity | ].
  intros files Hl. rewrite <- Hes in Hl |- *. exact (Hf files Hl).
Qed.

(** After a call of [install] that returns, [installed] answers true
    for the version.  After [uninstall] of a version that a registry
    with unique versions holds, [installed] answers false, whether
    [uninstall] returned or its [rmtree] raised.  The codec is taken to
    read back what it wrote.  Without unique versions the second half
    fails, see [uninstall_of_adjacent_twins_leaves_installed]. *)
Theorem installed_after_install_and_uninstall
    (s1 s1' : State Text) (vs1 : string)
    (s2 s2' : State Text) (text : Text) (registry : Registry)
    (vs2 : string) (v2 : Version) (o : Outcome unit) :
  (forall r, decode (encode r) = Some r) ->
  install vs1 s1 = (Ret tt, s1') ->
  indexed text s2 -> decode text = Some registry -> unique_versions registry ->
  SemanticVersion.parse vs2 = Some v2 -> In v2 (map version registry) ->
  uninstall vs2 s2 = (o, s2') ->
  installed vs1 s1' = (Ret true, s1')
  /\ installed vs2 s2' = (Ret false, s2')
  /\ (o = Ret tt \/ exists e, o = Raise e).
Proof.
  intros Hcodec Hinstall Hi Hd Hu Hv Hin Huninstall.
  split; [ | split ].
  - destruct (install_ret_registry _ _ _ Hinstall)
      as (text1 & registry1 & v1 & Hd1 & Hv1 & _ & Hi1).
    rewrite (installed_indexed _ (registry1 ++ [RenpyInstance_init v1 vs1]) vs1 v1 s1' Hi1)
      by auto.
    f_equal. f_equal. apply installed_loop_In.
    rewrite map_app. apply in_or_app. right. simpl. auto.
  - destruct (uninstall_registry _ _ _ _ _ _ _ Hi Hd Hv Hin Huninstall) as (Hi' & _ & _).
    rewrite (installed_indexed _ _ vs2 v2 s2' Hi') by auto.
    f_equal. f_equal. apply installed_loop_not_In.
    rewrite remove_loop_all, remove_skipping_unique by exact Hu.
    apply filter_other_gone.
  - destruct (uninstall_registry _ _ _ _ _ _ _ Hi Hd Hv Hin Huninstall) as (_ & Ho & _).
    exact Ho.
Qed.

(** On a registry that holds a version twice in a row the loop of
    [remove_from_registry] leaves the second instance: the uniqueness of
    versions is what the second half of C2 rests on. *)
Lemma remove_loop_adjacent (i j : RenpyInstance) :
  version i = version j ->
  remove_loop 2 0 [i; j] (version i) = [j].
Proof.
  intros H. cbn [remove_loop nth_error del_at].
  rewrite Version_eqb_refl. reflexivity.
Qed.

(** ** The uniqueness of versions *)

(** [install] that returns, on a registry with unique versions, leaves
    a registry with unique versions. *)
Lemma install_keeps_unique (vs : string) (s s' : State Text) :
  install vs s = (Ret tt, s') ->
  exists text registry inst,
    decode text = Some registry
    /\ indexed (encode (registry ++ [inst])) s'
    /\ (unique_versions registry -> unique_versions (registry ++ [inst])).
Proof.
  intros H.
  destruct (install_ret_registry _ _ _ H) as (text & registry & v & Hd & Hv & Hno & Hi).
  exists text, registry, (RenpyInstance_init v vs). repeat split; auto.
  intros Hu. apply append_unique; assumption.
Qed.

(** C4. The scan does not keep the uniqueness of versions.  With no
    [index.json] and the two entries [1.0.0] and [1.0.0] followed by a
    newline, the guard writes a registry of two instances that both
    have the version 1.0.0: the final [$] of the pattern matches before
    a newline that ends the name, and group 1 is the name without it. *)
Theorem scan_newline_twin_not_unique :
  let twin := [("1.0.0", Folder []); (String.append "1.0.0" nl, Folder [])] in
  let v := mkVersion 1 0 0 [] [] in
  let registry :=
    [RenpyInstance_init v "1.0.0"; RenpyInstance_init v (String.append "1.0.0" nl)] in
  (exists out,
     call_assure_state (mkState (Dir true true None twin) [] [])
     = (Ret tt, mkState (Dir true true (Some (encode registry)) twin) out []))
  /\ ~ unique_versions registry.
Proof.
  cbv zeta. split.
  - eexists. vm_compute. reflexivity.
  - unfold unique_versions. simpl. intros H. inversion H; subst. simpl in *. tauto.
Qed.

(** ** An [index.json] that does not decode *)

(** C5. On an [index.json] that does not decode, [get_registry] removes
    the file and the guard writes a new one from the scan of the cache
    root; but the call then returns [None], not the registry it has
    just rebuilt.  So the caller meets the corruption: [installed]
    iterates over [None] and raises [TypeError], and the listing of the
    installed versions reports that none is installed whatever the
    rebuilt registry holds. *)
Theorem get_registry_corrupt_returns_None
    (s : State Text) (text : Text) (es : Entries) (instances : Registry)
    (vs : string) (v : Version) (n : Z) :
  cache s = Dir true true (Some text) es ->
  decode text = None ->
  scan_loop (map fst es) [] = Ret instances ->
  SemanticVersion.parse vs = Some v ->
  exists s',
    get_registry s = (Ret None, s')
    /\ cache s' = Dir true true (Some (encode instances)) es
    /\ installed vs s = (Raise TypeError, s')
    /\ exists s'' out,
         list_versions true n s = (Ret tt, s'')
         /\ cache s'' = cache s'
         /\ stdout s'' = out ++ ["No instances are currently installed."].
Proof.
  intros Hc Hd Hscan Hv.
  destruct s as [c out reqs]; simpl in Hc; subst c.
  unfold list_versions, installed, Version_of_str. rewrite Hv.
  unfold get_registry, call_assure_state, assure_state, bind, get_cache, read_registry,
    remove_registry, scan_instances, listdir_cache, write_registry, set_cache, print,
    raise, ret.
  cbn -[scan_loop]. rewrite Hd. cbn -[scan_loop].
  rewrite app_nil_r, Hscan. cbn.
  eexists. repeat split.
  eexists. eexists. split; [ reflexivity | ]. split; [ reflexivity | ].
  cbn. reflexivity.
Qed.

(** ** The list of installed versions *)

Lemma print_versions_stdout (vs : list Version) (s : State Text) :
  print_versions vs s
  = (Ret tt, mkState (cache s) (stdout s ++ map SemanticVersion.to_string vs) (requests s)).
Proof.
  revert s. induction vs as [ | v vs IH]; intros [c out reqs]; simpl.
  - unfold ret. rewrite app_nil_r. reflexivity.
  - unfold bind, print. simpl. rewrite IH. simpl. rewrite <- app_assoc. reflexivity.
Qed.

(** The installed versions are printed in the order of the registry,
    which is the order in which [add_to_registry] appended them: no
    sorting takes place. *)
Lemma list_versions_installed (text : Text) (inst : RenpyInstance) (rest : Registry)
                              (n : Z) (s : State Text) :
  indexed text s -> decode text = Some (inst :: rest) ->
  list_versions true n s
  = (Ret tt,
     mkState (cache s)
             (stdout s ++ "Installed versions:"
                :: map SemanticVersion.to_string (map version (slice_to n (inst :: rest))))
             (requests s)).
Proof.
  intros Hi Hd. unfold list_versions.
  rewrite (assure_state_indexed _ _ text) by exact Hi.
  unfold bind at 1. unfold print at 1.
  unfold bind at 1.
  rewrite (get_registry_indexed text (inst :: rest)).
  - rewrite print_versions_stdout. simpl. rewrite <- app_assoc. reflexivity.
  - destruct Hi as [es Hi]. exists es. exact Hi.
  - exact Hd.
Qed.

(** ** Resumable download *)

Lemma lookup_put (A : Type) (name : string) (e : A) (l : list (string * A)) :
  lookup name (put name e l) = Some e.
Proof.
  induction l as [ | [n e'] l IH]; simpl.
  - rewrite String.eqb_refl. reflexivity.
  - destruct (String.eqb n name) eqn:E; simpl; rewrite E; auto.
Qed.

Lemma lookup_put_other (A : Type) (name other : string) (e : A) (l : list (string * A)) :
  other <> name -> lookup other (put name e l) = lookup other l.
Proof.
  intros Hne. induction l as [ | [n e'] l IH]; simpl.
  - apply String.eqb_neq in Hne. rewrite String.eqb_sym, Hne. reflexivity.
  - destruct (String.eqb n name) eqn:E; simpl.
    + apply String.eqb_eq in E. subst n.
      apply String.eqb_neq in Hne. rewrite String.eqb_sym, Hne. reflexivity.
    + destruct (String.eqb n other); auto.
Qed.

(** C9. A destination in a readable and writable cache root that holds
    [N] bytes ([N = 0] with no file there) and a remote length [T].
    The length is read with one [urlopen] request in every case.  When
    [N >= T] the call returns after it: no range request is sent and
    nothing under the cache root changes.  When [N < T] one range
    request is sent, for the bytes from [N] to [T]; what the server
    streams is appended to the bytes the file had, and every other
    entry stays; with a server that answers with the [T - N] bytes that
    are left, the file ends with [T] bytes. *)
Theorem download_resumes
    (url dest : string) (s : State Text) (idx : option Text) (es : Entries)
    (old : option bytes) (chunk : bytes) (T : Z) :
  let data := match old with Some data => data | None => [] end in
  let N := Z.of_nat (List.length data) in
  cache s = Dir true true idx es ->
  entry_name dest ->
  lookup dest es = option_map Blob old ->
  content_length url = Some (Some T) ->
  ((N < T)%Z -> get_range url N T = Some chunk
                /\ Z.of_nat (List.length chunk) = (T - N)%Z) ->
  exists s',
    download url dest s = (Ret tt, s')
    /\ stdout s' = stdout s
    /\ if (N >=? T)%Z
       then requests s' = requests s ++ [UrlOpen url] /\ cache s' = cache s
       else requests s' = requests s ++ [UrlOpen url; RangeGet url N T]
            /\ index_of s' = index_of s
            /\ lookup dest (entries_of (cache s')) = Some (Blob (data ++ chunk))
            /\ Z.of_nat (List.length (data ++ chunk)) = T
            /\ forall other, other <> dest ->
                 lookup other (entries_of (cache s')) = lookup other es.
Proof.
  intros data N Hc _ Hl Hlen Hserver.
  destruct s as [c out reqs]; simpl in Hc; subst c.
  unfold download, bind, send, get_cache; cbn -[Z.geb Z.of_nat].
  rewrite Hlen. cbn -[Z.geb Z.of_nat]. rewrite Hl.
  replace (match option_map Blob old with
           | Some (Blob data0) => Z.of_nat (List.length data0)
           | Some (Folder _) => dir_st_size
           | None => 0%Z
           end) with N by (unfold N, data; destruct old; reflexivity).
  destruct (N >=? T)%Z eqn:E.
  - eexists. split; [ reflexivity | ]. simpl. auto.
  - assert (HN : (N < T)%Z) by (rewrite Z.geb_leb in E; apply Z.leb_gt in E; exact E).
    destruct (Hserver HN) as [Hget Hchunk].
    cbn -[Z.of_nat]. rewrite Hget.
    unfold append_file, bind, get_entries, set_entries, get_cache, set_cache, ret.
    cbn -[Z.of_nat]. rewrite Hl.
    assert (Hput : forall e : Entries,
              (match option_map Blob old with
               | Some (Blob data0) => put dest (Blob (data0 ++ chunk)) e
               | Some (Folder _) => e
               | None => put dest (Blob chunk) e
               end) = put dest (Blob (data ++ chunk)) e)
      by (intros e; unfold data; destruct old; reflexivity).
    destruct old as [data0 | ]; cbn -[Z.of_nat];
      (eexists; split; [ reflexivity | ]; cbn -[Z.of_nat];
       split; [ reflexivity | ];
       split; [ rewrite <- app_assoc; reflexivity | ];
       split; [ reflexivity | ];
       split; [ apply lookup_put | ];
       split; [ unfold N, data in Hchunk; cbn -[Z.of_nat] in Hchunk;
                rewrite ?length_app, ?Nat2Z.inj_add; lia | ];
       intros other Hne; apply lookup_put_other; exact Hne).
Qed.

(** C10. When the response carries no [Content-Length] the length is
    taken to be [-1], which no local size is below: the call returns
    after the [urlopen], sends no range request, creates no file and
    changes nothing under the cache root, whatever is or is not at the
    destination. *)
Theorem download_without_content_length (url dest : string) (s : State Text) :
  content_length url = Some None ->
  download url dest s
  = (Ret tt, mkState (cache s) (stdout s) (requests s ++ [UrlOpen url])).
Proof.
  intros Hlen. destruct s as [c out reqs].
  unfold download, bind, send, get_cache; cbn -[Z.geb Z.of_nat].
  rewrite Hlen. cbn -[Z.geb Z.of_nat].
  match goal with
  | |- context [ (?n >=? -1)%Z ] =>
      assert (E : (n >=? -1)%Z = true);
      [ apply Z.geb_le; destruct (lookup dest (entries_of c)) as [[data | files] | ];
        unfold dir_st_size; lia
      | rewrite E; reflexivity ]
  end.
Qed.

(** ** Further facts on the operations *)

(** [uninstall] of an installed version leaves a registry with unique
    versions when it found one. *)
Lemma uninstall_keeps_unique (text : Text) (registry : Registry) (vs : string)
                             (v : Version) (s s' : State Text) (o : Outcome unit) :
  indexed text s -> decode text = Some registry -> unique_versions registry ->
  SemanticVersion.parse vs = Some v -> In v (map version registry) ->
  uninstall vs s = (o, s') ->
  exists registry',
    indexed (encode registry') s' /\ unique_versions registry'.
Proof.
  intros Hi Hd Hu Hv Hin H.
  destruct (uninstall_registry _ _ _ _ _ _ _ Hi Hd Hv Hin H) as (Hi' & _).
  eexists. split; [ exact Hi' | ]. apply remove_loop_unique. exact Hu.
Qed.

(** The guard's scan of a cache root whose entries have plain names
    writes a registry with unique versions. *)
Lemma guard_scan_unique (es : Entries) (out : list string) (reqs : list Request)
                        (s' : State Text) :
  NoDup (map fst es) ->
  (forall name, In name (map fst es) -> plain_name name) ->
  call_assure_state (mkState (Dir true true None es) out reqs) = (Ret tt, s') ->
  exists instances,
    indexed (encode instances) s' /\ unique_versions instances.
Proof.
  intros Hnodup Hplain.
  unfold call_assure_state, assure_state, bind, get_cache, scan_instances, listdir_cache,
    write_registry, set_cache, print, ret.
  cbn -[scan_loop]. rewrite app_nil_r.
  destruct (scan_loop (map fst es) []) as [instances | | ] eqn:Hscan;
    cbn; intros H; inversion H; subst.
  exists instances. split; [ exists es; reflexivity | ].
  exact (scan_loop_unique _ _ Hnodup Hplain Hscan).
Qed.

(** With an empty registry the listing says so and returns. *)
Lemma list_versions_none_installed (text : Text) (n : Z) (s : State Text) :
  indexed text s -> decode text = Some [] ->
  list_versions true n s
  = (Ret tt,
     mkState (cache s)
             (stdout s ++ ["Installed versions:"; "No instances are currently installed."])
             (requests s)).
Proof.
  intros Hi Hd. unfold list_versions.
  rewrite (assure_state_indexed _ _ text) by exact Hi.
  unfold bind at 1. unfold print at 1.
  unfold bind at 1.
  rewrite (get_registry_indexed text []).
  - unfold print. simpl. rewrite <- app_assoc. reflexivity.
  - destruct Hi as [es Hi]. exists es. exact Hi.
  - exact Hd.
Qed.

End Facts.

(** ** The statements on the small concrete world *)

Module Run.

Abbreviation install :=
  (install Sample.home Sample.Text Sample.encode Sample.decode
           Sample.content_length Sample.get_range Sample.read_zip).
Abbreviation uninstall :=
  (uninstall Sample.home Sample.Text Sample.encode Sample.decode).
Abbreviation installed :=
  (installed Sample.home Sample.Text Sample.encode Sample.decode).
Abbreviation get_registry :=
  (get_registry Sample.home Sample.Text Sample.encode Sample.decode).
Abbreviation list_versions :=
  (list_versions Sample.home Sample.Text Sample.encode Sample.decode
                 Sample.get_available_versions).

End Run.

Lemma install_already_installed_witness :
  exists s',
    Run.install "1.0.0" Sample.one_installed = (Exit 1, s')
    /\ cache s' = cache Sample.one_installed
    /\ requests s' = requests Sample.one_installed
    /\ (true && true = true ->
        stdout s' = stdout Sample.one_installed ++ ["1.0.0 is already installed!"]).
Proof.
  apply (install_already_installed Sample.home Sample.Text Sample.encode Sample.decode
           Sample.content_length Sample.get_range Sample.read_zip
           Sample.one_installed true true (Some [Sample.inst100])
           [("1.0.0", Folder [("renpy.py", [Byte.x23])])]
           [Sample.inst100] "1.0.0" Sample.v100).
  - reflexivity.
  - reflexivity.
  - vm_compute. reflexivity.
  - simpl. auto.
Defined.

Lemma uninstall_not_installed_witness :
  exists s',
    Run.uninstall "2.0.0" Sample.one_installed = (Exit 1, s')
    /\ cache s' = cache Sample.one_installed
    /\ requests s' = requests Sample.one_installed
    /\ (true && true = true ->
        stdout s' = stdout Sample.one_installed ++ ["2.0.0 is not installed!"]).
Proof.
  apply (uninstall_not_installed Sample.home Sample.Text Sample.encode Sample.decode
           Sample.one_installed true true (Some [Sample.inst100])
           [("1.0.0", Folder [("renpy.py", [Byte.x23])])]
           [Sample.inst100] "2.0.0" Sample.v200).
  - reflexivity.
  - reflexivity.
  - vm_compute. reflexivity.
  - simpl. intros [H | []]. discriminate H.
Defined.

Lemma installed_after_install_and_uninstall_witness :
  let after_install := snd (Run.install "2.0.0" Sample.one_installed) in
  let after_uninstall := snd (Run.uninstall "1.0.0" Sample.one_installed) in
  Run.installed "2.0.0" after_install = (Ret true, after_install)
  /\ Run.installed "1.0.0" after_uninstall = (Ret false, after_uninstall)
  /\ (Ret tt = Ret tt \/ exists e, Ret tt = Raise e).
Proof.
  cbv zeta.
  apply (installed_after_install_and_uninstall
           Sample.home Sample.Text Sample.encode Sample.decode
           Sample.content_length Sample.get_range Sample.read_zip
           Sample.one_installed _ "2.0.0"
           Sample.one_installed _ (Some [Sample.inst100]) [Sample.inst100]
           "1.0.0" Sample.v100 (Ret tt)).
  - intros r. reflexivity.
  - vm_compute. reflexivity.
  - eexists. reflexivity.
  - reflexivity.
  - unfold unique_versions. simpl. repeat constructor. simpl. tauto.
  - vm_compute. reflexivity.
  - simpl. auto.
  - vm_compute. reflexivity.
Defined.

Lemma get_registry_corrupt_returns_None_witness :
  exists s',
    Run.get_registry Sample.corrupt_index = (Ret None, s')
    /\ cache s' = Dir true true (Some (Sample.encode [Sample.inst100]))
                      [("1.0.0", Folder []); ("lib", Folder [])]
    /\ Run.installed "1.0.0" Sample.corrupt_index = (Raise TypeError, s')
    /\ exists s'' out,
         Run.list_versions true 5 Sample.corrupt_index = (Ret tt, s'')
         /\ cache s'' = cache s'
         /\ stdout s'' = out ++ ["No instances are currently installed."].
Proof.
  apply (get_registry_corrupt_returns_None
           Sample.home Sample.Text Sample.encode Sample.decode
           Sample.get_available_versions
           Sample.corrupt_index None [("1.0.0", Folder []); ("lib", Folder [])]
           [Sample.inst100] "1.0.0" Sample.v100 5).
  - reflexivity.
  - reflexivity.
  - vm_compute. reflexivity.
  - vm_compute. reflexivity.
Defined.

(** C7. The listing of the installed versions is not most recent
    first: with 1.0.0 installed before 2.0.0 it prints 1.0.0 and then
    2.0.0, the order of the registry, although 1.0.0 is the lower
    version. *)
Theorem list_versions_in_registry_order :
  Run.list_versions true 5 Sample.two_installed
  = (Ret tt,
     mkState (cache Sample.two_installed)
             ["Installed versions:"; "1.0.0"; "2.0.0"] [])
  /\ SemanticVersion.ltb Sample.v100 Sample.v200 = true.
Proof. split; vm_compute; reflexivity. Qed.

Lemma download_resumes_witness :
  exists s',
    download Sample.Text Sample.content_length Sample.get_range
             "https://www.renpy.org/dl/1.0.0/renpy-1.0.0-sdk.zip" "renpy-1.0.0-sdk.zip"
             Sample.partial_download = (Ret tt, s')
    /\ stdout s' = stdout Sample.partial_download
    /\ requests s'
       = requests Sample.partial_download
           ++ [UrlOpen "https://www.renpy.org/dl/1.0.0/renpy-1.0.0-sdk.zip";
               RangeGet "https://www.renpy.org/dl/1.0.0/renpy-1.0.0-sdk.zip" 2 3]
    /\ index_of s' = index_of Sample.partial_download
    /\ lookup "renpy-1.0.0-sdk.zip" (entries_of (cache s')) = Some (Blob Sample.archive)
    /\ Z.of_nat (List.length Sample.archive) = 3%Z
    /\ forall other, other <> "renpy-1.0.0-sdk.zip" ->
         lookup other (entries_of (cache s'))
         = lookup other [("renpy-1.0.0-sdk.zip", Blob [Byte.x50; Byte.x4b])].
Proof.
  apply (download_resumes Sample.Text Sample.content_length Sample.get_range
           "https://www.renpy.org/dl/1.0.0/renpy-1.0.0-sdk.zip" "renpy-1.0.0-sdk.zip"
           Sample.partial_download (Some (Some []))
           [("renpy-1.0.0-sdk.zip", Blob [Byte.x50; Byte.x4b])]
           (Some [Byte.x50; Byte.x4b]) [Byte.x03] 3%Z).
  - reflexivity.
  - unfold entry_name. repeat split; (discriminate || reflexivity).
  - reflexivity.
  - reflexivity.
  - intros _. split; reflexivity.
Defined.

(** C9, the sentence that no request is made when the file is
    complete: with all three bytes of the archive at the destination
    and a remote length of three, [download] still sends the [urlopen]
    request that reads the length; it sends no range request and leaves
    the file as it is. *)
Lemma download_complete_file_still_asks_the_length :
  let url := "https://www.renpy.org/dl/1.0.0/renpy-1.0.0-sdk.zip" in
  let complete :=
    Sample.state_of (Dir true true (Some (Some []))
                         [("renpy-1.0.0-sdk.zip", Blob Sample.archive)]) in
  Z.of_nat (List.length Sample.archive) = 3%Z
  /\ Sample.content_length url = Some (Some 3%Z)
  /\ requests complete = []
  /\ download Sample.Text Sample.content_length Sample.get_range
              url "renpy-1.0.0-sdk.zip" complete
     = (Ret tt, mkState (cache complete) [] [UrlOpen url]).
Proof. cbv zeta. repeat split. Qed.

Lemma download_without_content_length_witness :
  download Sample.Text Sample.no_length Sample.get_range
           "https://www.renpy.org/dl/1.0.0/renpy-1.0.0-sdk.zip" "renpy-1.0.0-sdk.zip"
           Sample.partial_download
  = (Ret tt,
     mkState (cache Sample.partial_download) (stdout Sample.partial_download)
             (requests Sample.partial_download
                ++ [UrlOpen "https://www.renpy.org/dl/1.0.0/renpy-1.0.0-sdk.zip"])).
Proof.
  apply (download_without_content_length Sample.Text Sample.no_length Sample.get_range).
  reflexivity.
Defined.

(** * More properties of the program *)

(** ** [get_members] on every archive *)

Lemma length_append (a b : string) :
  String.length (a ++ b) = String.length a + String.length b.
Proof. induction a as [ | x a IH]; simpl; congruence. Qed.

Lemma drop_not_empty (n : nat) (s : string) :
  n < String.length s -> Str.drop n s <> "".
Proof.
  revert s. induction n as [ | n IH]; intros [ | a s]; simpl; intros H;
    try lia; try discriminate.
  apply IH. lia.
Qed.

Lemma list_ascii_of_string_append (a b : string) :
  list_ascii_of_string (a ++ b) = list_ascii_of_string a ++ list_ascii_of_string b.
Proof. induction a as [ | x a IH]; simpl; congruence. Qed.

Lemma string_of_list_ascii_app (a b : list ascii) :
  string_of_list_ascii (a ++ b)
  = (string_of_list_ascii a ++ string_of_list_ascii b)%string.
Proof. induction a as [ | x a IH]; simpl; congruence. Qed.

(** [(a + b).endswith(b)] *)
Lemma endswith_append (a b : string) : Str.endswith (a ++ b) b = true.
Proof.
  unfold Str.endswith.
  rewrite list_ascii_of_string_append, rev_app_distr, string_of_list_ascii_app.
  apply prefix_append.
Qed.

(** X1. [get_members] never raises: the two lists that [commonprefix]
    walks are the least and the greatest, so the index into the second
    never runs past its end.  What it yields are entries of the
    archive, and none of them has an empty name. *)
Theorem get_members_returns (zs : list ZipInfo) :
  exists members,
    get_members zs = Ret members
    /\ Forall (fun z => filename z <> "") members
    /\ List.length members <= List.length zs.
Proof.
  destruct (get_members_cuts_common_prefix zs) as (_ & Hget & _).
  eexists. split; [ exact Hget | ]. split.
  - apply Forall_forall. intros z Hz.
    apply in_map_iff in Hz. destruct Hz as (z0 & <- & Hz0).
    apply filter_In in Hz0. destruct Hz0 as [_ Hlen].
    apply Nat.ltb_lt in Hlen. simpl. apply drop_not_empty. exact Hlen.
  - rewrite length_map. apply filter_length_le.
Qed.

(** X2. No file of the archive is lost, and the renaming can be undone:
    every non-directory entry with a name is yielded, with its data,
    under the name that gives the old one back when the text of the
    common prefix is put in front; the prefix is the longest common
    prefix of the folders of the non-directory entries. *)
Theorem get_members_keeps_every_file (zs : list ZipInfo) (z : ZipInfo) :
  In z zs -> Str.endswith (filename z) "/" = false -> filename z <> "" ->
  exists pfx members,
    get_members zs = Ret members
    /\ longest_common_prefix pfx (member_parts (map filename zs))
    /\ In (mkZipInfo (Str.drop (String.length (prefix_text pfx)) (filename z)) (payload z))
          members
    /\ filename z
       = (prefix_text pfx ++ Str.drop (String.length (prefix_text pfx)) (filename z))%string.
Proof.
  intros Hin Hfile Hname.
  destruct (get_members_cuts_common_prefix zs) as (Hlongest & Hget & Hunder & _).
  set (pfx := common_all (member_parts (map filename zs))) in *.
  assert (Hz : In (filename z) (map filename zs)) by (apply in_map; exact Hin).
  assert (Hparts : member_parts (map filename zs) <> []).
  { intros E. pose proof (member_parts_In _ _ Hz Hfile) as H. rewrite E in H. destruct H. }
  pose proof (Hunder (filename z) Hz (or_introl Hfile)) as Hback.
  exists pfx. eexists. split; [ exact Hget | ]. split; [ auto | ]. split; [ | exact Hback ].
  apply in_map_iff. exists z. split; [ reflexivity | ].
  apply filter_In. split; [ exact Hin | ].
  apply Nat.ltb_lt.
  destruct (Str.drop (String.length (prefix_text pfx)) (filename z)) as [ | c rest] eqn:E.
  - exfalso. rewrite append_nil_r in Hback.
    destruct pfx as [ | x pfx'].
    + simpl in Hback. auto.
    + rewrite Hback in Hfile. unfold prefix_text in Hfile.
      rewrite endswith_append in Hfile. discriminate.
  - rewrite Hback. rewrite length_append. simpl. lia.
Qed.

Lemma get_members_keeps_every_file_witness :
  exists pfx members,
    get_members (zip_of_names ["SDKv1/"; "SDKv1/a.txt"; "SDKv1/sub/b.txt"]) = Ret members
    /\ longest_common_prefix pfx
         (member_parts (map filename (zip_of_names ["SDKv1/"; "SDKv1/a.txt"; "SDKv1/sub/b.txt"])))
    /\ In (mkZipInfo (Str.drop (String.length (prefix_text pfx)) "SDKv1/sub/b.txt") [])
          members
    /\ "SDKv1/sub/b.txt"
       = (prefix_text pfx ++ Str.drop (String.length (prefix_text pfx)) "SDKv1/sub/b.txt")%string.
Proof.
  apply (get_members_keeps_every_file
           (zip_of_names ["SDKv1/"; "SDKv1/a.txt"; "SDKv1/sub/b.txt"])
           (mkZipInfo "SDKv1/sub/b.txt" [])).
  - simpl. auto.
  - reflexivity.
  - discriminate.
Defined.

(** ** The loop of [remove_from_registry] on every registry *)

Lemma remove_skipping_keeps_others (v : Version) (n : nat) :
  forall registry : Registry,
    List.length registry <= n ->
    filter (other_version v) (remove_skipping registry v)
    = filter (other_version v) registry.
Proof.
  induction n as [ | n IH]; intros [ | a rest] Hlen; simpl in Hlen;
    try reflexivity; try lia.
  assert (Ha : other_version v a = negb (SemanticVersion.eqb (version a) v))
    by reflexivity.
  cbn [remove_skipping filter]. rewrite Ha.
  destruct (SemanticVersion.eqb (version a) v) eqn:Ea; cbn [negb].
  - destruct rest as [ | b rest']; [ reflexivity | ].
    cbn [filter]. rewrite IH by (simpl in Hlen; lia). reflexivity.
  - cbn [filter]. rewrite Ha. cbn [negb]. rewrite IH by lia. reflexivity.
Qed.

(** X3. Whatever the registry holds, the loop of [remove_from_registry]
    removes no instance of another version and keeps their order. *)
Theorem remove_loop_keeps_other_versions (registry : Registry) (v : Version) :
  filter (other_version v) (remove_loop (List.length registry) 0 registry v)
  = filter (other_version v) registry.
Proof.
  rewrite remove_loop_all.
  apply (remove_skipping_keeps_others v (List.length registry)). lia.
Qed.

Lemma has_adjacent_other (v : Version) (a : RenpyInstance) (rest : Registry) :
  SemanticVersion.eqb (version a) v = false ->
  has_adjacent v (a :: rest) = has_adjacent v rest.
Proof.
  intros Ea. cbn [has_adjacent]. rewrite Ea.
  destruct rest as [ | b rest']; reflexivity.
Qed.

Lemma remove_skipping_adjacent (v : Version) (n : nat) :
  forall registry : Registry,
    List.length registry <= n ->
    installed_loop (remove_skipping registry v) v = has_adjacent v registry.
Proof.
  induction n as [ | n IH]; intros [ | a rest] Hlen; simpl in Hlen;
    try reflexivity; try lia.
  destruct (SemanticVersion.eqb (version a) v) eqn:Ea.
  - cbn [remove_skipping]. rewrite Ea.
    destruct rest as [ | b rest']; [ reflexivity | ].
    cbn [installed_loop].
    destruct (SemanticVersion.eqb (version b) v) eqn:Eb.
    + cbn [has_adjacent]. rewrite Ea, Eb. reflexivity.
    + rewrite IH by (simpl in Hlen; lia).
      change (has_adjacent v (a :: b :: rest'))
        with ((SemanticVersion.eqb (version a) v && SemanticVersion.eqb (version b) v)
              || has_adjacent v (b :: rest')).
      rewrite Eb, andb_false_r. cbn [orb].
      symmetry. apply has_adjacent_other. exact Eb.
  - rewrite (has_adjacent_other v a rest Ea).
    cbn [remove_skipping]. rewrite Ea. cbn [installed_loop]. rewrite Ea.
    apply IH. lia.
Qed.

(** X4. After the loop of [remove_from_registry] an instance of the
    version is left exactly when two instances of it stood next to each
    other: the deletion moves the next instance into the place the
    iterator has just left. *)
Theorem remove_loop_leaves_adjacent (registry : Registry) (v : Version) :
  installed_loop (remove_loop (List.length registry) 0 registry v) v
  = has_adjacent v registry.
Proof.
  rewrite remove_loop_all.
  apply (remove_skipping_adjacent v (List.length registry)). lia.
Qed.

(** ** More on the guard, the registry store and the queries *)

Section MoreFacts.

Variable home : string.
Variable Text : Type.
Variable encode : Registry -> Text.
Variable decode : Text -> option Registry.
Variable content_length : string -> option (option Z).
Variable get_range : string -> Z -> Z -> option bytes.
Variable read_zip : bytes -> option (list ZipInfo).
Variable get_available_versions : M Text (list Version).

Local Abbreviation assure_state := (assure_state home Text encode).
Local Abbreviation call_assure_state := (call_assure_state home Text encode).
Local Abbreviation get_registry := (get_registry home Text encode decode).
Local Abbreviation installed := (installed home Text encode decode).
Local Abbreviation get_instance := (get_instance home Text encode decode).
Local Abbreviation remove_from_registry := (remove_from_registry home Text encode decode).
Local Abbreviation add_to_registry := (add_to_registry home Text encode decode).
Local Abbreviation install :=
  (install home Text encode decode content_length get_range read_zip).
Local Abbreviation uninstall := (uninstall home Text encode decode).
Local Abbreviation list_versions :=
  (list_versions home Text encode decode get_available_versions).
Local Abbreviation download := (download Text content_length get_range).
Local Abbreviation ZipFile := (ZipFile Text read_zip).

(** X5. When a guarded function returns, it ran in a state in which the
    cache root is a readable and writable directory with an
    [index.json]; the guard before it changed no other entry of the
    cache root and sent no request. *)
Theorem guarded_function_runs_with_index
    (A : Type) (func : M Text A) (s s' : State Text) (a : A) :
  assure_state func s = (Ret a, s') ->
  exists text s1,
    indexed text s1 /\ func s1 = (Ret a, s')
    /\ entries_of (cache s1) = entries_of (cache s)
    /\ requests s1 = requests s.
Proof.
  destruct s as [c out reqs].
  unfold assure_state, bind, get_cache, scan_instances, listdir_cache, write_registry,
    mkdir_cache, set_cache, print, exit, raise, ret.
  destruct c as [ | r w | r w idx es]; cbn -[scan_loop not_writeable_message].
  - intros H; discriminate H.
  - destruct (r && w); cbn -[not_writeable_message]; intros H; discriminate H.
  - destruct r, w; cbn -[scan_loop not_writeable_message];
      try (intros H; discriminate H).
    destruct idx as [text | ]; cbn -[scan_loop].
    + destruct (func _) as [[ | | ] ?] eqn:E; intros H; inversion H; subst.
      refine (ex_intro _ text (ex_intro _ _ (conj _ (conj E _))));
        [ exists es; reflexivity | split; reflexivity ].
    + destruct (scan_loop _ _) as [instances | | ]; cbn; try (intros H; discriminate H).
      destruct (func _) as [[ | | ] ?] eqn:E; intros H; inversion H; subst.
      refine (ex_intro _ (encode instances) (ex_intro _ _ (conj _ (conj E _))));
        [ exists es; reflexivity | split; reflexivity ].
Qed.

(** X6. The guard is idempotent: on the state it returns in, a second
    run of it returns with nothing changed and nothing printed. *)
Theorem call_assure_state_idempotent (s s' : State Text) :
  call_assure_state s = (Ret tt, s') ->
  call_assure_state s' = (Ret tt, s').
Proof.
  intros H. unfold call_assure_state in *.
  apply assure_state_ret_inv in H. destruct H as (text & s1 & Hi & H).
  inversion H; subst s1.
  rewrite (assure_state_indexed home Text encode unit (ret tt) text s' Hi). reflexivity.
Qed.

(** The scan of plain names, when it returns. *)
Lemma scan_instances_plain
    (s s' : State Text) (r w : bool) (idx : option Text) (es : Entries)
    (instances : Registry) :
  cache s = Dir r w idx es ->
  (forall name, In name (map fst es) -> plain_name name) ->
  scan_instances s = (Ret instances, s') ->
  s' = s
  /\ map path instances = filter matches_semver (map fst es)
  /\ map SemanticVersion.to_string (map version instances) = map path instances
  /\ Forall (fun i => launcher_path i = path_join (path i) "launcher") instances.
Proof.
  intros Hc Hplain. destruct s as [c out reqs]. simpl in Hc. subst c.
  unfold scan_instances, listdir_cache, bind, get_cache, ret. cbn -[scan_loop].
  intros H. inversion H as [[Hscan Hs]]. clear H. split; [ reflexivity | ].
  assert (Hall : forall name,
            In name (map fst es ++ match idx with Some _ => ["index.json"] | None => [] end)
            -> plain_name name).
  { intros name Hin. apply in_app_or in Hin. destruct Hin as [Hin | Hin]; [ auto | ].
    destruct idx; simpl in Hin; [ | destruct Hin ].
    destruct Hin as [<- | []]. split; vm_compute; reflexivity. }
  destruct (scan_loop_plain _ Hall [] instances Hscan) as (new & -> & Htext & Hpath).
  cbn [app]. split; [ | split; [ exact Htext | ] ].
  - rewrite Hpath, filter_app.
    replace (filter matches_semver match idx with Some _ => ["index.json"] | None => [] end)
      with (@nil string) by (destruct idx; vm_compute; reflexivity).
    apply app_nil_r.
  - clear - Hscan.
    assert (Hgen : forall names acc out,
              scan_loop names acc = Ret out ->
              Forall (fun i => launcher_path i = path_join (path i) "launcher") acc ->
              Forall (fun i => launcher_path i = path_join (path i) "launcher") out).
    { induction names as [ | n names IH]; intros acc out'; cbn [scan_loop].
      - intros H; inversion H; auto.
      - destruct (Semver.semver_match n); [ | apply IH ].
        destruct (SemanticVersion.parse _); [ | intros H; discriminate H ].
        intros H Hacc. apply (IH _ _ H). apply Forall_app. split; [ exact Hacc | ].
        constructor; [ reflexivity | constructor ]. }
    exact (Hgen _ _ _ Hscan (Forall_nil _)).
Qed.

(** ** The registry store and the two queries *)

(** X9. What [add_to_registry] stores, [get_registry] gives back: with
    a codec that reads back what it wrote, the registry read after the
    call is the one read before it with the instance at its end; no
    folder or file of the cache root other than [index.json] has
    changed and nothing is printed. *)
Theorem add_to_registry_then_get_registry
    (text : Text) (registry : Registry) (inst : RenpyInstance) (s : State Text) :
  (forall r, decode (encode r) = Some r) ->
  indexed text s -> decode text = Some registry ->
  exists s',
    add_to_registry inst s = (Ret tt, s')
    /\ get_registry s' = (Ret (Some (registry ++ [inst])), s')
    /\ entries_of (cache s') = entries_of (cache s)
    /\ stdout s' = stdout s /\ requests s' = requests s.
Proof.
  intros Hcodec Hi Hd.
  unfold add_to_registry, bind.
  rewrite (get_registry_indexed home Text encode decode text registry s Hi Hd).
  destruct Hi as [es Hc]. destruct s as [c out reqs]. simpl in Hc. subst c.
  eexists. split; [ reflexivity | ].
  split; [ | repeat split ].
  apply (get_registry_indexed home Text encode decode (encode (registry ++ [inst]))).
  - exists es. reflexivity.
  - apply Hcodec.
Qed.

Lemma installed_loop_get_instance_loop (registry : Registry) (v : Version) :
  installed_loop registry v
  = match get_instance_loop registry v with Some _ => true | None => false end.
Proof.
  induction registry as [ | i rest IH]; simpl; [ reflexivity | ].
  destruct (SemanticVersion.eqb (version i) v); auto.
Qed.

Lemma get_instance_loop_first (registry : Registry) (v : Version) :
  match get_instance_loop registry v with
  | Some inst =>
      SemanticVersion.eqb (version inst) v = true
      /\ exists before after,
           registry = before ++ inst :: after /\ installed_loop before v = false
  | None => installed_loop registry v = false
  end.
Proof.
  induction registry as [ | i rest IH]; simpl; [ reflexivity | ].
  destruct (SemanticVersion.eqb (version i) v) eqn:E.
  - split; [ exact E | ]. exists [], rest. split; reflexivity.
  - destruct (get_instance_loop rest v) as [inst | ]; [ | exact IH ].
    destruct IH as (Hv & before & after & -> & Hb).
    split; [ exact Hv | ]. exists (i :: before), after.
    split; [ reflexivity | ]. simpl. rewrite E. exact Hb.
Qed.

(** X10. [installed] and [get_instance] agree: [installed] returns
    [True] exactly when [get_instance] returns an instance, and that
    instance is the first of the registry with the version asked for.
    Neither changes anything. *)
Theorem installed_iff_get_instance
    (text : Text) (registry : Registry) (vs : string) (v : Version) (s : State Text) :
  indexed text s -> decode text = Some registry -> SemanticVersion.parse vs = Some v ->
  exists found,
    get_instance vs s = (Ret found, s)
    /\ installed vs s
       = (Ret (match found with Some _ => true | None => false end), s)
    /\ match found with
       | Some inst =>
           SemanticVersion.eqb (version inst) v = true
           /\ exists before after,
                registry = before ++ inst :: after /\ installed_loop before v = false
       | None => installed_loop registry v = false
       end.
Proof.
  intros Hi Hd Hv. exists (get_instance_loop registry v).
  rewrite (get_instance_indexed home Text encode decode text registry vs v s Hi Hd Hv).
  rewrite (installed_indexed home Text encode decode text registry vs v s Hi Hd Hv).
  split; [ reflexivity | ].
  split; [ rewrite installed_loop_get_instance_loop; reflexivity | ].
  apply get_instance_loop_first.
Qed.

(** X11. A version string that [Version] does not accept (four
    numbers, as in 6.99.14.3, or no version at all) makes [install] and
    [uninstall] end with the [ValueError] of [Version], raised in
    [installed] before anything is read, printed, requested or
    changed. *)
Theorem invalid_version_raises_ValueError (text : Text) (vs : string) (s : State Text) :
  indexed text s -> SemanticVersion.parse vs = None ->
  install vs s = (Raise ValueError, s)
  /\ uninstall vs s = (Raise ValueError, s)
  /\ installed vs s = (Raise ValueError, s)
  /\ get_instance vs s = (Raise ValueError, s).
Proof.
  intros Hi Hv.
  unfold install, uninstall.
  rewrite !(assure_state_indexed home Text encode _ _ text s Hi).
  unfold bind, installed, get_instance, Version_of_str. rewrite Hv.
  repeat split; reflexivity.
Qed.

(** X12. [list --installed -n N] with [N] not negative and a registry
    that is not empty prints the heading and then the versions of the
    first [N] instances of the registry, in the order of the registry,
    and never more lines than [N] below the heading; it changes nothing
    and sends no request. *)
Theorem list_versions_installed_first_n
    (text : Text) (registry : Registry) (n : Z) (s : State Text) :
  indexed text s -> decode text = Some registry -> registry <> [] -> (0 <= n)%Z ->
  exists lines,
    list_versions true n s
    = (Ret tt, mkState (cache s) (stdout s ++ "Installed versions:" :: lines) (requests s))
    /\ lines = map SemanticVersion.to_string (map version (firstn (Z.to_nat n) registry))
    /\ Z.of_nat (List.length lines) = Z.min n (Z.of_nat (List.length registry)).
Proof.
  intros Hi Hd Hne Hn.
  destruct registry as [ | inst rest]; [ congruence | ].
  eexists. split; [ | split; [ reflexivity | ] ].
  - rewrite (list_versions_installed home Text encode decode get_available_versions
               text inst rest n s Hi Hd).
    unfold slice_to. destruct (Z.leb_spec 0 n); [ reflexivity | lia ].
  - rewrite !length_map, length_firstn. lia.
Qed.

(** ** What a call leaves alone in the cache root *)

Lemma lookup_delete_other (A : Type) (name other : string) (l : list (string * A)) :
  other <> name -> lookup other (delete name l) = lookup other l.
Proof.
  intros Hne. induction l as [ | [n e] rest IH]; simpl; [ reflexivity | ].
  destruct (String.eqb_spec n name) as [-> | Hn]; simpl.
  - rewrite IH. destruct (String.eqb_spec name other); congruence.
  - rewrite IH. reflexivity.
Qed.

Lemma lookup_delete (A : Type) (name : string) (l : list (string * A)) :
  lookup name (delete name l) = None.
Proof.
  induction l as [ | [n e] rest IH]; simpl; [ reflexivity | ].
  destruct (String.eqb_spec n name) as [-> | Hn]; simpl; [ exact IH | ].
  destruct (String.eqb_spec n name); congruence.
Qed.

Lemma touches_ret (A : Type) (names : list string) (a : A) :
  touches names (ret (Text := Text) a).
Proof. intros s o s' H. inversion H. reflexivity. Qed.

Lemma touches_exit (A : Type) (names : list string) (code : Z) :
  touches names (exit (Text := Text) (A := A) code).
Proof. intros s o s' H. inversion H. reflexivity. Qed.

Lemma touches_raise (A : Type) (names : list string) (e : Exn) :
  touches names (raise (Text := Text) (A := A) e).
Proof. intros s o s' H. inversion H. reflexivity. Qed.

Lemma touches_lift (A : Type) (names : list string) (o : Outcome A) :
  touches names (lift (Text := Text) o).
Proof. intros s o' s' H. inversion H. reflexivity. Qed.

Lemma touches_print (names : list string) (line : string) :
  touches names (print (Text := Text) line).
Proof. intros s o s' H. inversion H. reflexivity. Qed.

Lemma touches_send (names : list string) (r : Request) :
  touches names (send (Text := Text) r).
Proof. intros s o s' H. inversion H. reflexivity. Qed.

Lemma touches_get_cache (names : list string) : touches names (get_cache (Text := Text)).
Proof. intros s o s' H. inversion H. reflexivity. Qed.

Lemma touches_bind (A B : Type) (names : list string) (m : M Text A) (k : A -> M Text B) :
  touches names m -> (forall a, touches names (k a)) -> touches names (bind m k).
Proof.
  intros Hm Hk s o s' H other Hother. unfold bind in H.
  destruct (m s) as [[a | code | e] s1] eqn:E.
  - rewrite (Hk a s1 o s' H other Hother). exact (Hm s _ s1 E other Hother).
  - inversion H; subst. exact (Hm s _ s' E other Hother).
  - inversion H; subst. exact (Hm s _ s' E other Hother).
Qed.

(** a call that writes [index.json] or nothing at all *)
Ltac touches_nothing :=
  let s := fresh "s" in
  let c := fresh "c" in
  let H := fresh "H" in
  intros s ? ? H ? ?; destruct s as [c ? ?];
  destruct c as [ | ? ? | ? ? [ ? | ] ?]; inversion H; reflexivity.

Lemma touches_mkdir_cache (names : list string) : touches names (mkdir_cache Text).
Proof. touches_nothing. Qed.

Lemma touches_listdir_cache (names : list string) :
  touches names (listdir_cache (Text := Text)).
Proof. touches_nothing. Qed.

Lemma touches_write_registry (names : list string) (text : Text) :
  touches names (write_registry Text text).
Proof. touches_nothing. Qed.

Lemma touches_read_registry (names : list string) : touches names (read_registry Text).
Proof. touches_nothing. Qed.

Lemma touches_remove_registry (names : list string) : touches names (remove_registry Text).
Proof. touches_nothing. Qed.

Lemma touches_get_entries (names : list string) : touches names (get_entries Text).
Proof. touches_nothing. Qed.

Lemma touches_scan_instances (names : list string) :
  touches names (scan_instances (Text := Text)).
Proof.
  intros s o s' H other Hother. unfold scan_instances, bind in H.
  destruct (listdir_cache s) as [[folders | code | e] s1] eqn:E.
  - inversion H; subst. exact (touches_listdir_cache names s _ s' E other Hother).
  - inversion H; subst. exact (touches_listdir_cache names s _ s' E other Hother).
  - inversion H; subst. exact (touches_listdir_cache names s _ s' E other Hother).
Qed.

Create HintDb touches.
#[local] Hint Resolve touches_ret touches_exit touches_raise touches_lift touches_print
  touches_send touches_get_cache touches_mkdir_cache touches_listdir_cache
  touches_write_registry touches_read_registry touches_remove_registry
  touches_get_entries touches_scan_instances : touches.

Ltac touches_step :=
  match goal with
  | |- touches _ (bind _ _) => apply touches_bind; [ | intros ? ]
  | |- touches _ (match ?x with _ => _ end) => destruct x
  | |- touches _ (if ?x then _ else _) => destruct x
  | |- touches _ _ => solve [ auto with touches ]
  end.

(** the calls that write one entry of the cache root *)
Ltac touches_one name :=
  let s := fresh "s" in
  let c := fresh "c" in
  let es := fresh "es" in
  let H := fresh "H" in
  let other := fresh "other" in
  let Hother := fresh "Hother" in
  intros s ? ? H other Hother; destruct s as [c ? ?];
  destruct c as [ | ? ? | ? ? ? es]; cbn in H; try (inversion H; reflexivity);
  destruct (lookup name es) as [[ ? | ? ] | ]; cbn in H; inversion H; cbn;
  try reflexivity;
  first [ apply lookup_delete_other | apply lookup_put_other ];
  intros ->; apply Hother; assumption.

Lemma touches_remove (names : list string) (name : string) :
  In name names -> touches names (remove (Text := Text) name).
Proof. intros Hin. unfold remove, bind, get_entries, set_entries. touches_one name. Qed.

Lemma touches_rmtree (names : list string) (name : string) :
  In name names -> touches names (rmtree (Text := Text) name).
Proof. intros Hin. unfold rmtree, bind, get_entries, set_entries. touches_one name. Qed.

Lemma touches_append_file (names : list string) (dest : string) (body : bytes) :
  In dest names -> touches names (append_file (Text := Text) dest body).
Proof. intros Hin. unfold append_file, bind, get_entries, set_entries. touches_one dest. Qed.

Lemma touches_extractall (names : list string) (folder sub : string)
                         (members : list ZipInfo) :
  In folder names -> touches names (extractall (Text := Text) folder sub members).
Proof.
  intros Hin. unfold extractall. destruct members as [ | z rest]; [ apply touches_ret | ].
  unfold bind, get_entries, set_entries. touches_one folder.
Qed.

Lemma touches_ZipFile (names : list string) (name : string) :
  touches names (ZipFile name).
Proof.
  unfold ZipFile. touches_step; [ touches_step | ].
  repeat touches_step.
Qed.

Lemma touches_download (names : list string) (url dest : string) :
  In dest names -> touches names (download url dest).
Proof.
  intros Hin. unfold download.
  touches_step; [ touches_step | ].
  destruct (content_length url) as [header | ]; [ | touches_step ].
  cbv zeta. touches_step; [ touches_step | ].
  touches_step; [ touches_step | ].
  touches_step; [ touches_step | ].
  touches_step; [ | touches_step ].
  apply touches_append_file. exact Hin.
Qed.

Lemma touches_assure_state (A : Type) (names : list string) (func : M Text A) :
  touches names func -> touches names (assure_state func).
Proof.
  intros Hfunc. unfold assure_state.
  repeat (touches_step; try exact Hfunc).
Qed.

Lemma touches_get_registry (names : list string) : touches names get_registry.
Proof.
  unfold get_registry. apply touches_assure_state.
  touches_step; [ touches_step | ].
  touches_step; [ touches_step | ].
  touches_step; [ touches_step | ].
  touches_step; [ | touches_step ].
  unfold call_assure_state. apply touches_assure_state. touches_step.
Qed.

#[local] Hint Resolve touches_get_registry touches_ZipFile : touches.

Lemma touches_installed (names : list string) (vs : string) : touches names (installed vs).
Proof. unfold installed, Version_of_str. repeat touches_step. Qed.

Lemma touches_get_instance (names : list string) (vs : string) :
  touches names (get_instance vs).
Proof. unfold get_instance, Version_of_str. repeat touches_step. Qed.

Lemma touches_add_to_registry (names : list string) (inst : RenpyInstance) :
  touches names (add_to_registry inst).
Proof. unfold add_to_registry. repeat touches_step. Qed.

Lemma touches_remove_from_registry (names : list string) (inst : option RenpyInstance) :
  touches names (remove_from_registry inst).
Proof. unfold remove_from_registry. repeat touches_step. Qed.

#[local] Hint Resolve touches_installed touches_get_instance touches_add_to_registry
  touches_remove_from_registry : touches.

(** X13. [download] to the name of an entry of the cache root never
    truncates and writes nowhere else: however it ends, a file at the
    destination still begins with the bytes it held, a folder there is
    as it was, every other entry of the cache root and [index.json] are
    unchanged, and nothing is printed. *)
Theorem download_never_truncates
    (url dest : string) (s s' : State Text) (o : Outcome unit) :
  entry_name dest ->
  download url dest s = (o, s') ->
  (forall other, other <> dest ->
     lookup other (entries_of (cache s')) = lookup other (entries_of (cache s)))
  /\ index_of s' = index_of s
  /\ stdout s' = stdout s
  /\ (forall data, lookup dest (entries_of (cache s)) = Some (Blob data) ->
      exists more, lookup dest (entries_of (cache s')) = Some (Blob (data ++ more)))
  /\ (forall files, lookup dest (entries_of (cache s)) = Some (Folder files) ->
      lookup dest (entries_of (cache s')) = Some (Folder files)).
Proof.
  intros _ H. split; [ | split ].
  - intros other Hother.
    apply (touches_download [dest] url dest (or_introl eq_refl) s o s' H).
    intros [<- | []]. apply Hother. reflexivity.
  - exact (keeps_download Text content_length get_range url dest s o s' H).
  - destruct s as [c out reqs].
    unfold download, bind, send, get_cache, raise, ret in H. cbn in H.
    destruct (content_length url) as [header | ]; [ | inversion H; subst; cbn; split;
      [ reflexivity | split; [ intros data Hd; exists []; rewrite app_nil_r; exact Hd
                             | intros files Hf; exact Hf ] ] ].
    destruct (_ >=? _)%Z; [ inversion H; subst; cbn; split;
      [ reflexivity | split; [ intros data Hd; exists []; rewrite app_nil_r; exact Hd
                             | intros files Hf; exact Hf ] ] | ].
    destruct (get_range _ _ _) as [body | ]; [ | inversion H; subst; cbn; split;
      [ reflexivity | split; [ intros data Hd; exists []; rewrite app_nil_r; exact Hd
                             | intros files Hf; exact Hf ] ] ].
    unfold append_file, bind, get_entries, set_entries, get_cache, set_cache, raise, ret
      in H.
    destruct c as [ | r w | r w idx es]; cbn in H.
    + inversion H; subst; cbn. split; [ reflexivity | ].
      split; [ intros data Hd; discriminate Hd | intros files Hf; discriminate Hf ].
    + inversion H; subst; cbn. split; [ reflexivity | ].
      split; [ intros data Hd; discriminate Hd | intros files Hf; discriminate Hf ].
    + destruct (lookup dest es) as [[data | files] | ] eqn:E; cbn in H;
        inversion H; subst; cbn; (split; [ reflexivity | ]).
      * split; [ | intros files Hf; rewrite E in Hf; discriminate Hf ].
        intros data' Hd. rewrite E in Hd. inversion Hd; subst.
        exists body. apply lookup_put.
      * rewrite E. split; [ intros data Hd; discriminate Hd | intros f Hf; exact Hf ].
      * rewrite E. split; [ intros data Hd; discriminate Hd | intros f Hf; discriminate Hf ].
Qed.

Create HintDb keeps.
#[local] Hint Resolve keeps_ret keeps_exit keeps_raise keeps_lift keeps_print
  keeps_send keeps_get_cache keeps_get_entries keeps_set_entries keeps_remove
  keeps_rmtree keeps_append_file keeps_download keeps_ZipFile keeps_extractall : keeps.

Ltac chain Hi H :=
  let a := fresh "a" in
  let s1 := fresh "s" in
  let Hm := fresh "Hm" in
  apply bind_ret_inv in H; destruct H as (a & s1 & Hm & H);
  apply (fun K => keeps_indexed _ _ _ _ _ _ _ K Hi) in Hm; [ | solve [ auto with keeps ] ];
  clear Hi; rename Hm into Hi.

Lemma install_touches (vs : string) :
  touches [("renpy-" ++ vs ++ "-sdk.zip")%string; ("renpy-" ++ vs ++ "-rapt.zip")%string; vs]
          (install vs).
Proof.
  unfold install. apply touches_assure_state. cbv zeta.
  touches_step; [ touches_step | ].
  touches_step; [ repeat touches_step | ].
  touches_step; [ touches_step | ].
  touches_step; [ apply touches_download; simpl; auto | ].
  touches_step; [ apply touches_download; simpl; auto | ].
  touches_step; [ touches_step | ].
  touches_step; [ touches_step | ].
  touches_step; [ touches_step | ].
  touches_step; [ touches_step | ].
  touches_step; [ apply touches_extractall; simpl; auto | ].
  touches_step; [ touches_step | ].
  touches_step; [ apply touches_extractall; simpl; auto | ].
  touches_step; [ touches_step | ].
  destruct (decode _); [ | touches_step ].
  unfold Version_of_str. destruct (SemanticVersion.parse vs); [ | touches_step ].
  touches_step; [ touches_step | ].
  touches_step; [ touches_step | ].
  touches_step; apply touches_remove; simpl; auto.
Qed.

(** X14. [install] of a version writes nowhere in the cache root but
    to the two archives of that version, to the folder named after it,
    and to [index.json]: however the call ends, every other file and
    every folder of another name is as it was. *)
Theorem install_touches_only_its_files
    (vs other : string) (s s' : State Text) (o : Outcome unit) :
  install vs s = (o, s') ->
  other <> ("renpy-" ++ vs ++ "-sdk.zip")%string ->
  other <> ("renpy-" ++ vs ++ "-rapt.zip")%string ->
  other <> vs ->
  lookup other (entries_of (cache s')) = lookup other (entries_of (cache s)).
Proof.
  intros H Hsdk Hrapt Hvs.
  apply (install_touches vs s o s' H).
  intros [E | [E | [E | []]]]; congruence.
Qed.

Lemma remove_ret (name : string) (s s' : State Text) :
  remove name s = (Ret tt, s') ->
  entries_of (cache s') = delete name (entries_of (cache s)).
Proof.
  destruct s as [c out reqs].
  unfold remove, bind, get_entries, set_entries, get_cache, set_cache, raise, ret.
  destruct c as [ | r w | r w idx es]; cbn; try (intros H; discriminate H).
  destruct (lookup name es) as [[data | files] | ]; cbn;
    intros H; inversion H; reflexivity.
Qed.

Lemma lookup_delete_delete (A : Type) (a b : string) (l : list (string * A)) :
  lookup a (delete b (delete a l)) = None.
Proof.
  destruct (String.eqb_spec a b) as [-> | Hne].
  - apply lookup_delete.
  - rewrite lookup_delete_other by exact Hne. apply lookup_delete.
Qed.

(** An install that returns, from a state with a registry. *)
Lemma install_ret_inv (text : Text) (registry : Registry) (vs : string)
                      (s s' : State Text) :
  indexed text s -> decode text = Some registry ->
  install vs s = (Ret tt, s') ->
  exists v,
    SemanticVersion.parse vs = Some v
    /\ installed_loop registry v = false
    /\ indexed (encode (registry ++ [RenpyInstance_init v vs])) s'
    /\ lookup ("renpy-" ++ vs ++ "-sdk.zip")%string (entries_of (cache s')) = None
    /\ lookup ("renpy-" ++ vs ++ "-rapt.zip")%string (entries_of (cache s')) = None.
Proof.
  intros Hi Hd. unfold install.
  rewrite (assure_state_indexed home Text encode _ _ text s Hi). intros H.
  apply bind_ret_inv in H. destruct H as (already & s2 & Hinst & H).
  destruct (installed_ret_inv home Text encode decode _ _ _ _ _ Hi Hinst)
    as (v & registry' & Hv & Hd' & -> & ->).
  rewrite Hd in Hd'. inversion Hd'; subst registry'. clear Hd'.
  exists v.
  destruct (installed_loop registry v) eqn:Hloop.
  { unfold bind, print, exit in H. discriminate. }
  cbv zeta in H.
  do 10 chain Hi H.
  apply bind_ret_inv in H. destruct H as (text' & s11 & Hread & H).
  rewrite (read_registry_indexed Text text) in Hread by exact Hi.
  inversion Hread; subst text' s11.
  rewrite Hd in H. unfold Version_of_str in H. rewrite Hv in H.
  apply bind_ret_inv in H. destruct H as ([] & s12 & Hadd & H).
  destruct (add_to_registry_indexed home Text encode decode text registry
              (RenpyInstance_init v vs) _ Hi Hd)
    as (s12' & Hadd' & Hi').
  rewrite Hadd' in Hadd. inversion Hadd; subst s12'. clear Hi. rename Hi' into Hi.
  chain Hi H.
  apply bind_ret_inv in H. destruct H as ([] & s14 & Hsdk & Hrapt).
  pose proof (keeps_indexed Text _ _ _ _ _ _ (keeps_remove Text _) Hi Hsdk) as Hi14.
  pose proof (keeps_indexed Text _ _ _ _ _ _ (keeps_remove Text _) Hi14 Hrapt) as Hi'.
  apply remove_ret in Hsdk. apply remove_ret in Hrapt.
  split; [ exact Hv | ]. split; [ reflexivity | ]. split; [ exact Hi' | ].
  rewrite Hrapt, Hsdk. split; [ apply lookup_delete_delete | apply lookup_delete ].
Qed.

(** X15. When [install] returns, [index.json] holds the registry that
    was read, in which the version was absent, with the new instance at
    its end, path and folder name being the version string as typed;
    and the two archives are no longer in the cache root. *)
Theorem install_returns_registered_and_cleaned (vs : string) (s s' : State Text) :
  install vs s = (Ret tt, s') ->
  exists text registry v,
    decode text = Some registry /\ SemanticVersion.parse vs = Some v
    /\ installed_loop registry v = false
    /\ indexed (encode (registry ++ [mkInstance v vs (path_join vs "launcher")])) s'
    /\ lookup ("renpy-" ++ vs ++ "-sdk.zip")%string (entries_of (cache s')) = None
    /\ lookup ("renpy-" ++ vs ++ "-rapt.zip")%string (entries_of (cache s')) = None.
Proof.
  intros H.
  assert (H' := H). unfold install in H'.
  apply assure_state_ret_inv in H'. destruct H' as (text & s1 & Hi & H').
  assert (Hrun : install vs s1 = (Ret tt, s')).
  { unfold install. rewrite (assure_state_indexed home Text encode _ _ text s1 Hi).
    exact H'. }
  assert (Hd : exists registry, decode text = Some registry).
  { apply bind_ret_inv in H'. destruct H' as (already & s2 & Hinst & _).
    destruct (installed_ret_inv home Text encode decode _ _ _ _ _ Hi Hinst)
      as (v & registry & _ & Hd & _). eauto. }
  destruct Hd as [registry Hd].
  destruct (install_ret_inv text registry vs s1 s' Hi Hd Hrun) as (v & Hv & Hl & Hi' & Hs).
  exists text, registry, v. auto.
Qed.

(** X16. [uninstall] of an installed version whose instance has the
    name of an entry of the cache root as its path rewrites
    [index.json] first and then deletes one entry of the cache root,
    the folder at the path of the first instance with that version,
    and nothing else.  When that folder is missing the call ends with
    [FileNotFoundError], when a file stands in its place with
    [NotADirectoryError]: in both cases every entry is as before while
    [index.json] already lacks the instance.  Nothing is printed and
    no request is sent. *)
Theorem uninstall_removes_only_its_folder
    (text : Text) (registry : Registry) (vs : string) (v : Version)
    (s s' : State Text) (o : Outcome unit) :
  indexed text s -> decode text = Some registry ->
  SemanticVersion.parse vs = Some v -> In v (map version registry) ->
  (forall inst, get_instance_loop registry v = Some inst -> entry_name (path inst)) ->
  uninstall vs s = (o, s') ->
  exists inst,
    get_instance_loop registry v = Some inst
    /\ indexed (encode (remove_loop (List.length registry) 0 registry v)) s'
    /\ stdout s' = stdout s /\ requests s' = requests s
    /\ (forall other, other <> path inst ->
          lookup other (entries_of (cache s')) = lookup other (entries_of (cache s)))
    /\ match lookup (path inst) (entries_of (cache s)) with
       | Some (Folder _) =>
           o = Ret tt /\ lookup (path inst) (entries_of (cache s')) = None
       | Some (Blob _) =>
           o = Raise NotADirectoryError
           /\ entries_of (cache s') = entries_of (cache s)
       | None =>
           o = Raise FileNotFoundError
           /\ entries_of (cache s') = entries_of (cache s)
       end.
Proof.
  intros Hi Hd Hv Hin _. unfold uninstall.
  rewrite (assure_state_indexed home Text encode _ _ text s Hi).
  unfold bind at 1.
  rewrite (installed_indexed home Text encode decode text registry vs v s Hi Hd Hv).
  apply installed_loop_In in Hin. rewrite Hin. cbn [negb].
  unfold bind at 1.
  rewrite (get_instance_indexed home Text encode decode text registry vs v s Hi Hd Hv).
  destruct (get_instance_loop_found registry v Hin) as (inst & Hget & Hver & _).
  rewrite Hget. unfold bind at 1. unfold remove_from_registry at 1. unfold bind at 1.
  rewrite (get_registry_indexed home Text encode decode text registry s Hi Hd).
  rewrite Hver.
  destruct Hi as [es Hc]. destruct s as [c out reqs]. simpl in Hc. subst c.
  unfold write_registry, rmtree, bind, get_entries, set_entries, get_cache, set_cache,
    raise, ret.
  cbn. intros H. exists inst. split; [ reflexivity | ].
  destruct (lookup (path inst) es) as [[data | files] | ] eqn:E; cbn in H;
    inversion H; subst; cbn.
  - split; [ eexists; reflexivity | ]. auto.
  - split; [ eexists; reflexivity | ]. split; [ reflexivity | ].
    split; [ reflexivity | ].
    split; [ intros other Hother; apply lookup_delete_other; exact Hother | ].
    split; [ reflexivity | apply lookup_delete ].
  - split; [ eexists; reflexivity | ]. auto.
Qed.

Lemma size_not_below_minus_one (n : nat) : (Z.of_nat n >=? -1)%Z = true.
Proof. rewrite Z.geb_leb. apply Z.leb_le. lia. Qed.

Lemma download_skips (url dest : string) (s : State Text) :
  content_length url = Some None ->
  download url dest s
  = (Ret tt, mkState (cache s) (stdout s) (requests s ++ [UrlOpen url])).
Proof.
  intros Hcl. unfold download, bind, send, get_cache, ret. rewrite Hcl.
  cbn [cache stdout requests].
  destruct (lookup dest (entries_of (cache s))) as [[data | files] | ];
    [ rewrite size_not_below_minus_one | | ]; reflexivity.
Qed.

(** X17. A server that sends no [Content-Length] makes [install] of a
    version that is not installed fail without a byte written: both
    downloads return after their first request (the size of the
    archive counts as -1), the archive is then not there to open, and
    the call ends with [FileNotFoundError], the cache root and
    [index.json] as they were. *)
Theorem install_without_content_length
    (text : Text) (registry : Registry) (vs : string) (v : Version) (s : State Text) :
  indexed text s -> decode text = Some registry ->
  SemanticVersion.parse vs = Some v -> installed_loop registry v = false ->
  (forall url, content_length url = Some None) ->
  lookup ("renpy-" ++ vs ++ "-sdk.zip")%string (entries_of (cache s)) = None ->
  install vs s
  = (Raise FileNotFoundError,
     mkState (cache s)
             (stdout s ++ ["Downloading necessary files..."; "Extracting Ren'Py..."])
             (requests s
                ++ [UrlOpen ("https://www.renpy.org/dl/" ++ vs ++ "/renpy-" ++ vs
                               ++ "-sdk.zip");
                    UrlOpen ("https://www.renpy.org/dl/" ++ vs ++ "/renpy-" ++ vs
                               ++ "-rapt.zip")])).
Proof.
  intros Hi Hd Hv Hloop Hcl Hsdk. unfold install.
  rewrite (assure_state_indexed home Text encode _ _ text s Hi).
  unfold bind at 1.
  rewrite (installed_indexed home Text encode decode text registry vs v s Hi Hd Hv).
  rewrite Hloop. cbv zeta.
  unfold bind at 1. unfold print at 1. cbn [cache stdout requests].
  unfold bind at 1. rewrite download_skips by apply Hcl. cbn [cache stdout requests].
  unfold bind at 1. rewrite download_skips by apply Hcl. cbn [cache stdout requests].
  unfold bind at 1. unfold print at 1. cbn [cache stdout requests].
  unfold bind at 1. unfold ZipFile at 1.
  destruct Hi as [es Hc]. rewrite Hc in *. cbn [entries_of] in Hsdk.
  unfold bind at 1. unfold get_entries at 1. unfold bind at 1. unfold get_cache at 1.
  cbn [cache ret]. rewrite Hsdk. unfold raise.
  rewrite <- !app_assoc. reflexivity.
Qed.

Lemma remove_skipping_last (registry : Registry) (inst : RenpyInstance) :
  installed_loop registry (version inst) = false ->
  remove_skipping (registry ++ [inst]) (version inst) = registry.
Proof.
  induction registry as [ | i rest IH]; simpl.
  - intros _. replace (SemanticVersion.eqb (version inst) (version inst)) with true;
      [ reflexivity | ].
    symmetry. apply Version_eqb_eq. reflexivity.
  - destruct (SemanticVersion.eqb (version i) (version inst)); [ discriminate | ].
    intros H. rewrite (IH H). reflexivity.
Qed.

(** X18. [uninstall] undoes the registry entry of [install]: after an
    install that returned, uninstalling the same version string leaves
    in [index.json] the registry that was there before the install,
    whether the deletion of the folder then succeeds or raises. *)
Theorem install_then_uninstall_restores_registry
    (text : Text) (registry : Registry) (vs : string)
    (s s1 s2 : State Text) (o : Outcome unit) :
  (forall r, decode (encode r) = Some r) ->
  indexed text s -> decode text = Some registry ->
  install vs s = (Ret tt, s1) ->
  uninstall vs s1 = (o, s2) ->
  indexed (encode registry) s2 /\ (o = Ret tt \/ exists e, o = Raise e).
Proof.
  intros Hcodec Hi Hd Hinstall Huninstall.
  destruct (install_ret_inv text registry vs s s1 Hi Hd Hinstall)
    as (v & Hv & Hloop & Hi1 & _).
  set (inst := RenpyInstance_init v vs) in *.
  assert (Hin : In v (map version (registry ++ [inst]))).
  { rewrite map_app. apply in_or_app. right. left. reflexivity. }
  destruct (uninstall_registry home Text encode decode _ _ vs v s1 s2 o
              Hi1 (Hcodec _) Hv Hin Huninstall) as (Hi2 & Ho & _).
  rewrite remove_loop_all in Hi2.
  change v with (version inst) in Hi2 at 1.
  rewrite remove_skipping_last in Hi2 by exact Hloop.
  auto.
Qed.

Lemma bind_any (A B : Type) (m : M Text A) (k : A -> M Text B)
               (s s' : State Text) (o : Outcome B) :
  keeps_index m -> bind m k s = (o, s') ->
  (exists a s1, index_of s1 = index_of s /\ k a s1 = (o, s'))
  \/ index_of s' = index_of s.
Proof.
  intros Hk H. unfold bind in H.
  destruct (m s) as [[a | code | e] s1] eqn:E.
  - left. exists a, s1. split; [ exact (Hk s _ s1 E) | exact H ].
  - right. inversion H; subst. exact (Hk s _ s' E).
  - right. inversion H; subst. exact (Hk s _ s' E).
Qed.

Ltac chain_any Hidx H :=
  let a := fresh "a" in
  let s1 := fresh "s" in
  let Hm := fresh "Hm" in
  apply bind_any in H; [ | solve [ auto with keeps ] ];
  destruct H as [(a & s1 & Hm & H) | Hm];
  [ let Hn := fresh "Hn" in
    assert (Hn := eq_trans Hm Hidx); clear Hidx Hm; rename Hn into Hidx
  | left; exact (eq_trans Hm Hidx) ].

(** X19. [install] never loses or reorders a registered instance:
    however the call ends (a failed download, a broken archive, a
    file in the way), [index.json] either is as it was or holds the
    registry that was read with the new instance at its end. *)
Theorem install_registry_old_or_appended
    (text : Text) (registry : Registry) (vs : string)
    (s s' : State Text) (o : Outcome unit) :
  indexed text s -> decode text = Some registry ->
  install vs s = (o, s') ->
  index_of s' = index_of s
  \/ exists v, SemanticVersion.parse vs = Some v
               /\ installed_loop registry v = false
               /\ indexed (encode (registry ++ [RenpyInstance_init v vs])) s'.
Proof.
  intros Hi Hd. unfold install.
  rewrite (assure_state_indexed home Text encode _ _ text s Hi).
  unfold bind at 1.
  destruct (SemanticVersion.parse vs) as [v | ] eqn:Hv.
  2: { unfold installed, Version_of_str. rewrite Hv.
       intros H; inversion H. left; reflexivity. }
  rewrite (installed_indexed home Text encode decode text registry vs v s Hi Hd Hv).
  destruct (installed_loop registry v) eqn:Hloop.
  { intros H. unfold bind, print, exit in H. inversion H. left. reflexivity. }
  cbv zeta. intros H.
  assert (Hidx : index_of s = index_of s) by reflexivity.
  do 10 chain_any Hidx H.
  match type of Hidx with index_of ?st = _ => rename st into now end.
  assert (Hi0 : indexed text now).
  { apply indexed_index_of. rewrite Hidx. apply indexed_index_of. exact Hi. }
  unfold bind at 1 in H. rewrite (read_registry_indexed Text text now Hi0) in H.
  rewrite Hd in H. unfold Version_of_str in H. rewrite Hv in H.
  unfold bind at 1 in H.
  destruct (add_to_registry_indexed home Text encode decode text registry
              (RenpyInstance_init v vs) now Hi0 Hd) as (added & Hadd & Hi1).
  rewrite Hadd in H.
  right. exists v. split; [ reflexivity | ]. split; [ exact Hloop | ].
  refine (keeps_indexed Text _ _ _ _ _ _ _ Hi1 H).
  apply keeps_bind; [ auto with keeps | intros _ ].
  apply keeps_bind; [ auto with keeps | intros _ ]. auto with keeps.
Qed.

End MoreFacts.

(** ** The order of versions and the sort of the releases *)

Lemma weak_order_eq_r (A : Type) (cmp : A -> A -> comparison) (a b c : A) :
  weak_order cmp -> cmp b c = Eq -> cmp a b = cmp a c.
Proof.
  intros (Hanti & Heq & _) H.
  rewrite (Hanti b a), (Hanti c a). f_equal. apply Heq. exact H.
Qed.

Lemma weak_order_N : weak_order N.compare.
Proof.
  split; [ | split ].
  - intros a b. apply N.compare_antisym.
  - intros a b c H. apply N.compare_eq in H. subst. reflexivity.
  - intros a b c Hab Hbc. rewrite N.compare_lt_iff in *. lia.
Qed.

Lemma weak_order_string : weak_order String.compare.
Proof.
  split; [ | split ].
  - intros a b. apply String.compare_antisym.
  - intros a b c H. apply String.compare_eq_iff in H. subst. reflexivity.
  - intros a b c. apply string_compare_lt_trans.
Qed.

(** a comparison of two keys of the elements *)
Lemma weak_order_on (A B : Type) (f : A -> B) (cmp : B -> B -> comparison) :
  weak_order cmp -> weak_order (fun a b => cmp (f a) (f b)).
Proof.
  intros (Hanti & Heq & Hlt). split; [ | split ].
  - intros a b. apply Hanti.
  - intros a b c. apply Heq.
  - intros a b c. apply Hlt.
Qed.

(** one comparison, and a second one where the first finds no
    difference *)
Lemma weak_order_lex (A : Type) (c1 c2 : A -> A -> comparison) :
  weak_order c1 -> weak_order c2 ->
  weak_order (fun a b => match c1 a b with Eq => c2 a b | Lt => Lt | Gt => Gt end).
Proof.
  intros H1 H2.
  pose proof (weak_order_eq_r A c1) as Hr1.
  destruct H1 as (Hanti1 & Heq1 & Hlt1). destruct H2 as (Hanti2 & Heq2 & Hlt2).
  assert (W1 : weak_order c1) by (split; [ | split ]; assumption).
  split; [ | split ].
  - intros a b. rewrite (Hanti1 a b). destruct (c1 a b); simpl; auto.
  - intros a b c H. destruct (c1 a b) eqn:E; try discriminate H.
    rewrite (Heq1 a b c E). rewrite (Heq2 a b c H). reflexivity.
  - intros a b c Hab Hbc.
    destruct (c1 a b) eqn:Eab; try discriminate Hab.
    + rewrite (Heq1 a b c Eab).
      destruct (c1 b c) eqn:Ebc; try discriminate Hbc; [ | reflexivity ].
      exact (Hlt2 a b c Hab Hbc).
    + destruct (c1 b c) eqn:Ebc; try discriminate Hbc.
      * rewrite <- (Hr1 a b c W1 Ebc). rewrite Eab. reflexivity.
      * rewrite (Hlt1 a b c Eab Ebc). reflexivity.
Qed.

Lemma weak_order_ident : weak_order SemanticVersion.ident_compare.
Proof.
  destruct weak_order_N as (HantiN & HeqN & HltN).
  destruct weak_order_string as (HantiS & HeqS & HltS).
  unfold SemanticVersion.ident_compare. split; [ | split ].
  - intros a b.
    destruct (SemanticVersion.int_of_digits a), (SemanticVersion.int_of_digits b);
      simpl; auto.
  - intros a b c.
    destruct (SemanticVersion.int_of_digits a) eqn:Ea,
             (SemanticVersion.int_of_digits b) eqn:Eb;
      intros H; try discriminate H.
    + destruct (SemanticVersion.int_of_digits c); [ apply HeqN; exact H | reflexivity ].
    + apply String.compare_eq_iff in H. subst b. reflexivity.
  - intros a b c.
    destruct (SemanticVersion.int_of_digits a), (SemanticVersion.int_of_digits b),
             (SemanticVersion.int_of_digits c);
      intros Hab Hbc; try discriminate Hab; try discriminate Hbc; try reflexivity.
    + exact (HltN _ _ _ Hab Hbc).
    + exact (HltS _ _ _ Hab Hbc).
Qed.

Lemma weak_order_idents : weak_order SemanticVersion.idents_compare.
Proof.
  pose proof (weak_order_eq_r string SemanticVersion.ident_compare) as Hr.
  destruct weak_order_ident as (Hanti & Heq & Hlt).
  split; [ | split ].
  - induction a as [ | x a IH]; intros [ | y b]; simpl; try reflexivity.
    rewrite (Hanti x y). destruct (SemanticVersion.ident_compare x y); simpl; auto.
  - induction a as [ | x a IH]; intros [ | y b] c; simpl; intros H;
      try discriminate H; [ reflexivity | ].
    destruct (SemanticVersion.ident_compare x y) eqn:E; try discriminate H.
    destruct c as [ | z c]; [ reflexivity | ]. simpl.
    rewrite (Heq x y z E). rewrite (IH b c H). reflexivity.
  - induction a as [ | x a IH]; intros [ | y b] [ | z c]; simpl; intros Hab Hbc;
      try discriminate Hab; try discriminate Hbc; try reflexivity.
    destruct (SemanticVersion.ident_compare x y) eqn:Exy; try discriminate Hab.
    + rewrite (Heq x y z Exy).
      destruct (SemanticVersion.ident_compare y z) eqn:Eyz; try discriminate Hbc;
        [ | reflexivity ].
      exact (IH b c Hab Hbc).
    + destruct (SemanticVersion.ident_compare y z) eqn:Eyz; try discriminate Hbc.
      * rewrite <- (Hr x y z weak_order_ident Eyz).
        rewrite Exy. reflexivity.
      * rewrite (Hlt x y z Exy Eyz). reflexivity.
Qed.

(** the comparison of two prereleases, in which none at all is the
    highest *)
Lemma weak_order_prerelease :
  weak_order (fun p q : list string =>
                match p, q with
                | [], [] => Eq
                | [], _ :: _ => Gt
                | _ :: _, [] => Lt
                | a :: p', b :: q' => SemanticVersion.idents_compare (a :: p') (b :: q')
                end).
Proof.
  destruct weak_order_idents as (Hanti & Heq & Hlt).
  split; [ | split ].
  - intros [ | x a] [ | y b]; try reflexivity. apply Hanti.
  - intros [ | x a] [ | y b] [ | z c]; intros H; try discriminate H; try reflexivity.
    exact (Heq _ _ _ H).
  - intros [ | x a] [ | y b] [ | z c]; intros Hab Hbc;
      try discriminate Hab; try discriminate Hbc; try reflexivity.
    exact (Hlt _ _ _ Hab Hbc).
Qed.

Lemma weak_order_compare : weak_order SemanticVersion.compare.
Proof.
  refine (weak_order_lex Version
            (fun v w => N.compare (major v) (major w)) _
            (weak_order_on _ _ major _ weak_order_N) _).
  refine (weak_order_lex Version
            (fun v w => N.compare (minor v) (minor w)) _
            (weak_order_on _ _ minor _ weak_order_N) _).
  refine (weak_order_lex Version
            (fun v w => N.compare (patch v) (patch w)) _
            (weak_order_on _ _ patch _ weak_order_N) _).
  exact (weak_order_on _ _ prerelease _ weak_order_prerelease).
Qed.

Lemma ltb_asym (v w : Version) :
  SemanticVersion.ltb v w = true -> SemanticVersion.ltb w v = false.
Proof.
  destruct weak_order_compare as (Hanti & _ & _).
  unfold SemanticVersion.ltb. rewrite (Hanti v w).
  destruct (SemanticVersion.compare v w); simpl; intros H; try discriminate H.
  reflexivity.
Qed.

Lemma ltb_trans (u v w : Version) :
  SemanticVersion.ltb u v = true -> SemanticVersion.ltb v w = true ->
  SemanticVersion.ltb u w = true.
Proof.
  destruct weak_order_compare as (_ & _ & Hlt).
  unfold SemanticVersion.ltb.
  destruct (SemanticVersion.compare u v) eqn:Euv; intros H; try discriminate H.
  destruct (SemanticVersion.compare v w) eqn:Evw; intros H'; try discriminate H'.
  rewrite (Hlt u v w Euv Evw). reflexivity.
Qed.

Lemma insert_release_perm (x : RenpyRelease) (l : list RenpyRelease) :
  Permutation (x :: l) (insert_release x l).
Proof.
  induction l as [ | y rest IH]; simpl; [ apply Permutation_refl | ].
  destruct (release_lt y x); [ apply Permutation_refl | ].
  apply (Permutation_trans (perm_swap y x rest)). apply perm_skip. exact IH.
Qed.

Lemma sorted_reverse_perm (releases : list RenpyRelease) :
  Permutation releases (sorted_reverse releases).
Proof.
  unfold sorted_reverse.
  assert (H : forall acc, Permutation (releases ++ acc)
                            (fold_left (fun sorted x => insert_release x sorted)
                                       releases acc)).
  { induction releases as [ | x rest IH]; intros acc; simpl; [ apply Permutation_refl | ].
    apply (Permutation_trans (Permutation_middle rest acc x)).
    apply (Permutation_trans (Permutation_app_head rest (insert_release_perm x acc))).
    apply IH. }
  specialize (H []). rewrite app_nil_r in H. exact H.
Qed.

Lemma insert_release_descending (x : RenpyRelease) (l : list RenpyRelease) :
  descending l -> descending (insert_release x l).
Proof.
  induction l as [ | y rest IH]; simpl.
  - intros _. split; [ constructor | exact I ].
  - intros [Hy Hrest]. destruct (release_lt y x) eqn:E.
    + cbn [descending]. split; [ | split; assumption ].
      constructor.
      * apply ltb_asym. exact E.
      * rewrite Forall_forall in *. intros b Hb.
        destruct (release_lt x b) eqn:Exb; [ | reflexivity ].
        rewrite <- (Hy b Hb). symmetry.
        exact (ltb_trans _ _ _ E Exb).
    + cbn [descending]. split; [ | exact (IH Hrest) ].
      apply (Permutation_Forall (insert_release_perm x rest)).
      constructor; assumption.
Qed.

Lemma sorted_reverse_descending (releases : list RenpyRelease) :
  descending (sorted_reverse releases).
Proof.
  unfold sorted_reverse.
  assert (H : forall acc, descending acc ->
                          descending (fold_left (fun sorted x => insert_release x sorted)
                                                releases acc)).
  { induction releases as [ | x rest IH]; intros acc Hacc; simpl; [ exact Hacc | ].
    apply IH. apply insert_release_descending. exact Hacc. }
  apply H. exact I.
Qed.

(** one release for every link that matches, in the order of the
    links *)
Lemma releases_loop_ret (links : list string) :
  forall acc found,
    releases_loop links acc = Ret found ->
    exists new,
      found = acc ++ new
      /\ Forall2 (fun link r => exists g, Semver.semver_match link = Some g /\ release_of g r)
                 (filter matches_semver links) new.
Proof.
  induction links as [ | link rest IH]; intros acc found; simpl.
  - intros H. inversion H. exists []. rewrite app_nil_r. split; [ reflexivity | constructor ].
  - unfold matches_semver at 1.
    destruct (Semver.semver_match link) as [g | ] eqn:Hm; [ | apply IH ].
    destruct (SemanticVersion.parse g) as [v | ] eqn:Hv; [ | intros H; discriminate H ].
    intros H. destruct (IH _ _ H) as (new & -> & Hall).
    eexists (_ :: new). rewrite <- app_assoc. split; [ reflexivity | ].
    constructor; [ | exact Hall ].
    exists g. split; [ exact Hm | ]. split; [ exact Hv | reflexivity ].
Qed.

(** ** The launch and the list of releases *)

Section RemoteFacts.

Variable home : string.
Variable Text : Type.
Variable encode : Registry -> Text.
Variable decode : Text -> option Registry.
Variable dl_links : option (list string).
Variable uname : Uname.
Variable isdir_path : string -> bool.
Variable isfile_path : string -> bool.
Variable run_raises : list string -> Environ -> option Exn.

Local Abbreviation get_libraries := (get_libraries home uname isdir_path isfile_path).
Local Abbreviation launch :=
  (launch home Text encode decode uname isdir_path isfile_path run_raises).
Local Abbreviation launch_body :=
  (launch_body home Text encode decode uname isdir_path isfile_path run_raises).
Local Abbreviation get_available_versions :=
  (get_available_versions home Text encode dl_links).
Local Abbreviation available_versions := (available_versions home Text encode dl_links).
Local Abbreviation list_versions :=
  (list_versions home Text encode decode available_versions).

Lemma path_join_renpy (a : string) :
  path_join a "renpy" <> "" /\ Str.endswith (path_join a "renpy") "renpy" = true.
Proof.
  unfold path_join. change (prefix "/" "renpy") with false. cbv iota.
  destruct (String.eqb a "" || Str.endswith a "/").
  - split; [ | apply endswith_append ].
    intros H. apply (f_equal String.length) in H. rewrite length_append in H.
    simpl in H. lia.
  - split.
    + intros H. apply (f_equal String.length) in H. rewrite !length_append in H.
      simpl in H. lia.
    + change (a ++ "/" ++ "renpy")%string with (a ++ String "/" "renpy")%string.
      replace (a ++ String "/" "renpy")%string with ((a ++ "/") ++ "renpy")%string
        by (rewrite append_assoc; reflexivity).
      apply endswith_append.
Qed.

(** X20. On a machine whose [uname] names neither Darwin nor x86_64 nor
    amd64 (a 32-bit or an ARM Linux), [get_libraries] ends with
    [NameError] at [re.match], whatever is in the cache root: the
    module binds [compile] of [re], not [re].  So does [launch] of
    every installed version, after it has set [SDL_AUDIODRIVER] and
    before anything is run. *)
Theorem launch_NameError_on_other_machines
    (text : Text) (registry : Registry) (vs : string) (v : Version)
    (launcher : bool) (unkown : list string) (env : Environ) (s : State Text) :
  contains "Darwin" (sysname uname) = false ->
  contains "x86_64" (machine uname) = false ->
  contains "amd64" (machine uname) = false ->
  indexed text s -> decode text = Some registry ->
  SemanticVersion.parse vs = Some v -> In v (map version registry) ->
  (forall root env', get_libraries root env' = NameError)
  /\ launch vs launcher unkown env s = (NameError, s).
Proof.
  intros Hdarwin Hx86 Hamd Hi Hd Hv Hin.
  assert (Hlib : forall root env', get_libraries root env' = NameError).
  { intros root env'. unfold get_libraries. rewrite Hdarwin, Hx86, Hamd. reflexivity. }
  split; [ exact Hlib | ].
  unfold launch. rewrite (assure_state_indexed home Text encode _ _ text s Hi).
  unfold launch_body. unfold bind at 1.
  rewrite (installed_indexed home Text encode decode text registry vs v s Hi Hd Hv).
  apply installed_loop_In in Hin. rewrite Hin. cbn [negb].
  unfold bind at 1.
  rewrite (get_instance_indexed home Text encode decode text registry vs v s Hi Hd Hv).
  destruct (get_instance_loop_found registry v Hin) as (inst & Hget & _).
  rewrite Hget, Hlib. reflexivity.
Qed.

(** X21. When [get_libraries] returns, the command is the library path,
    [-EO] and the base file; the library path ends in [renpy] and is
    never empty, so the line on platform files that are not found is
    never printed, also when no candidate folder exists; and
    [LD_LIBRARY_PATH] gets the library path in front of its old value
    when it had one that is not empty, and is left alone otherwise. *)
Theorem get_libraries_returns
    (root : string) (env env' : Environ) (cmd printed : list string) :
  get_libraries root env = Normally (Ret (cmd, env', printed)) ->
  printed = []
  /\ exists lib base_file,
       cmd = [lib; "-EO"; base_file]
       /\ lib <> "" /\ Str.endswith lib "renpy" = true
       /\ match lookup "LD_LIBRARY_PATH" env with
          | Some old =>
              if (String.length old =? 0)%nat then env' = env
              else lookup "LD_LIBRARY_PATH" env' = Some (lib ++ ":" ++ old)%string
                   /\ forall name, name <> "LD_LIBRARY_PATH" ->
                        lookup name env' = lookup name env
          | None => env' = env
          end.
Proof.
  unfold get_libraries.
  destruct (if contains "Darwin" (sysname uname) then _ else _)
    as [[[platform root1] root2] | ]; [ | intros H; discriminate H ].
  cbv zeta. intros H. inversion H as [[Hcmd Henv Hprinted]]. clear H.
  set (lib := path_join _ "renpy") in *.
  destruct (path_join_renpy
              (search isdir_path
                 (map (fun folder => join_all (CACHE home) [folder; "lib"; platform])
                      [root; root1; root2]) "")) as [Hne Hends].
  fold lib in Hne, Hends.
  split.
  - destruct (String.eqb_spec lib ""); [ contradiction | reflexivity ].
  - eexists lib, _. split; [ reflexivity | ]. split; [ exact Hne | ].
    split; [ exact Hends | ].
    destruct (lookup "LD_LIBRARY_PATH" env) as [old | ]; [ | reflexivity ].
    destruct (String.length old =? 0)%nat; cbn [negb]; [ reflexivity | ].
    split; [ apply lookup_put | ].
    intros name Hname. apply lookup_put_other. exact Hname.
Qed.

Lemma print_lines_ret (lines : list string) (s : State Text) :
  print_lines lines s
  = (Ret tt, mkState (cache s) (stdout s ++ lines) (requests s)).
Proof.
  revert s. induction lines as [ | line rest IH]; intros s; simpl.
  - unfold ret. rewrite app_nil_r. destruct s; reflexivity.
  - unfold bind, print. rewrite IH. simpl. rewrite <- app_assoc. reflexivity.
Qed.

(** X22. [launch] of a version that is not installed prints that it is
    not installed and ends in [exit(1)]: nothing is run and nothing
    in the cache root changes. *)
Theorem launch_not_installed
    (text : Text) (registry : Registry) (vs : string) (v : Version)
    (launcher : bool) (unkown : list string) (env : Environ) (s : State Text) :
  indexed text s -> decode text = Some registry ->
  SemanticVersion.parse vs = Some v -> ~ In v (map version registry) ->
  launch vs launcher unkown env s
  = (Normally (Exit 1),
     mkState (cache s) (stdout s ++ [(vs ++ " is not installed!")%string]) (requests s)).
Proof.
  intros Hi Hd Hv Hin.
  unfold launch. rewrite (assure_state_indexed home Text encode _ _ text s Hi).
  unfold launch_body. unfold bind at 1.
  rewrite (installed_indexed home Text encode decode text registry vs v s Hi Hd Hv).
  destruct (installed_loop registry v) eqn:E.
  - apply installed_loop_In in E. contradiction.
  - reflexivity.
Qed.

(** X23. When [launch] returns, it has run exactly one command: the
    list of [get_libraries] for the path of the first instance with
    the version, then the launcher path below the cache root when
    [--launcher] was given, then the arguments it did not know, in
    their order.  The command ran with [SDL_AUDIODRIVER] set to
    [dummy], and afterwards [SDL_AUDIODRIVER] is not set at all, also
    when the user had set it before; no variable other than these two
    and [LD_LIBRARY_PATH] differs from before. *)
Theorem launch_returns
    (vs : string) (launcher : bool) (unkown : list string) (env : Environ)
    (s s' : State Text) (l : Launch) :
  launch vs launcher unkown env s = (Normally (Ret l), s') ->
  exists text registry v inst libs env_libs,
    indexed text s' /\ decode text = Some registry
    /\ SemanticVersion.parse vs = Some v
    /\ get_instance_loop registry v = Some inst
    /\ get_libraries (path inst) (put "SDL_AUDIODRIVER" "dummy" env)
       = Normally (Ret (libs, env_libs, []))
    /\ command l
       = libs ++ (if launcher then [path_join (CACHE home) (launcher_path inst)] else [])
              ++ unkown
    /\ run_raises (command l) (environ_of_run l) = None
    /\ lookup "SDL_AUDIODRIVER" (environ_of_run l) = Some "dummy"
    /\ lookup "SDL_AUDIODRIVER" (environ_after l) = None
    /\ forall name, name <> "SDL_AUDIODRIVER" -> name <> "LD_LIBRARY_PATH" ->
         lookup name (environ_of_run l) = lookup name env
         /\ lookup name (environ_after l) = lookup name env.
Proof.
  unfold launch.
  destruct (assure_state _ _ _ _ s) as [[[l' | ] | code | e] s1] eqn:E;
    intros H; inversion H; subst l' s1. clear H.
  apply assure_state_ret_inv in E. destruct E as (text & s1 & Hi & H).
  unfold launch_body in H.
  apply bind_ret_inv in H. destruct H as (present & s2 & Hinst & H).
  destruct (installed_ret_inv home Text encode decode _ _ _ _ _ Hi Hinst)
    as (v & registry & Hv & Hd & -> & ->).
  destruct (installed_loop registry v) eqn:Hloop;
    [ | unfold bind, print, exit in H; discriminate H ].
  cbn [negb] in H. unfold bind at 1 in H.
  rewrite (get_instance_indexed home Text encode decode text registry vs v s1 Hi Hd Hv)
    in H.
  destruct (get_instance_loop registry v) as [inst | ] eqn:Hget;
    [ | discriminate H ].
  destruct (get_libraries (path inst) (put "SDL_AUDIODRIVER" "dummy" env))
    as [[[[libs env_libs] printed] | code | e] | ] eqn:Hlib;
    try discriminate H.
  destruct (get_libraries_returns _ _ _ _ _ Hlib)
    as (-> & lib & base_file & Hcmd & _ & _ & Henv).
  unfold bind at 1 in H. rewrite print_lines_ret in H.
  set (cmd := ((if launcher then _ else _) ++ unkown)) in H.
  destruct (run_raises cmd env_libs) eqn:Hrun; [ discriminate H | ].
  unfold ret in H. inversion H; subst l s'. clear H.
  exists text, registry, v, inst, libs, env_libs.
  cbn [command environ_of_run environ_after cache stdout requests].
  split; [ destruct Hi as [es Hc]; exists es; exact Hc | ].
  split; [ exact Hd | ]. split; [ exact Hv | ]. split; [ exact Hget | ].
  split; [ exact Hlib | ].
  split; [ unfold cmd; destruct launcher; rewrite <- ?app_assoc; reflexivity | ].
  split; [ exact Hrun | ].
  assert (Hsdl : lookup "SDL_AUDIODRIVER" env_libs = Some "dummy"
                 /\ forall name, name <> "SDL_AUDIODRIVER" -> name <> "LD_LIBRARY_PATH" ->
                      lookup name env_libs = lookup name env).
  { destruct (lookup "LD_LIBRARY_PATH" (put "SDL_AUDIODRIVER" "dummy" env))
      as [old | ]; [ destruct (String.length old =? 0)%nat | ].
    - subst env_libs. split; [ apply lookup_put | ].
      intros name Hsdl _. apply lookup_put_other. exact Hsdl.
    - destruct Henv as [_ Hother]. split.
      + rewrite Hother by discriminate. apply lookup_put.
      + intros name Hsdl Hld. rewrite Hother by exact Hld.
        apply lookup_put_other. exact Hsdl.
    - subst env_libs. split; [ apply lookup_put | ].
      intros name Hsdl _. apply lookup_put_other. exact Hsdl. }
  destruct Hsdl as [Hdummy Hrest].
  split; [ exact Hdummy | ]. split; [ apply lookup_delete | ].
  intros name Hsdl Hld. split; [ exact (Hrest name Hsdl Hld) | ].
  rewrite lookup_delete_other by exact Hsdl. exact (Hrest name Hsdl Hld).
Qed.

Lemma get_available_versions_indexed
    (text : Text) (links : list string) (s : State Text) :
  indexed text s -> dl_links = Some links ->
  get_available_versions s
  = (match releases_loop links [] with
     | Ret found => Ret (sorted_reverse found)
     | Exit code => Exit code
     | Raise e => Raise e
     end, s).
Proof.
  intros Hi Hl. unfold get_available_versions.
  rewrite (assure_state_indexed home Text encode _ _ text s Hi).
  rewrite Hl. unfold is_online, bind, lift, ret. cbn [negb].
  destruct (releases_loop links []); reflexivity.
Qed.

(** X24. When [get_available_versions] returns, it returns one release
    for every link of the page whose text matches the pattern, and no
    other: its version is that of group 1 of the match and its URL is
    the SDK archive below the folder of that name.  The releases come
    sorted, no release before a higher one; links of equal versions
    all stay. *)
Theorem get_available_versions_returns
    (s s' : State Text) (releases : list RenpyRelease) :
  get_available_versions s = (Ret releases, s') ->
  exists links found,
    dl_links = Some links
    /\ Forall2 (fun link r => exists g, Semver.semver_match link = Some g /\ release_of g r)
               (filter matches_semver links) found
    /\ Permutation found releases
    /\ descending releases.
Proof.
  intros H. unfold get_available_versions in H.
  apply assure_state_ret_inv in H. destruct H as (text & s1 & Hi & H).
  destruct dl_links as [links | ] eqn:Hl;
    [ | unfold is_online, bind, raise, ret in H; discriminate H ].
  exists links. unfold is_online, bind, lift, ret in H. cbn [negb] in H.
  destruct (releases_loop links []) as [found | code | e] eqn:Hloop;
    try discriminate H.
  inversion H; subst releases s'. clear H.
  destruct (releases_loop_ret links [] found Hloop) as (new & -> & Hall).
  exists new. cbn [app]. split; [ reflexivity | ]. split; [ exact Hall | ].
  split; [ apply sorted_reverse_perm | apply sorted_reverse_descending ].
Qed.

(** X25. [list -n N] without [--installed], with [N] not negative,
    prints the heading and then the [N] highest versions of the page,
    highest first (the first [N] of the sorted releases), or the line
    that no releases are available when no link matches; the cache root
    is as before. *)
Theorem list_versions_available_highest_first
    (text : Text) (links : list string) (found : list RenpyRelease) (n : Z)
    (s : State Text) :
  indexed text s -> dl_links = Some links -> releases_loop links [] = Ret found ->
  (0 <= n)%Z ->
  exists releases s',
    list_versions false n s = (Ret tt, s')
    /\ Permutation found releases /\ descending releases
    /\ cache s' = cache s
    /\ stdout s'
       = stdout s
           ++ "Available versions:"
           :: match releases with
              | [] => ["No releases are available."]
              | _ => map SemanticVersion.to_string
                         (map release_version (firstn (Z.to_nat n) releases))
              end.
Proof.
  intros Hi Hl Hloop Hn.
  exists (sorted_reverse found).
  unfold list_versions. rewrite (assure_state_indexed home Text encode _ _ text s Hi).
  unfold bind at 1. unfold print at 1.
  unfold bind at 1. unfold available_versions. unfold bind at 1.
  assert (Hi' : indexed text
                  (mkState (cache s) (stdout s ++ ["Available versions:"]) (requests s))).
  { destruct Hi as [es Hc]. exists es. exact Hc. }
  rewrite (get_available_versions_indexed text links _ Hi' Hl), Hloop.
  unfold ret at 1.
  destruct (sorted_reverse found) as [ | r rest] eqn:Hsorted.
  - eexists. split; [ reflexivity | ].
    split; [ rewrite <- Hsorted; apply sorted_reverse_perm | ].
    split; [ exact I | ]. split; [ reflexivity | ].
    cbn [stdout]. rewrite <- app_assoc. reflexivity.
  - cbn [map]. rewrite print_versions_stdout. eexists. split; [ reflexivity | ].
    split; [ rewrite <- Hsorted; apply sorted_reverse_perm | ].
    split; [ rewrite <- Hsorted; apply sorted_reverse_descending | ].
    split; [ reflexivity | ].
    cbn [stdout]. rewrite <- app_assoc. cbn [app]. f_equal. f_equal.
    unfold slice_to. destruct (Z.leb_spec 0 n); [ | lia ].
    change (release_version r :: map release_version rest)
      with (map release_version (r :: rest)).
    rewrite firstn_map. reflexivity.
Qed.

End RemoteFacts.

Lemma guarded_function_runs_with_index_witness :
  exists text s1,
    indexed text s1
    /\ ret tt s1
       = (Ret tt, snd (call_assure_state Sample.home Sample.Text Sample.encode
                         Sample.newline_twin))
    /\ entries_of (cache s1) = entries_of (cache Sample.newline_twin)
    /\ requests s1 = requests Sample.newline_twin.
Proof.
  apply (guarded_function_runs_with_index
           Sample.home Sample.Text Sample.encode unit (ret tt) Sample.newline_twin).
  vm_compute. reflexivity.
Defined.

Lemma call_assure_state_idempotent_witness :
  call_assure_state Sample.home Sample.Text Sample.encode
    (snd (call_assure_state Sample.home Sample.Text Sample.encode Sample.newline_twin))
  = (Ret tt, snd (call_assure_state Sample.home Sample.Text Sample.encode Sample.newline_twin)).
Proof.
  apply (call_assure_state_idempotent Sample.home Sample.Text Sample.encode
           Sample.newline_twin).
  vm_compute. reflexivity.
Defined.

Lemma add_to_registry_then_get_registry_witness :
  exists s',
    add_to_registry Sample.home Sample.Text Sample.encode Sample.decode
                    Sample.inst200 Sample.one_installed = (Ret tt, s')
    /\ Run.get_registry s' = (Ret (Some ([Sample.inst100] ++ [Sample.inst200])), s')
    /\ entries_of (cache s') = entries_of (cache Sample.one_installed)
    /\ stdout s' = stdout Sample.one_installed
    /\ requests s' = requests Sample.one_installed.
Proof.
  apply (add_to_registry_then_get_registry
           Sample.home Sample.Text Sample.encode Sample.decode
           (Some [Sample.inst100]) [Sample.inst100] Sample.inst200 Sample.one_installed).
  - intros r. reflexivity.
  - eexists. reflexivity.
  - reflexivity.
Defined.

Lemma installed_iff_get_instance_witness :
  exists found,
    get_instance Sample.home Sample.Text Sample.encode Sample.decode
                 "1.0.0" Sample.one_installed = (Ret found, Sample.one_installed)
    /\ Run.installed "1.0.0" Sample.one_installed
       = (Ret (match found with Some _ => true | None => false end), Sample.one_installed)
    /\ match found with
       | Some inst =>
           SemanticVersion.eqb (version inst) Sample.v100 = true
           /\ exists before after,
                [Sample.inst100] = before ++ inst :: after
                /\ installed_loop before Sample.v100 = false
       | None => installed_loop [Sample.inst100] Sample.v100 = false
       end.
Proof.
  apply (installed_iff_get_instance
           Sample.home Sample.Text Sample.encode Sample.decode
           (Some [Sample.inst100]) [Sample.inst100] "1.0.0" Sample.v100
           Sample.one_installed).
  - eexists. reflexivity.
  - reflexivity.
  - vm_compute. reflexivity.
Defined.

Lemma invalid_version_raises_ValueError_witness :
  Run.install "6.99.14.3" Sample.one_installed = (Raise ValueError, Sample.one_installed)
  /\ Run.uninstall "6.99.14.3" Sample.one_installed
     = (Raise ValueError, Sample.one_installed)
  /\ Run.installed "6.99.14.3" Sample.one_installed
     = (Raise ValueError, Sample.one_installed)
  /\ get_instance Sample.home Sample.Text Sample.encode Sample.decode
                  "6.99.14.3" Sample.one_installed
     = (Raise ValueError, Sample.one_installed).
Proof.
  apply (invalid_version_raises_ValueError
           Sample.home Sample.Text Sample.encode Sample.decode
           Sample.content_length Sample.get_range Sample.read_zip
           (Some [Sample.inst100]) "6.99.14.3" Sample.one_installed).
  - eexists. reflexivity.
  - vm_compute. reflexivity.
Defined.

Lemma list_versions_installed_first_n_witness :
  exists lines,
    Run.list_versions true 1 Sample.two_installed
    = (Ret tt,
       mkState (cache Sample.two_installed)
               (stdout Sample.two_installed ++ "Installed versions:" :: lines)
               (requests Sample.two_installed))
    /\ lines = map SemanticVersion.to_string
                   (map version (firstn (Z.to_nat 1) [Sample.inst100; Sample.inst200]))
    /\ Z.of_nat (List.length lines)
       = Z.min 1 (Z.of_nat (List.length [Sample.inst100; Sample.inst200])).
Proof.
  apply (list_versions_installed_first_n
           Sample.home Sample.Text Sample.encode Sample.decode
           Sample.get_available_versions
           (Some [Sample.inst100; Sample.inst200]) [Sample.inst100; Sample.inst200] 1
           Sample.two_installed).
  - eexists. reflexivity.
  - reflexivity.
  - discriminate.
  - lia.
Defined.

Lemma download_never_truncates_witness :
  let dest := "renpy-1.0.0-sdk.zip" in
  let s := Sample.partial_download in
  let s' := snd (download Sample.Text Sample.content_length Sample.get_range
                          "https://www.renpy.org/dl/1.0.0/renpy-1.0.0-sdk.zip" dest s) in
  (forall other, other <> dest ->
     lookup other (entries_of (cache s')) = lookup other (entries_of (cache s)))
  /\ index_of s' = index_of s
  /\ stdout s' = stdout s
  /\ (forall data, lookup dest (entries_of (cache s)) = Some (Blob data) ->
      exists more, lookup dest (entries_of (cache s')) = Some (Blob (data ++ more)))
  /\ (forall files, lookup dest (entries_of (cache s)) = Some (Folder files) ->
      lookup dest (entries_of (cache s')) = Some (Folder files)).
Proof.
  cbv zeta.
  apply (download_never_truncates
           Sample.Text Sample.content_length Sample.get_range
           "https://www.renpy.org/dl/1.0.0/renpy-1.0.0-sdk.zip" "renpy-1.0.0-sdk.zip"
           Sample.partial_download _ (Ret tt)).
  - unfold entry_name. repeat split; (discriminate || reflexivity).
  - vm_compute. reflexivity.
Defined.

Lemma install_touches_only_its_files_witness :
  lookup "1.0.0" (entries_of (cache (snd (Run.install "2.0.0" Sample.one_installed))))
  = lookup "1.0.0" (entries_of (cache Sample.one_installed)).
Proof.
  apply (install_touches_only_its_files
           Sample.home Sample.Text Sample.encode Sample.decode
           Sample.content_length Sample.get_range Sample.read_zip
           "2.0.0" "1.0.0" Sample.one_installed _ (Ret tt)).
  - vm_compute. reflexivity.
  - discriminate.
  - discriminate.
  - discriminate.
Defined.

Lemma install_returns_registered_and_cleaned_witness :
  let s' := snd (Run.install "2.0.0" Sample.one_installed) in
  exists text registry v,
    Sample.decode text = Some registry /\ SemanticVersion.parse "2.0.0" = Some v
    /\ installed_loop registry v = false
    /\ indexed (Sample.encode
                  (registry ++ [mkInstance v "2.0.0" (path_join "2.0.0" "launcher")])) s'
    /\ lookup "renpy-2.0.0-sdk.zip" (entries_of (cache s')) = None
    /\ lookup "renpy-2.0.0-rapt.zip" (entries_of (cache s')) = None.
Proof.
  cbv zeta.
  apply (install_returns_registered_and_cleaned
           Sample.home Sample.Text Sample.encode Sample.decode
           Sample.content_length Sample.get_range Sample.read_zip
           "2.0.0" Sample.one_installed).
  vm_compute. reflexivity.
Defined.

Lemma uninstall_removes_only_its_folder_witness :
  let s := Sample.one_installed in
  let s' := snd (Run.uninstall "1.0.0" s) in
  exists inst,
    get_instance_loop [Sample.inst100] Sample.v100 = Some inst
    /\ indexed (Sample.encode
                  (remove_loop (List.length [Sample.inst100]) 0 [Sample.inst100]
                               Sample.v100)) s'
    /\ stdout s' = stdout s /\ requests s' = requests s
    /\ (forall other, other <> path inst ->
          lookup other (entries_of (cache s')) = lookup other (entries_of (cache s)))
    /\ match lookup (path inst) (entries_of (cache s)) with
       | Some (Folder _) =>
           Ret tt = Ret tt /\ lookup (path inst) (entries_of (cache s')) = None
       | Some (Blob _) =>
           Ret tt = Raise NotADirectoryError
           /\ entries_of (cache s') = entries_of (cache s)
       | None =>
           Ret tt = Raise FileNotFoundError
           /\ entries_of (cache s') = entries_of (cache s)
       end.
Proof.
  cbv zeta.
  apply (uninstall_removes_only_its_folder
           Sample.home Sample.Text Sample.encode Sample.decode
           (Some [Sample.inst100]) [Sample.inst100] "1.0.0" Sample.v100
           Sample.one_installed _ (Ret tt)).
  - eexists. reflexivity.
  - reflexivity.
  - vm_compute. reflexivity.
  - simpl. auto.
  - intros inst H. vm_compute in H. inversion H. subst inst.
    unfold entry_name. repeat split; (discriminate || reflexivity).
  - vm_compute. reflexivity.
Defined.

Lemma install_without_content_length_witness :
  install Sample.home Sample.Text Sample.encode Sample.decode
          Sample.no_length Sample.get_range Sample.read_zip
          "2.0.0" Sample.one_installed
  = (Raise FileNotFoundError,
     mkState (cache Sample.one_installed)
             (stdout Sample.one_installed
                ++ ["Downloading necessary files..."; "Extracting Ren'Py..."])
             (requests Sample.one_installed
                ++ [UrlOpen ("https://www.renpy.org/dl/" ++ "2.0.0" ++ "/renpy-" ++ "2.0.0"
                               ++ "-sdk.zip");
                    UrlOpen ("https://www.renpy.org/dl/" ++ "2.0.0" ++ "/renpy-" ++ "2.0.0"
                               ++ "-rapt.zip")])).
Proof.
  apply (install_without_content_length
           Sample.home Sample.Text Sample.encode Sample.decode
           Sample.no_length Sample.get_range Sample.read_zip
           (Some [Sample.inst100]) [Sample.inst100] "2.0.0" Sample.v200
           Sample.one_installed).
  - eexists. reflexivity.
  - reflexivity.
  - vm_compute. reflexivity.
  - vm_compute. reflexivity.
  - intros url. reflexivity.
  - vm_compute. reflexivity.
Defined.

Lemma install_then_uninstall_restores_registry_witness :
  indexed (Sample.encode [Sample.inst100])
          (snd (Run.uninstall "2.0.0" (snd (Run.install "2.0.0" Sample.one_installed))))
  /\ (Ret tt = Ret tt \/ exists e, Ret tt = Raise e).
Proof.
  apply (install_then_uninstall_restores_registry
           Sample.home Sample.Text Sample.encode Sample.decode
           Sample.content_length Sample.get_range Sample.read_zip
           (Some [Sample.inst100]) [Sample.inst100] "2.0.0"
           Sample.one_installed (snd (Run.install "2.0.0" Sample.one_installed))).
  - intros r. reflexivity.
  - eexists. reflexivity.
  - reflexivity.
  - vm_compute. reflexivity.
  - vm_compute. reflexivity.
Defined.

Lemma install_registry_old_or_appended_witness :
  let s' := snd (Run.install "2.0.0" Sample.one_installed) in
  index_of s' = index_of Sample.one_installed
  \/ exists v, SemanticVersion.parse "2.0.0" = Some v
               /\ installed_loop [Sample.inst100] v = false
               /\ indexed (Sample.encode ([Sample.inst100] ++ [RenpyInstance_init v "2.0.0"]))
                          s'.
Proof.
  cbv zeta.
  apply (install_registry_old_or_appended
           Sample.home Sample.Text Sample.encode Sample.decode
           Sample.content_length Sample.get_range Sample.read_zip
           (Some [Sample.inst100]) [Sample.inst100] "2.0.0"
           Sample.one_installed _ (Ret tt)).
  - eexists. reflexivity.
  - reflexivity.
  - vm_compute. reflexivity.
Defined.

Lemma launch_NameError_on_other_machines_witness :
  (forall root env',
     get_libraries Sample.home Demo.raspberry Demo.nothing Demo.nothing root env'
     = NameError)
  /\ launch Sample.home Sample.Text Sample.encode Sample.decode
            Demo.raspberry Demo.nothing Demo.nothing Demo.run_returns
            "1.0.0" false [] Demo.user_environ Sample.one_installed
     = (NameError, Sample.one_installed).
Proof.
  apply (launch_NameError_on_other_machines
           Sample.home Sample.Text Sample.encode Sample.decode
           Demo.raspberry Demo.nothing Demo.nothing Demo.run_returns
           (Some [Sample.inst100]) [Sample.inst100] "1.0.0" Sample.v100
           false [] Demo.user_environ Sample.one_installed).
  - vm_compute. reflexivity.
  - vm_compute. reflexivity.
  - vm_compute. reflexivity.
  - eexists. reflexivity.
  - reflexivity.
  - vm_compute. reflexivity.
  - simpl. auto.
Defined.

Lemma get_libraries_returns_witness :
  let env := Demo.user_environ in
  let env' := [("SDL_AUDIODRIVER", "pulse");
               ("LD_LIBRARY_PATH",
                "/home/user/.renutil/1.0.0/lib/linux-x86_64/renpy:/opt/lib")] in
  let cmd := ["/home/user/.renutil/1.0.0/lib/linux-x86_64/renpy"; "-EO";
              "/home/user/.renutil/1.0.0/renpy.py"] in
  @nil string = []
  /\ exists lib base_file,
       cmd = [lib; "-EO"; base_file]
       /\ lib <> "" /\ Str.endswith lib "renpy" = true
       /\ match lookup "LD_LIBRARY_PATH" env with
          | Some old =>
              if (String.length old =? 0)%nat then env' = env
              else lookup "LD_LIBRARY_PATH" env' = Some (lib ++ ":" ++ old)%string
                   /\ forall name, name <> "LD_LIBRARY_PATH" ->
                        lookup name env' = lookup name env
          | None => env' = env
          end.
Proof.
  cbv zeta.
  apply (get_libraries_returns Sample.home Demo.linux Demo.nothing Demo.nothing
           "1.0.0" Demo.user_environ).
  vm_compute. reflexivity.
Defined.

Lemma launch_not_installed_witness :
  launch Sample.home Sample.Text Sample.encode Sample.decode
         Demo.linux Demo.nothing Demo.nothing Demo.run_returns
         "2.0.0" false [] Demo.user_environ Sample.one_installed
  = (Normally (Exit 1),
     mkState (cache Sample.one_installed)
             (stdout Sample.one_installed ++ [("2.0.0" ++ " is not installed!")%string])
             (requests Sample.one_installed)).
Proof.
  apply (launch_not_installed
           Sample.home Sample.Text Sample.encode Sample.decode
           Demo.linux Demo.nothing Demo.nothing Demo.run_returns
           (Some [Sample.inst100]) [Sample.inst100] "2.0.0" Sample.v200
           false [] Demo.user_environ Sample.one_installed).
  - eexists. reflexivity.
  - reflexivity.
  - vm_compute. reflexivity.
  - simpl. intros [H | []]. discriminate H.
Defined.

Lemma launch_returns_witness :
  let env := Demo.user_environ in
  let l :=
    mkLaunch ["/home/user/.renutil/1.0.0/lib/linux-x86_64/renpy"; "-EO";
              "/home/user/.renutil/1.0.0/renpy.py";
              "/home/user/.renutil/1.0.0/launcher"; "--version"]
             [("SDL_AUDIODRIVER", "dummy");
              ("LD_LIBRARY_PATH",
               "/home/user/.renutil/1.0.0/lib/linux-x86_64/renpy:/opt/lib")]
             [("LD_LIBRARY_PATH",
               "/home/user/.renutil/1.0.0/lib/linux-x86_64/renpy:/opt/lib")] in
  exists text registry v inst libs env_libs,
    indexed text Sample.one_installed /\ Sample.decode text = Some registry
    /\ SemanticVersion.parse "1.0.0" = Some v
    /\ get_instance_loop registry v = Some inst
    /\ get_libraries Sample.home Demo.linux Demo.nothing Demo.nothing
                     (path inst) (put "SDL_AUDIODRIVER" "dummy" env)
       = Normally (Ret (libs, env_libs, []))
    /\ command l
       = libs ++ (if true then [path_join (CACHE Sample.home) (launcher_path inst)] else [])
              ++ ["--version"]
    /\ Demo.run_returns (command l) (environ_of_run l) = None
    /\ lookup "SDL_AUDIODRIVER" (environ_of_run l) = Some "dummy"
    /\ lookup "SDL_AUDIODRIVER" (environ_after l) = None
    /\ forall name, name <> "SDL_AUDIODRIVER" -> name <> "LD_LIBRARY_PATH" ->
         lookup name (environ_of_run l) = lookup name env
         /\ lookup name (environ_after l) = lookup name env.
Proof.
  cbv zeta.
  apply (launch_returns
           Sample.home Sample.Text Sample.encode Sample.decode
           Demo.linux Demo.nothing Demo.nothing Demo.run_returns
           "1.0.0" true ["--version"] Demo.user_environ Sample.one_installed).
  vm_compute. reflexivity.
Defined.

Lemma get_available_versions_returns_witness :
  let r732 := mkRelease (mkVersion 7 3 2 [] [])
                        "https://www.renpy.org/dl/7.3.2/renpy-7.3.2-sdk.zip" in
  let r735 := mkRelease (mkVersion 7 3 5 [] [])
                        "https://www.renpy.org/dl/7.3.5/renpy-7.3.5-sdk.zip" in
  exists links found,
    Some Demo.links = Some links
    /\ Forall2 (fun link r => exists g, Semver.semver_match link = Some g /\ release_of g r)
               (filter matches_semver links) found
    /\ Permutation found [r735; r735; r732]
    /\ descending [r735; r735; r732].
Proof.
  cbv zeta.
  apply (get_available_versions_returns
           Sample.home Sample.Text Sample.encode (Some Demo.links)
           Sample.one_installed Sample.one_installed).
  vm_compute. reflexivity.
Defined.

Lemma list_versions_available_highest_first_witness :
  let r732 := mkRelease (mkVersion 7 3 2 [] [])
                        "https://www.renpy.org/dl/7.3.2/renpy-7.3.2-sdk.zip" in
  let r735 := mkRelease (mkVersion 7 3 5 [] [])
                        "https://www.renpy.org/dl/7.3.5/renpy-7.3.5-sdk.zip" in
  let s := Sample.one_installed in
  exists releases s',
    list_versions Sample.home Sample.Text Sample.encode Sample.decode
      (available_versions Sample.home Sample.Text Sample.encode (Some Demo.links))
      false 2 s = (Ret tt, s')
    /\ Permutation [r732; r735; r735] releases /\ descending releases
    /\ cache s' = cache s
    /\ stdout s'
       = stdout s
           ++ "Available versions:"
           :: match releases with
              | [] => ["No releases are available."]
              | _ => map SemanticVersion.to_string
                         (map release_version (firstn (Z.to_nat 2) releases))
              end.
Proof.
  cbv zeta.
  apply (list_versions_available_highest_first
           Sample.home Sample.Text Sample.encode Sample.decode (Some Demo.links)
           (Some [Sample.inst100]) Demo.links _ 2 Sample.one_installed).
  - eexists. reflexivity.
  - reflexivity.
  - vm_compute. reflexivity.
  - lia.
Defined.

(** ** The pattern accepts only what [Version] accepts

    The lemmas of this part are facts of the model, whose characters
    are the code points below 256; the theorems that rest on them are
    stated for ASCII strings. *)

Lemma nullable_matches (r : Re.regex) : Re.nullable r = true -> matches r "".
Proof.
  induction r as [ | | p | r IHr s IHs | r IHr s IHs | r IHr]; simpl; intros H;
    try discriminate H.
  - constructor.
  - apply andb_prop in H. destruct H as [Hr Hs].
    exact (matches_seq r s "" "" (IHr Hr) (IHs Hs)).
  - apply orb_prop in H. destruct H as [H | H];
      [ apply matches_alt_l | apply matches_alt_r ]; auto.
  - constructor.
Qed.

Lemma deriv_matches (c : ascii) (r : Re.regex) :
  forall w, matches (Re.deriv c r) w -> matches r (String c w).
Proof.
  induction r as [ | | p | r IHr s IHs | r IHr s IHs | r IHr]; simpl; intros w H.
  - inversion H.
  - inversion H.
  - destruct (p c) eqn:E; inversion H; subst. constructor. exact E.
  - destruct (Re.nullable r) eqn:E.
    + inversion H as [ | | | ? ? ? Hl | ? ? ? Hr | | ]; subst.
      * inversion Hl as [ | | ? ? a b Ha Hb | | | | ]; subst.
        exact (matches_seq r s (String c a) b (IHr a Ha) Hb).
      * exact (matches_seq r s "" (String c w) (nullable_matches r E) (IHs w Hr)).
    + inversion H as [ | | ? ? a b Ha Hb | | | | ]; subst.
      exact (matches_seq r s (String c a) b (IHr a Ha) Hb).
  - inversion H; subst; [ apply matches_alt_l | apply matches_alt_r ]; auto.
  - inversion H as [ | | ? ? a b Ha Hb | | | | ]; subst.
    exact (matches_star_cons r (String c a) b (IHr a Ha) Hb).
Qed.

(** What [fullmatch] accepts is a word of the language. *)
Lemma fullmatch_matches (w : string) :
  forall r, Re.fullmatch r w = true -> matches r w.
Proof.
  induction w as [ | c w IH]; simpl; intros r H.
  - apply nullable_matches. exact H.
  - apply deriv_matches. apply IH. exact H.
Qed.

Lemma forallb_append (p : ascii -> bool) (a b : string) :
  Str.forallb p (a ++ b) = Str.forallb p a && Str.forallb p b.
Proof.
  induction a as [ | c a IH]; simpl; [ reflexivity | ].
  rewrite IH. apply andb_assoc.
Qed.

Lemma forallb_impl (p q : ascii -> bool) (s : string) :
  (forall c, p c = true -> q c = true) ->
  Str.forallb p s = true -> Str.forallb q s = true.
Proof.
  intros Hpq. induction s as [ | c s IH]; simpl; [ reflexivity | ].
  intros H. apply andb_prop in H. destruct H as [Hc Hs].
  rewrite (Hpq c Hc), (IH Hs). reflexivity.
Qed.

Lemma matches_allowed (r : Re.regex) (w : string) :
  matches r w -> Str.forallb (allowed r) w = true.
Proof.
  induction 1 as [ | p c Hc | r s a b Ha IHa Hb IHb | r s a Ha IHa | r s a Ha IHa
                 | r | r a b Ha IHa Hb IHb ]; simpl.
  - reflexivity.
  - rewrite Hc. reflexivity.
  - rewrite forallb_append. apply andb_true_intro. split.
    + refine (forallb_impl _ _ a _ IHa). intros c H. rewrite H. reflexivity.
    + refine (forallb_impl _ _ b _ IHb). intros c H. rewrite H. apply orb_true_r.
  - refine (forallb_impl _ _ a _ IHa). intros c H. rewrite H. reflexivity.
  - refine (forallb_impl _ _ a _ IHa). intros c H. rewrite H. apply orb_true_r.
  - reflexivity.
  - rewrite forallb_append. apply andb_true_intro. split; assumption.
Qed.

(** A character that no word of [r] may hold is in no word of [r]. *)
Lemma matches_lacks (r : Re.regex) (c : ascii) (w : string) :
  allowed r c = false -> matches r w -> lacks c w = true.
Proof.
  intros Hc Hw. unfold lacks.
  refine (forallb_impl _ _ w _ (matches_allowed r w Hw)).
  intros a Ha. destruct (Ascii.eqb_spec a c) as [-> | ]; [ congruence | reflexivity ].
Qed.

Lemma matches_seq_inv (r s : Re.regex) (w : string) :
  matches (Re.Seq r s) w -> exists a b, w = (a ++ b)%string /\ matches r a /\ matches s b.
Proof. intros H. inversion H; subst. eauto. Qed.

Lemma matches_alt_inv (r s : Re.regex) (w : string) :
  matches (Re.Alt r s) w -> matches r w \/ matches s w.
Proof. intros H. inversion H; subst; auto. Qed.

Lemma matches_chr_inv (c : ascii) (w : string) :
  matches (Re.Chr c) w -> w = String c "".
Proof.
  intros H. inversion H as [ | p x Hx | | | | | ]; subst.
  apply Ascii.eqb_eq in Hx. subst. reflexivity.
Qed.

Lemma matches_opt_inv (r : Re.regex) (w : string) :
  matches (Re.Opt r) w -> matches r w \/ w = "".
Proof.
  intros H. apply matches_alt_inv in H. destruct H as [H | H]; [ auto | ].
  inversion H. auto.
Qed.

Lemma matches_star_class (p : ascii -> bool) (w : string) :
  matches (Re.Star (Re.Class p)) w -> Str.forallb p w = true.
Proof.
  intros H. exact (matches_allowed _ _ H).
Qed.

Lemma partition_lacks (c : ascii) (a : string) :
  lacks c a = true -> Str.partition c a = (a, None).
Proof.
  unfold lacks. induction a as [ | x a IH]; simpl; [ reflexivity | ].
  intros H. apply andb_prop in H. destruct H as [Hx Ha].
  apply negb_true_iff in Hx. rewrite Hx, (IH Ha). reflexivity.
Qed.

Lemma partition_first (c : ascii) (a b : string) :
  lacks c a = true -> Str.partition c (a ++ String c b) = (a, Some b).
Proof.
  unfold lacks. induction a as [ | x a IH]; simpl.
  - intros _. rewrite Ascii.eqb_refl. reflexivity.
  - intros H. apply andb_prop in H. destruct H as [Hx Ha].
    apply negb_true_iff in Hx. rewrite Hx, (IH Ha). reflexivity.
Qed.

Lemma split_lacks (c : ascii) (a : string) :
  lacks c a = true -> Str.split c a = [a].
Proof.
  unfold lacks. induction a as [ | x a IH]; simpl; [ reflexivity | ].
  intros H. apply andb_prop in H. destruct H as [Hx Ha].
  apply negb_true_iff in Hx. rewrite Hx, (IH Ha). reflexivity.
Qed.

Lemma split_first (c : ascii) (a b : string) :
  lacks c a = true -> Str.split c (a ++ String c b) = a :: Str.split c b.
Proof.
  unfold lacks. induction a as [ | x a IH]; simpl.
  - intros _. rewrite Ascii.eqb_refl. reflexivity.
  - intros H. apply andb_prop in H. destruct H as [Hx Ha].
    apply negb_true_iff in Hx. rewrite Hx, (IH Ha). reflexivity.
Qed.

Lemma uint_of_char_digit (c : ascii) (d : Decimal.uint) :
  Re.is_digit c = true -> exists d', uint_of_char c (Some d) = Some d'.
Proof.
  destruct c as [[] [] [] [] [] [] [] []]; intros H; vm_compute in H;
    try discriminate H; eexists; reflexivity.
Qed.

Lemma uint_of_string_digits (s : string) :
  Str.forallb Re.is_digit s = true -> exists d, NilEmpty.uint_of_string s = Some d.
Proof.
  induction s as [ | c s IH]; simpl; intros H; [ eexists; reflexivity | ].
  apply andb_prop in H. destruct H as [Hc Hs].
  destruct (IH Hs) as [d ->]. exact (uint_of_char_digit c d Hc).
Qed.

Lemma int_of_all_digits (s : string) :
  SemanticVersion.all_digits s = true -> exists n, SemanticVersion.int_of_digits s = Some n.
Proof.
  intros H. unfold SemanticVersion.int_of_digits. rewrite H.
  unfold SemanticVersion.all_digits in H. apply andb_prop in H. destruct H as [_ H].
  destruct (uint_of_string_digits s H) as [d ->]. eexists. reflexivity.
Qed.

Lemma has_leading_zero_all_digits (s : string) :
  SemanticVersion.has_leading_zero s = true -> SemanticVersion.all_digits s = true.
Proof.
  destruct s as [ | c [ | c' s']];
    [ discriminate | | ];
    destruct c as [[] [] [] [] [] [] [] []]; simpl; try discriminate; auto.
Qed.

Lemma nonzero_no_leading_zero (d : ascii) (ds : string) :
  Re.is_nonzero_digit d = true -> SemanticVersion.has_leading_zero (String d ds) = false.
Proof.
  destruct d as [[] [] [] [] [] [] [] []]; intros H; vm_compute in H;
    try discriminate H; destruct ds; reflexivity.
Qed.

Lemma class_facts (c : ascii) :
  (Re.is_nonzero_digit c = true -> Re.is_digit c = true)
  /\ (Re.is_digit c = true -> Re.is_alnum_hyphen c = true)
  /\ (Re.is_alpha_hyphen c = true -> Re.is_digit c = false).
Proof.
  destruct c as [[] [] [] [] [] [] [] []]; vm_compute;
    (split; [ | split ]); intros H; try reflexivity; discriminate H.
Qed.

(** a numeric field of the pattern is digits without a leading zero *)
Lemma numeric_ok (n : string) :
  matches Semver.numeric n ->
  SemanticVersion.all_digits n = true /\ SemanticVersion.has_leading_zero n = false.
Proof.
  intros H. apply matches_alt_inv in H. destruct H as [H | H].
  - apply matches_chr_inv in H. subst n. split; reflexivity.
  - apply matches_seq_inv in H. destruct H as (a & ds & -> & Ha & Hds).
    inversion Ha as [ | p d Hd | | | | | ]; subst. clear Ha.
    apply matches_star_class in Hds.
    split; [ | apply nonzero_no_leading_zero; exact Hd ].
    unfold SemanticVersion.all_digits. simpl.
    rewrite (proj1 (class_facts d) Hd), Hds. reflexivity.
Qed.

Lemma not_empty_append (a : string) (c : ascii) (b : string) :
  String.eqb (a ++ String c b) "" = false.
Proof. destruct a; reflexivity. Qed.

(** a prerelease identifier of the pattern passes
    [_validate_identifiers] and holds no dot *)
Lemma pre_ident_ok (i : string) :
  matches Semver.pre_ident i ->
  valid_identifier false i = true /\ lacks "." i = true.
Proof.
  intros H. split; [ | exact (matches_lacks Semver.pre_ident "." i eq_refl H) ].
  unfold valid_identifier.
  change (fun c : ascii => Re.is_alnum_hyphen c) with Re.is_alnum_hyphen.
  apply matches_alt_inv in H. destruct H as [H | H].
  - destruct (numeric_ok i H) as [Hall Hzero]. rewrite Hzero.
    unfold SemanticVersion.all_digits in Hall. apply andb_prop in Hall.
    destruct Hall as [-> Hdigits].
    rewrite (forallb_impl _ _ i (fun c => proj1 (proj2 (class_facts c))) Hdigits).
    reflexivity.
  - apply matches_seq_inv in H. destruct H as (ds & t & -> & Hds & H).
    apply matches_seq_inv in H. destruct H as (a & rest & -> & Ha & Hrest).
    inversion Ha as [ | p x Hx | | | | | ]; subst. clear Ha.
    apply matches_star_class in Hds, Hrest. cbn [String.append].
    rewrite not_empty_append. cbn [negb andb].
    rewrite forallb_append. cbn [Str.forallb].
    rewrite (forallb_impl _ _ ds (fun c => proj1 (proj2 (class_facts c))) Hds), Hrest.
    assert (Hxa : Re.is_alnum_hyphen x = true)
      by (unfold Re.is_alnum_hyphen; rewrite Hx; apply orb_true_r).
    rewrite Hxa. cbn [andb orb].
    destruct (SemanticVersion.has_leading_zero (ds ++ String x rest)) eqn:Hz;
      [ | reflexivity ].
    apply has_leading_zero_all_digits in Hz. unfold SemanticVersion.all_digits in Hz.
    apply andb_prop in Hz. destruct Hz as [_ Hz].
    rewrite forallb_append in Hz. cbn [Str.forallb] in Hz.
    rewrite (proj2 (proj2 (class_facts x)) Hx) in Hz.
    rewrite andb_false_r in Hz. discriminate Hz.
Qed.

(** a word of the build metadata passes [_validate_identifiers], which
    allows leading zeros there, and holds no dot *)
Lemma build_word_ok (w : string) :
  matches (Re.Plus (Re.Class Re.is_alnum_hyphen)) w ->
  valid_identifier true w = true /\ lacks "." w = true.
Proof.
  intros H. split; [ | exact (matches_lacks (Re.Plus (Re.Class Re.is_alnum_hyphen)) "." w eq_refl H) ].
  apply matches_seq_inv in H. destruct H as (a & rest & -> & Ha & Hrest).
  inversion Ha as [ | p x Hx | | | | | ]; subst. clear Ha.
  apply matches_star_class in Hrest.
  unfold valid_identifier.
  change (fun c : ascii => Re.is_alnum_hyphen c) with Re.is_alnum_hyphen.
  cbn [String.append Str.forallb].
  rewrite Hx, Hrest. reflexivity.
Qed.

Lemma dotted_tail (X : Re.regex) (ok : string -> bool) :
  (forall i, matches X i -> ok i = true /\ lacks "." i = true) ->
  forall r t, matches r t -> r = Re.Star (Re.Seq (Re.Chr ".") X) ->
  forall first, ok first = true -> lacks "." first = true ->
    List.forallb ok (Str.split "." (first ++ t)) = true.
Proof.
  intros HX r t H.
  induction H as [ | p c Hc | r s a b Ha IHa Hb IHb | r s a Ha IHa | r s a Ha IHa
                 | r | r a b Ha IHa Hb IHb ]; intros Hr; try discriminate Hr.
  - intros first Hok Hdot. rewrite append_nil_r, (split_lacks "." first Hdot).
    simpl. rewrite Hok. reflexivity.
  - inversion Hr; subst r. clear IHa.
    intros first Hok Hdot.
    apply matches_seq_inv in Ha. destruct Ha as (d & i & -> & Hd & Hi).
    apply matches_chr_inv in Hd. subst d.
    change (first ++ (String "." "" ++ i) ++ b)%string
      with (first ++ String "." (i ++ b))%string.
    rewrite (split_first "." first (i ++ b) Hdot).
    cbn [List.forallb]. rewrite Hok. cbn [andb].
    destruct (HX i Hi) as [Hoki Hdoti].
    exact (IHb eq_refl i Hoki Hdoti).
Qed.

(** dot-separated identifiers of the pattern all pass the check *)
Lemma dotted_identifiers (X : Re.regex) (ok : string -> bool) (w : string) :
  (forall i, matches X i -> ok i = true /\ lacks "." i = true) ->
  matches (Re.Seq X (Re.Star (Re.Seq (Re.Chr ".") X))) w ->
  List.forallb ok (Str.split "." w) = true.
Proof.
  intros HX H. apply matches_seq_inv in H. destruct H as (i & t & -> & Hi & Ht).
  destruct (HX i Hi) as [Hok Hdot].
  exact (dotted_tail X ok HX _ t Ht eq_refl i Hok Hdot).
Qed.

Lemma forallb_chars (p : ascii -> bool) (s : string) :
  Str.forallb p s = List.forallb p (list_ascii_of_string s).
Proof. induction s as [ | c s IH]; simpl; congruence. Qed.

Lemma endswith_lacks (c : ascii) (s : string) :
  lacks c s = true -> Str.endswith s (String c "") = false.
Proof.
  unfold lacks, Str.endswith. rewrite forallb_chars. intros H.
  cbn [list_ascii_of_string rev app string_of_list_ascii].
  destruct (rev (list_ascii_of_string s)) as [ | b l] eqn:E; [ reflexivity | ].
  cbn [string_of_list_ascii prefix].
  destruct (ascii_dec c b) as [<- | ]; [ | reflexivity ].
  exfalso.
  assert (Hin : In c (list_ascii_of_string s)).
  { apply in_rev. rewrite E. left. reflexivity. }
  rewrite forallb_forall in H. specialize (H c Hin).
  rewrite Ascii.eqb_refl in H. discriminate H.
Qed.

Lemma lacks_append (c : ascii) (a b : string) :
  lacks c (a ++ b) = lacks c a && lacks c b.
Proof. apply forallb_append. Qed.

Lemma digits_lack_marks (s : string) :
  Str.forallb Re.is_digit s = true ->
  lacks "+" s = true /\ lacks "-" s = true /\ lacks "." s = true.
Proof.
  intros H. unfold lacks.
  repeat split; refine (forallb_impl _ _ s _ H);
    intros c; destruct c as [[] [] [] [] [] [] [] []]; vm_compute;
    intros Hc; try reflexivity; discriminate Hc.
Qed.

(** [Version] accepts three numeric fields, a prerelease and a build
    that pass its checks, put together as the pattern has them. *)
Lemma parse_assembled (n1 n2 n3 : string) (P B : option string) :
  let ptext := match P with Some p => String "-" p | None => "" end in
  let btext := match B with Some b => String "+" b | None => "" end in
  let whole := (n1 ++ String "." (n2 ++ String "." (n3 ++ ptext ++ btext)))%string in
  SemanticVersion.all_digits n1 = true -> SemanticVersion.has_leading_zero n1 = false ->
  SemanticVersion.all_digits n2 = true -> SemanticVersion.has_leading_zero n2 = false ->
  SemanticVersion.all_digits n3 = true -> SemanticVersion.has_leading_zero n3 = false ->
  match P with
  | Some p => lacks "+" p = true
              /\ SemanticVersion.valid_identifiers false (Str.split "." p) = true
  | None => True
  end ->
  match B with
  | Some b => SemanticVersion.valid_identifiers true (Str.split "." b) = true
  | None => True
  end ->
  lacks (ascii_of_nat 10) whole = true ->
  exists v, SemanticVersion.parse whole = Some v.
Proof.
  intros ptext btext whole A1 Z1 A2 Z2 A3 Z3 HP HB Hnl.
  destruct (int_of_all_digits n1 A1) as [m1 I1].
  destruct (int_of_all_digits n2 A2) as [m2 I2].
  destruct (int_of_all_digits n3 A3) as [m3 I3].
  unfold SemanticVersion.all_digits in A1, A2, A3.
  apply andb_prop in A1, A2, A3.
  destruct A1 as [_ A1], A2 as [_ A2], A3 as [_ A3].
  destruct (digits_lack_marks n1 A1) as (P1 & M1 & D1).
  destruct (digits_lack_marks n2 A2) as (P2 & M2 & D2).
  destruct (digits_lack_marks n3 A3) as (P3 & M3 & D3).
  set (nums := (n1 ++ String "." (n2 ++ String "." n3))%string).
  set (front := (nums ++ ptext)%string).
  assert (Ewhole : whole = (front ++ btext)%string).
  { unfold whole, front, nums.
    repeat (progress (rewrite ?append_assoc; cbn [String.append])). reflexivity. }
  assert (Hsplit : Str.split "." nums = [n1; n2; n3]).
  { unfold nums. rewrite (split_first "." n1 _ D1), (split_first "." n2 _ D2),
      (split_lacks "." n3 D3). reflexivity. }
  assert (Mnums : lacks "-" nums = true).
  { unfold nums. rewrite lacks_append, M1. unfold lacks at 1. cbn [Str.forallb].
    fold (lacks "-" (n2 ++ String "." n3)). rewrite lacks_append, M2.
    unfold lacks. cbn [Str.forallb]. fold (lacks "-" n3). rewrite M3. reflexivity. }
  assert (Pnums : lacks "+" nums = true).
  { unfold nums. rewrite lacks_append, P1. unfold lacks at 1. cbn [Str.forallb].
    fold (lacks "+" (n2 ++ String "." n3)). rewrite lacks_append, P2.
    unfold lacks. cbn [Str.forallb]. fold (lacks "+" n3). rewrite P3. reflexivity. }
  assert (Pfront : lacks "+" front = true).
  { unfold front, ptext. rewrite lacks_append, Pnums.
    destruct P as [p | ]; [ | reflexivity ].
    unfold lacks. cbn [Str.forallb]. fold (lacks "+" p). rewrite (proj1 HP). reflexivity. }
  assert (Hfront : Str.partition "-" front
                   = (nums, P)).
  { unfold front, ptext. destruct P as [p | ].
    - apply partition_first. exact Mnums.
    - rewrite append_nil_r. apply partition_lacks. exact Mnums. }
  assert (Hwhole : Str.partition "+" whole = (front, B)).
  { rewrite Ewhole. unfold btext. destruct B as [b | ].
    - apply partition_first. exact Pfront.
    - rewrite append_nil_r. apply partition_lacks. exact Pfront. }
  unfold SemanticVersion.parse.
  rewrite (chop_not_endswith Semver.newline whole (endswith_lacks _ whole Hnl)).
  rewrite Hwhole, Hfront, Hsplit, Z1, Z2, Z3. cbn [orb].
  rewrite I1, I2, I3.
  destruct P as [p | ]; [ rewrite (proj2 HP) | ];
    (destruct B as [b | ]; [ rewrite HB | ]); eexists; reflexivity.
Qed.

Lemma core_parses (g : string) :
  matches Semver.core g -> exists v, SemanticVersion.parse g = Some v.
Proof.
  intros H.
  pose proof (matches_lacks Semver.core (ascii_of_nat 10) g eq_refl H) as Hnl.
  apply matches_seq_inv in H. destruct H as (n1 & r1 & -> & Hn1 & H).
  apply matches_seq_inv in H. destruct H as (d1 & r2 & -> & Hd1 & H).
  apply matches_seq_inv in H. destruct H as (n2 & r3 & -> & Hn2 & H).
  apply matches_seq_inv in H. destruct H as (d2 & r4 & -> & Hd2 & H).
  apply matches_seq_inv in H. destruct H as (n3 & r5 & -> & Hn3 & H).
  apply matches_seq_inv in H. destruct H as (p & b & -> & Hp & Hb).
  apply matches_chr_inv in Hd1, Hd2. subst d1 d2.
  destruct (numeric_ok n1 Hn1) as [A1 Z1].
  destruct (numeric_ok n2 Hn2) as [A2 Z2].
  destruct (numeric_ok n3 Hn3) as [A3 Z3].
  assert (HP : exists P, p = match P with Some p' => String "-" p' | None => "" end
                         /\ match P with
                            | Some p' =>
                                lacks "+" p' = true
                                /\ SemanticVersion.valid_identifiers false
                                     (Str.split "." p') = true
                            | None => True
                            end).
  { apply matches_opt_inv in Hp. destruct Hp as [Hp | ->]; [ | exists None; auto ].
    apply matches_seq_inv in Hp. destruct Hp as (m & p' & -> & Hm & Hp').
    apply matches_chr_inv in Hm. subst m.
    exists (Some p'). split; [ reflexivity | ]. split.
    - exact (matches_lacks
               (Re.Seq Semver.pre_ident
                       (Re.Star (Re.Seq (Re.Chr ".") Semver.pre_ident)))
               "+" p' eq_refl Hp').
    - exact (dotted_identifiers Semver.pre_ident (valid_identifier false) p'
               pre_ident_ok Hp'). }
  assert (HB : exists B, b = match B with Some b' => String "+" b' | None => "" end
                         /\ match B with
                            | Some b' =>
                                SemanticVersion.valid_identifiers true
                                  (Str.split "." b') = true
                            | None => True
                            end).
  { apply matches_opt_inv in Hb. destruct Hb as [Hb | ->]; [ | exists None; auto ].
    apply matches_seq_inv in Hb. destruct Hb as (m & b' & -> & Hm & Hb').
    apply matches_chr_inv in Hm. subst m.
    exists (Some b'). split; [ reflexivity | ].
    exact (dotted_identifiers (Re.Plus (Re.Class Re.is_alnum_hyphen))
             (valid_identifier true) b' build_word_ok Hb'). }
  destruct HP as (P & -> & HP). destruct HB as (B & -> & HB).
  exact (parse_assembled n1 n2 n3 P B A1 Z1 A2 Z2 A3 Z3 HP HB Hnl).
Qed.

Lemma semver_match_core (s g : string) :
  Semver.semver_match s = Some g -> Re.fullmatch Semver.core g = true.
Proof.
  unfold Semver.semver_match. cbn [fold_right]. intros H.
  repeat match type of H with
         | context [ Str.chop ?tail s ] =>
             let E := fresh "E" in
             destruct (Str.chop tail s) eqn:E
         end;
    repeat match type of H with
           | context [ Re.fullmatch Semver.core ?t ] =>
               let F := fresh "F" in
               destruct (Re.fullmatch Semver.core t) eqn:F
           end;
    inversion H; subst; assumption.
Qed.

Lemma semver_match_parses (s g : string) :
  Semver.semver_match s = Some g -> exists v, SemanticVersion.parse g = Some v.
Proof.
  intros H. apply core_parses. apply fullmatch_matches.
  exact (semver_match_core s g H).
Qed.



Lemma scan_loop_returns (names : list string) :
  forall acc, exists instances, scan_loop names acc = Ret instances.
Proof.
  induction names as [ | name rest IH]; intros acc; simpl; [ eexists; reflexivity | ].
  destruct (Semver.semver_match name) as [g | ] eqn:Hm; [ | apply IH ].
  destruct (semver_match_parses name g Hm) as (v & ->). apply IH.
Qed.


(** ** The guard and the queries always return *)

Section Total.

Variable home : string.
Variable Text : Type.
Variable encode : Registry -> Text.
Variable decode : Text -> option Registry.
Variable dl_links : option (list string).

Local Abbreviation assure_state := (assure_state home Text encode).
Local Abbreviation call_assure_state := (call_assure_state home Text encode).
Local Abbreviation get_registry := (get_registry home Text encode decode).
Local Abbreviation get_available_versions :=
  (get_available_versions home Text encode dl_links).





Ltac foot :=
  split; [ reflexivity
         | split; [ reflexivity
                  | first [ intros _; reflexivity | intros Hf; discriminate Hf ] ] ].

(** X7. However the guard ends, it has changed no folder and no file of
    the cache root other than [index.json] and has sent no request; an
    [index.json] that is there it leaves as it is, whatever it
    holds. *)
Theorem call_assure_state_footprint (s s' : State Text) (o : Outcome unit) :
  call_assure_state s = (o, s') ->
  entries_of (cache s') = entries_of (cache s)
  /\ requests s' = requests s
  /\ (isfile_registry (cache s) = true -> cache s' = cache s).
Proof.
  destruct s as [c out reqs].
  unfold call_assure_state, assure_state, bind, get_cache, scan_instances, listdir_cache,
    write_registry, mkdir_cache, set_cache, print, exit, raise, ret.
  destruct c as [ | r w | r w idx es]; cbn -[scan_loop not_writeable_message].
  - intros H; inversion H; subst; cbn; foot.
  - destruct (r && w); cbn -[not_writeable_message]; intros H; inversion H; subst; cbn;
      foot.
  - destruct r, w; cbn -[scan_loop not_writeable_message];
      try (intros H; inversion H; subst; cbn; foot).
    destruct idx as [text | ]; cbn -[scan_loop].
    + intros H; inversion H; subst; cbn; foot.
    + destruct (scan_loop (map fst es ++ []) []); cbn;
        intros H; inversion H; subst; cbn; foot.
Qed.

(** X8. The scan of a readable cache root whose entry names are ASCII
    and end neither in a slash nor in a newline always returns and
    changes nothing; the instances are those of the names that match
    the pattern, in the order of [listdir]; each one has the name as
    its path, the name as the text of its version, and [launcher] below
    the path as its launcher path; [index.json] and every other name
    give no instance. *)
Theorem scan_instances_registers_matching_names
    (s : State Text) (w : bool) (idx : option Text) (es : Entries) :
  cache s = Dir true w idx es ->
  (forall name, In name (map fst es) -> ascii_only name = true) ->
  (forall name, In name (map fst es) -> plain_name name) ->
  exists instances,
    scan_instances s = (Ret instances, s)
    /\ map path instances = filter matches_semver (map fst es)
    /\ map SemanticVersion.to_string (map version instances) = map path instances
    /\ Forall (fun i => launcher_path i = path_join (path i) "launcher") instances.
Proof.
  intros Hc _ Hplain.
  destruct (scan_loop_returns
              (map fst es ++ match idx with Some _ => ["index.json"] | None => [] end) [])
    as [instances Hscan].
  assert (Hrun : scan_instances s = (Ret instances, s)).
  { destruct s as [c out reqs]. simpl in Hc. subst c.
    unfold scan_instances, listdir_cache, bind, get_cache, ret. cbn -[scan_loop].
    rewrite Hscan. reflexivity. }
  exists instances. split; [ exact Hrun | ].
  exact (proj2 (scan_instances_plain Text s s true w idx es instances Hc Hplain Hrun)).
Qed.

Lemma has_adjacent_In (v : Version) (registry : Registry) :
  has_adjacent v registry = true -> In v (map version registry).
Proof.
  induction registry as [ | a rest IH]; [ discriminate | ].
  destruct rest as [ | b rest']; [ discriminate | ].
  cbn [has_adjacent]. intros H. apply orb_prop in H. destruct H as [H | H].
  - apply andb_prop in H. destruct H as [Ha _].
    apply Version_eqb_eq in Ha. left. exact Ha.
  - right. exact (IH H).
Qed.

(** C2. The second half fails on a registry in which two instances of
    the version stand next to each other, such as the one the guard
    writes for the folders [1.0.0] and [1.0.0] followed by a newline:
    [uninstall] of that version returns when the folder of the first
    is there, and [installed] still answers true afterwards, because
    the loop of [remove_from_registry] deletes while it iterates and
    steps over the second.  The codec is taken to read back what it
    wrote. *)
Theorem uninstall_of_adjacent_twins_leaves_installed
    (text : Text) (registry : Registry) (vs : string) (v : Version)
    (s s' : State Text) (o : Outcome unit) :
  (forall r, decode (encode r) = Some r) ->
  indexed text s -> decode text = Some registry ->
  SemanticVersion.parse vs = Some v ->
  has_adjacent v registry = true ->
  uninstall home Text encode decode vs s = (o, s') ->
  installed home Text encode decode vs s' = (Ret true, s')
  /\ exists inst,
       get_instance_loop registry v = Some inst
       /\ forall files,
            lookup (path inst) (entries_of (cache s)) = Some (Folder files) ->
            o = Ret tt.
Proof.
  intros Hcodec Hi Hd Hv Hadj Hrun.
  pose proof (has_adjacent_In v registry Hadj) as Hin.
  destruct (uninstall_registry home Text encode decode text registry vs v s s' o
              Hi Hd Hv Hin Hrun) as (Hi' & _ & inst & Hget & Hfolder).
  split.
  - rewrite (installed_indexed home Text encode decode _ _ vs v s' Hi' (Hcodec _) Hv).
    rewrite remove_loop_all.
    rewrite (remove_skipping_adjacent v (List.length registry) registry (le_n _)).
    rewrite Hadj. reflexivity.
  - exists inst. split; [ exact Hget | ].
    intros files Hl. exact (proj1 (Hfolder files Hl)).
Qed.

End Total.

Lemma uninstall_of_adjacent_twins_leaves_installed_witness :
  let twin := RenpyInstance_init Sample.v100 (String.append "1.0.0" nl) in
  let s := snd (call_assure_state Sample.home Sample.Text Sample.encode
                                  Sample.newline_twin) in
  let s' := snd (Run.uninstall "1.0.0" s) in
  Run.installed "1.0.0" s' = (Ret true, s')
  /\ exists inst,
       get_instance_loop [Sample.inst100; twin] Sample.v100 = Some inst
       /\ forall files,
            lookup (path inst) (entries_of (cache s)) = Some (Folder files) ->
            fst (Run.uninstall "1.0.0" s) = Ret tt.
Proof.
  cbv zeta.
  apply (uninstall_of_adjacent_twins_leaves_installed
           Sample.home Sample.Text Sample.encode Sample.decode
           (Some [Sample.inst100; RenpyInstance_init Sample.v100 (String.append "1.0.0" nl)])
           [Sample.inst100; RenpyInstance_init Sample.v100 (String.append "1.0.0" nl)]
           "1.0.0" Sample.v100).
  - intros r. reflexivity.
  - eexists. vm_compute. reflexivity.
  - reflexivity.
  - vm_compute. reflexivity.
  - vm_compute. reflexivity.
  - vm_compute. reflexivity.
Defined.




Lemma call_assure_state_footprint_witness :
  let s' := snd (call_assure_state Sample.home Sample.Text Sample.encode
                                   Sample.newline_twin) in
  entries_of (cache s') = entries_of (cache Sample.newline_twin)
  /\ requests s' = requests Sample.newline_twin
  /\ (isfile_registry (cache Sample.newline_twin) = true ->
      cache s' = cache Sample.newline_twin).
Proof.
  cbv zeta.
  apply (call_assure_state_footprint Sample.home Sample.Text Sample.encode
           Sample.newline_twin _ (Ret tt)).
  vm_compute. reflexivity.
Defined.

Lemma scan_instances_registers_matching_names_witness :
  exists instances,
    scan_instances Sample.corrupt_index = (Ret instances, Sample.corrupt_index)
    /\ map path instances = filter matches_semver (map fst [("1.0.0", Folder []); ("lib", Folder [])])
    /\ map SemanticVersion.to_string (map version instances) = map path instances
    /\ Forall (fun i => launcher_path i = path_join (path i) "launcher") instances.
Proof.
  apply (scan_instances_registers_matching_names Sample.Text
           Sample.corrupt_index true (Some None)
           [("1.0.0", Folder []); ("lib", Folder [])]).
  - reflexivity.
  - intros name [<- | [<- | []]]; vm_compute; reflexivity.
  - intros name [<- | [<- | []]]; split; vm_compute; reflexivity.
Defined.

(** The same on the cache root itself, before any [index.json] is
    written: [uninstall 1.0.0] runs the guard, which registers both
    folders, returns, and leaves the version installed. *)
Example uninstall_twin_from_the_folders :
  let s' := snd (Run.uninstall "1.0.0" Sample.newline_twin) in
  fst (Run.uninstall "1.0.0" Sample.newline_twin) = Ret tt
  /\ Run.installed "1.0.0" s' = (Ret true, s')
  /\ entries_of (cache s') = [(String.append "1.0.0" nl, Folder [])].
Proof. cbv zeta. repeat split. Qed.
